(** * Matrix Rooms Search: a shallow embedding of the data pipeline

    The development follows the Go sources of the service:
    - [repository/batch]   the size-triggered write batcher,
    - [services/search]    query pre-processing and query construction,
    - [matrix/server]      federation endpoint resolution ([getURL]),
    - [services/matrix]    server discovery, room parsing, media URLs,
    - [services/index], [services/facade]  index batching and ingestion,
    - [services/cache]     the HTTP cache middleware.

    Conventions.  A Go [string] is a Rocq [string] (a sequence of bytes,
    UTF-8 where it is read as text); the white space of [strings.TrimSpace]
    is that of [unicode.IsSpace].  A Go [map] is a [gmap]; a Go [int] is a
    [Z].  A panic is an outcome of its own.
    Effects are written as explicit state passing: every method takes the
    state of its receiver (and of the collaborators it writes to) and returns
    the new one.  Calls that leave the process (HTTP, DNS) are answered by an
    environment record and recorded in a trace.  The worker pools are run
    sequentially, in submission order. *)

From Stdlib Require Import ZArith Ascii String List Lia Bool.
From Stdlib Require Import Numbers.DecimalString Numbers.DecimalPos Numbers.DecimalZ.
From stdpp Require Import base option list gmap strings.

Local Open Scope Z_scope.

(* ===================================================================== *)
(** * Part I: definitions                                                 *)
(* ===================================================================== *)

(* --------------------------------------------------------------------- *)
(** ** How a call ends                                                    *)
(* --------------------------------------------------------------------- *)

Module Go.

(** A call returns a value or panics (here: on reading a field through a
    nil pointer). *)
Inductive outcome (A : Type) :=
| Returns (a : A)
| Panics.
Arguments Returns {A} a.
Arguments Panics {A}.

End Go.

(* --------------------------------------------------------------------- *)
(** ** The fragment of Go's [strings] and [strconv] packages in use       *)
(* --------------------------------------------------------------------- *)

Module GoStrings.

(** [strings.HasPrefix s p]. *)
Fixpoint HasPrefix (s p : string) {struct p} : bool :=
  match p, s with
  | EmptyString, _ => true
  | String _ _, EmptyString => false
  | String a p', String b s' => if decide (a = b) then HasPrefix s' p' else false
  end.

(** [strings.Contains s sub]: [sub] starts at some position of [s]. *)
Fixpoint Contains (s sub : string) : bool :=
  HasPrefix s sub ||
  match s with
  | EmptyString => false
  | String _ s' => Contains s' sub
  end.

(** The byte [c] occurs in [s]; [Contains s (String c "")] computes it
    (lemma [Contains_byte] below). *)
Fixpoint hasByte (c : ascii) (s : string) : bool :=
  match s with
  | EmptyString => false
  | String a s' => if decide (a = c) then true else hasByte c s'
  end.

(** [strings.Split s sep] for a separator of one byte, the only kind the
    sources use ([" "] and [":"]).  The result is never empty: a string
    with [n] separators has [n+1] fields. *)
Fixpoint Split (s : string) (sep : ascii) : list string :=
  match s with
  | EmptyString => [EmptyString]
  | String a s' =>
      if decide (a = sep) then EmptyString :: Split s' sep
      else match Split s' sep with
           | [] => [String a EmptyString]
           | w :: ws => String a w :: ws
           end
  end.

(** [strings.Join elems sep]. *)
Fixpoint Join (elems : list string) (sep : string) : string :=
  match elems with
  | [] => EmptyString
  | [w] => w
  | w :: ws => w +:+ sep +:+ Join ws sep
  end.

(** [strings.TrimLeftFunc] and [strings.TrimRightFunc]. *)
Fixpoint TrimLeftFunc (f : ascii -> bool) (s : string) : string :=
  match s with
  | EmptyString => EmptyString
  | String a s' => if f a then TrimLeftFunc f s' else s
  end.

Fixpoint TrimRightFunc (f : ascii -> bool) (s : string) : string :=
  match s with
  | EmptyString => EmptyString
  | String a s' =>
      match TrimRightFunc f s' with
      | EmptyString => if f a then EmptyString else String a EmptyString
      | r => String a r
      end
  end.

Definition TrimFunc (f : ascii -> bool) (s : string) : string :=
  TrimRightFunc f (TrimLeftFunc f s).

(** The white space of [strings.TrimSpace] is that of [unicode.IsSpace].
    In ASCII (Go's [asciiSpace] table): tab, line feed, vertical tab, form
    feed, carriage return and space. *)
Definition isSpace (a : ascii) : bool :=
  match a with
  | "009" | "010" | "011" | "012" | "013" | " " => true
  | _ => false
  end%char.

(** Beyond ASCII the white-space runes are U+0085, U+00A0, U+1680, U+2000
    to U+200A, U+2028, U+2029, U+202F, U+205F and U+3000.  [isSpace2] and
    [isSpace3] recognise their UTF-8 encodings, of two and of three bytes:
    C2 85, C2 A0; E1 9A 80, E2 80 80 to E2 80 8A, E2 80 A8, E2 80 A9,
    E2 80 AF, E2 81 9F, E3 80 80.  Any other bytes decode to another rune
    or to [utf8.RuneError], neither of which is white space. *)
Definition isSpace2 (a b : ascii) : bool :=
  (N_of_ascii a =? 194)%N && ((N_of_ascii b =? 133)%N || (N_of_ascii b =? 160)%N).

Definition isSpace3 (a b c : ascii) : bool :=
  let a := N_of_ascii a in
  let b := N_of_ascii b in
  let c := N_of_ascii c in
  ((a =? 225) && (b =? 154) && (c =? 128)
   || (a =? 226) && (b =? 128)
      && ((128 <=? c) && (c <=? 138) || (c =? 168) || (c =? 169) || (c =? 175))
   || (a =? 226) && (b =? 129) && (c =? 159)
   || (a =? 227) && (b =? 128) && (c =? 128))%N.

(** The runes recognised by [one], [two] and [three] (by their bytes, in
    the order in which [s] has them) are dropped from the start of [s]. *)
Fixpoint trimLeftRunes (one : ascii -> bool) (two : ascii -> ascii -> bool)
    (three : ascii -> ascii -> ascii -> bool) (s : string) : string :=
  match s with
  | EmptyString => EmptyString
  | String a s1 =>
      if one a then trimLeftRunes one two three s1
      else
        match s1 with
        | EmptyString => s
        | String b s2 =>
            if two a b then trimLeftRunes one two three s2
            else
              match s2 with
              | EmptyString => s
              | String c s3 =>
                  if three a b c then trimLeftRunes one two three s3 else s
              end
        end
  end.

Fixpoint revString (s : string) : string :=
  match s with
  | EmptyString => EmptyString
  | String a s' => revString s' +:+ String a EmptyString
  end.

(** [strings.TrimSpace]: the white-space runes at the start go
    ([utf8.DecodeRuneInString] from the left), then those at the end
    ([utf8.DecodeLastRuneInString] from the right: from the last byte back
    to the first byte of its rune, which is white space when the bytes from
    there to the end are the encoding of a white-space rune). *)
Definition TrimLeftSpace (s : string) : string :=
  trimLeftRunes isSpace isSpace2 isSpace3 s.

Definition TrimRightSpace (s : string) : string :=
  revString (trimLeftRunes isSpace (fun b a => isSpace2 a b)
               (fun c b a => isSpace3 a b c) (revString s)).

Definition TrimSpace (s : string) : string := TrimRightSpace (TrimLeftSpace s).

(** [strings.Trim s cutset]: leading and trailing bytes of [cutset] go. *)
Definition Trim (s cutset : string) : string :=
  TrimFunc (fun a => hasByte a cutset) s.

(** [strings.ReplaceAll s old new]: the non-overlapping occurrences of
    [old] are replaced from left to right.  [skip] counts the bytes of the
    occurrence being replaced that are still to be passed over.  With an
    empty [old], Go inserts [new] before every character and at the end. *)
Fixpoint replaceFrom (old new s : string) (skip : nat) : string :=
  match s with
  | EmptyString => EmptyString
  | String a s' =>
      match skip with
      | S k => replaceFrom old new s' k
      | O =>
          if HasPrefix s old
          then new +:+ replaceFrom old new s' (Nat.pred (String.length old))
          else String a (replaceFrom old new s' 0)
      end
  end.

Fixpoint intersperse (new s : string) : string :=
  match s with
  | EmptyString => new
  | String a s' => new +:+ String a (intersperse new s')
  end.

Definition ReplaceAll (s old new : string) : string :=
  match old with
  | EmptyString => intersperse new s
  | String _ _ => replaceFrom old new s 0
  end.

(** [strconv.Itoa]: the decimal rendering of an [int]. *)
Definition Itoa (n : Z) : string := NilZero.string_of_int (Z.to_int n).

End GoStrings.

(* --------------------------------------------------------------------- *)
(** ** repository/batch: the size-triggered batcher                       *)
(* --------------------------------------------------------------------- *)

Module Batch.
Section Batch.

(** [T] is the item type; [W] is the state the flush function writes to
    (for the room batch of [repository/data]: the [rooms] bucket). *)
Context {T W : Type}.

(** The mutex of the Go struct guards [data]; the embedding is sequential,
    so the record keeps the three other fields. *)
Record t := mk {
  flushfunc : list T -> W -> W;
  data : list T;
  size : Z
}.

(** [New]: [make([]T, 0, size)] panics on a negative capacity. *)
Definition New (size : Z) (flushfunc : list T -> W -> W) : option t :=
  if decide (size < 0) then None
  else Some {| flushfunc := flushfunc; data := []; size := size |}.

(** [Flush]: hand the current items to the flush function, start afresh. *)
Definition Flush (b : t) (w : W) : t * W :=
  ({| flushfunc := flushfunc b; data := []; size := size b |},
   flushfunc b (data b) w).

(** [Add]: append, then flush when [len(b.data) >= b.size]. *)
Definition Add (item : T) (b : t) (w : W) : t * W :=
  let b' := {| flushfunc := flushfunc b; data := data b ++ [item]; size := size b |} in
  if decide (Z.of_nat (length (data b')) >= size b') then Flush b' w else (b', w).

(** A producer adding the items of a list one after the other. *)
Fixpoint AddAll (items : list T) (b : t) (w : W) : t * W :=
  match items with
  | [] => (b, w)
  | x :: xs => let '(b', w') := Add x b w in AddAll xs b' w'
  end.

End Batch.
Arguments t : clear implicits.

(** A flush function that records every call it receives, in order. *)
Definition record {T : Type} (items : list T) (log : list (list T)) : list (list T) :=
  log ++ [items].

(** The batcher of size [n] in front of the recording flush function. *)
Definition recorder {T : Type} (n : Z) : t T (list (list T)) :=
  {| flushfunc := record; data := []; size := n |}.

(** The batch that the final, explicit [Flush] call of the scenario
    "add all of [items], then call [Flush]" hands to the flush function. *)
Definition explicitFlushBatch {T : Type} (n : Z) (items : list T) : list T :=
  data (fst (AddAll items (recorder n) [])).

(** The calls received by the flush function in that scenario. *)
Definition flushCalls {T : Type} (n : Z) (items : list T) : list (list T) :=
  let '(b, w) := AddAll items (recorder n) [] in snd (Flush b w).

Definition nonEmpty {T : Type} (l : list T) : bool :=
  match l with [] => false | _ => true end.

End Batch.

(* --------------------------------------------------------------------- *)
(** ** services/search: query pre-processing and construction             *)
(* --------------------------------------------------------------------- *)

Module Search.
Import GoStrings.

(** The queries of the index engine that the service builds.  A match
    query is created without field and without boost; [SetField] and
    [SetBoost] fill them in.  The engine reads a query without boost as
    boost 1 ([Boost] below, the engine's [Boost.Value] on a nil pointer). *)
Record matchQuery := mkMatch {
  Match : string;
  Phrase : bool;            (* [NewMatchPhraseQuery] or [NewMatchQuery] *)
  FieldVal : string;
  BoostVal : option Z       (* the float64 boosts in use are integers *)
}.

Definition NewMatchQuery (m : string) : matchQuery :=
  {| Match := m; Phrase := false; FieldVal := ""; BoostVal := None |}.

Definition NewMatchPhraseQuery (m : string) : matchQuery :=
  {| Match := m; Phrase := true; FieldVal := ""; BoostVal := None |}.

Definition SetField (f : string) (q : matchQuery) : matchQuery :=
  {| Match := Match q; Phrase := Phrase q; FieldVal := f; BoostVal := BoostVal q |}.

Definition SetBoost (b : Z) (q : matchQuery) : matchQuery :=
  {| Match := Match q; Phrase := Phrase q; FieldVal := FieldVal q; BoostVal := Some b |}.

(** The boost the engine scores with; a query nobody called [SetBoost] on
    has the engine's default boost. *)
Definition defaultBoost : Z := 1.

Definition Boost (q : matchQuery) : Z := default defaultBoost (BoostVal q).

#[warnings="-register-all"]
Inductive Query :=
| QMatch (q : matchQuery)
| QBoolean (must : list matchQuery)     (* only [AddMust] is used *)
| QDisjunction (disjuncts : list Query).

(** [SearchFieldsBoost]: field name => boost. *)
Definition SearchFieldsBoost : gmap string Z :=
  <["language" := 100]> (<["name" := 10]> (<["server" := 10]> (<["alias" := 5]> ∅))).

(** Indexing a Go map with a missing key yields the zero value. *)
Definition boostOf (field : string) : Z := default 0 (SearchFieldsBoost !! field).

(** One round of the loop over [parts] in [matchFields]; the accumulator
    holds [toRemove] and [fields]. *)
Definition matchPart (acc : list string * gmap string string) (part : string)
  : list string * gmap string string :=
  let '(toRemove, fields) := acc in
  if negb (Contains part ":") then acc
  else
    let toRemove := toRemove ++ [part] in
    let pair := Split (TrimSpace part) ":"%char in
    if decide (length pair < 2)%nat then (toRemove, fields)
    else (toRemove, <[TrimSpace (nth 0 pair "") := TrimSpace (nth 1 pair "")]> fields).

(** [matchFields]: the residual query and the extracted fields.  The nil
    map of the early return is the empty map: only its length is read. *)
Definition matchFields (query : string) : string * gmap string string :=
  if negb (Contains query ":") then (query, ∅)
  else
    let parts := Split query " "%char in
    let '(toRemove, fields) := foldl matchPart ([], ∅) parts in
    let query := foldl (fun q remove => ReplaceAll q remove "") query toRemove in
    (TrimSpace query, fields).

Definition newMatchQuery (m field : string) (phrase : bool) : matchQuery :=
  let searchQuery := if phrase then NewMatchPhraseQuery m else NewMatchQuery m in
  SetBoost (boostOf field) (SetField field searchQuery).

(** [getSearchQuery].  Go ranges over [fields] in an unspecified order;
    the embedding takes the order of [map_to_list], and the theorems about
    the must-clauses are stated up to permutation. *)
Definition getSearchQuery (q : string) (fields : gmap string string) : Query :=
  let q := TrimSpace q in
  let phrase := Contains q " " in
  let queries :=
    [ QMatch (newMatchQuery q "name" phrase);
      QMatch (newMatchQuery q "alias" phrase);
      QMatch (newMatchQuery q "topic" phrase);
      QMatch (newMatchQuery q "server" phrase) ] in
  let queries :=
    if decide (0 < size fields)%nat
    then queries
         ++ [QBoolean ((fun kv : string * string => newMatchQuery kv.2 kv.1 false)
                         <$> map_to_list fields)]
    else queries in
  QDisjunction queries.

(** [Search]: the query handed to the repository. *)
Definition Search (query : string) : Query :=
  let '(query, fields) := matchFields query in
  getSearchQuery query fields.

(** For the statements about [matchFields] and [Search]: the field entry
    that a token with a colon stands for (the first two segments of the
    trimmed token, each trimmed), the text a token leaves in the query
    once the tokens with a colon are deleted, and the sub-queries of a
    disjunction. *)
Definition fieldOf (part : string) : string * string :=
  let pair := Split (TrimSpace part) ":"%char in
  (TrimSpace (nth 0 pair ""), TrimSpace (nth 1 pair "")).

Definition withoutColon (part : string) : string :=
  if Contains part ":" then "" else part.

Definition disjuncts (q : Query) : list Query :=
  match q with
  | QDisjunction ds => ds
  | QMatch _ | QBoolean _ => []
  end.

End Search.

(* --------------------------------------------------------------------- *)
(** ** matrix/server: resolution of the federation endpoint               *)
(* --------------------------------------------------------------------- *)

Module Resolver.
Import GoStrings.

(** The body of an answer to [/.well-known/matrix/server], as
    [json.Unmarshal] leaves the [*wellKnownServerResp]: the body could not
    be read or decoded; the body is the JSON [null], which decodes without
    error and leaves the pointer nil; or a document, with the value of
    [m.server] (empty when the document has none). *)
Inductive WellKnownBody :=
| Unreadable
| NullDocument
| Document (host : string).

(** What the network answers.  [wellKnownServer name] is the GET of
    [https://<name>/.well-known/matrix/server]: [None] for a transport
    error, otherwise the status code and the body.  [lookupSRV service
    name] is the DNS lookup of [_<service>._tcp.<name>]: [None] for an
    error, otherwise the records as (target, port). *)
Record Net := {
  wellKnownServer : string -> option (Z * WellKnownBody);
  lookupSRV : string -> string -> option (list (string * Z))
}.

Inductive Event :=
| EvWellKnown (serverName : string)
| EvSRV (service serverName : string)
| EvDiscover (serverName : string).     (* [go s.discoverFunc(ctx, name)] *)

(** The resolver's part of [Server].  Modelled from the spec: the
    declaration of [Server] and of its caches is not among the sources;
    [surlsCache] is the map from server name to resolved URL of the
    endpoint resolution ([Get] is a lookup, [Add] an insertion; the
    lifetime of about 24h and the capacity are not modelled).
    [discoverFunc] tells whether a discovery hook is installed; [trace] is
    not a field of the Go struct: it records what left the process. *)
Record Server := mkServer {
  surlsCache : gmap string string;
  discoverFunc : bool;
  trace : list Event
}.

(** A small state monad over [Server]; a panic ends the computation and
    leaves the state as it is then. *)
Definition M (A : Type) : Type := Server -> Go.outcome A * Server.
Definition ret {A} (a : A) : M A := fun s => (Go.Returns a, s).
Definition lift {A} (o : Go.outcome A) : M A := fun s => (o, s).
Definition bind {A B} (m : M A) (k : A -> M B) : M B :=
  fun s =>
    match m s with
    | (Go.Returns a, s') => k a s'
    | (Go.Panics, s') => (Go.Panics, s')
    end.
Definition emit (e : Event) : M unit :=
  fun s => (Go.Returns tt,
            {| surlsCache := surlsCache s; discoverFunc := discoverFunc s;
               trace := trace s ++ [e] |}).
Definition cacheGet (k : string) : M (option string) :=
  fun s => (Go.Returns (surlsCache s !! k), s).
Definition cacheAdd (k v : string) : M unit :=
  fun s => (Go.Returns tt,
            {| surlsCache := <[k := v]> (surlsCache s);
               discoverFunc := discoverFunc s; trace := trace s |}).
Definition hasDiscoverFunc : M bool := fun s => (Go.Returns (discoverFunc s), s).

Notation "'let*' x ':=' m 'in' k" := (bind m (fun x => k))
  (at level 10, x name, m at level 100, k at level 200).
Notation "'run' m 'in' k" := (bind m (fun _ => k))
  (at level 10, m at level 100, k at level 200).

(** The decoding part of [parseServerWellKnown]: from the answer to
    [host:port], or to an error ([None]); on the null document the read of
    [wellknown.Host] goes through the nil pointer and panics. *)
Definition serverWellKnown (resp : option (Z * WellKnownBody))
  : Go.outcome (option string) :=
  match resp with
  | None => Go.Returns None
  | Some (status, body) =>
      if decide (status = 200) then
        match body with
        | Unreadable => Go.Returns None
        | NullDocument => Go.Panics
        | Document wkHost =>
            if decide (wkHost = "") then Go.Returns None
            else
              let parts := Split wkHost ":"%char in
              if decide (length parts = 0)%nat then Go.Returns None
              else
                let host := nth 0 parts "" in
                let port := if decide (length parts = 2)%nat then nth 1 parts "" else "8448" in
                Go.Returns (Some (host +:+ ":" +:+ port))
        end
      else Go.Returns None
  end.

Definition parseServerWellKnown (net : Net) (serverName : string) : M (option string) :=
  run emit (EvWellKnown serverName) in
  lift (serverWellKnown (wellKnownServer net serverName)).

(** The decoding part of [parseSRV]. *)
Definition firstSRV (addrs : option (list (string * Z))) : option string :=
  match addrs with
  | None => None
  | Some [] => None
  | Some ((target, port) :: _) => Some (Trim target "." +:+ ":" +:+ Itoa port)
  end.

Definition parseSRV (net : Net) (service serverName : string) : M (option string) :=
  run emit (EvSRV service serverName) in
  ret (firstSRV (lookupSRV net service serverName)).

(** [dcrURL]: discover, cache and return. *)
Definition dcrURL (serverName url : string) (discover : bool) : M string :=
  run cacheAdd serverName url in
  let* hook := hasDiscoverFunc in
  run (if hook && discover then emit (EvDiscover serverName) else ret tt) in
  ret url.

(** [getURL]: the federation API URL of [serverName]. *)
Definition getURL (net : Net) (serverName : string) (discover : bool) : M string :=
  let* cached := cacheGet serverName in
  match cached with
  | Some url => ret url
  | None =>
      let* fromWellKnown := parseServerWellKnown net serverName in
      match fromWellKnown with
      | Some hp => dcrURL serverName ("https://" +:+ hp) discover
      | None =>
          let* fromSRV := parseSRV net "matrix-fed" serverName in
          match fromSRV with
          | Some hp => dcrURL serverName ("https://" +:+ hp) discover
          | None =>
              let* fromSRV := parseSRV net "matrix" serverName in
              match fromSRV with
              | Some hp => dcrURL serverName ("https://" +:+ hp) discover
              | None => dcrURL serverName ("https://" +:+ serverName +:+ ":8448") discover
              end
          end
      end
  end.

(** Every well-known/SRV resolution starts with the fetch of the
    well-known document: the resolutions in a trace are counted by it. *)
Definition isWellKnown (e : Event) : bool :=
  match e with
  | EvWellKnown _ => true
  | EvSRV _ _ | EvDiscover _ => false
  end.

Definition resolutions (tr : list Event) : nat :=
  length (filter (fun e => isWellKnown e = true) tr).

(** The resolution in the words of the spec, to compare [getURL] with:
    the well-known document ("on 200 with non-empty [m.server]"); else the
    SRV record of [_matrix-fed._tcp]; else the SRV record of
    [_matrix._tcp]; else [https://<server>:8448].  The result is the URL
    and the lookups made, in order.  In these words a document that gives
    no [m.server], the null document among them, is passed over. *)
Definition usable (o : Go.outcome (option string)) : option string :=
  match o with
  | Go.Returns hp => hp
  | Go.Panics => None
  end.

Definition resolutionOrder (net : Net) (serverName : string) : string * list Event :=
  match usable (serverWellKnown (wellKnownServer net serverName)) with
  | Some hp => ("https://" +:+ hp, [EvWellKnown serverName])
  | None =>
      match firstSRV (lookupSRV net "matrix-fed" serverName) with
      | Some hp =>
          ("https://" +:+ hp, [EvWellKnown serverName; EvSRV "matrix-fed" serverName])
      | None =>
          match firstSRV (lookupSRV net "matrix" serverName) with
          | Some hp =>
              ("https://" +:+ hp,
               [EvWellKnown serverName; EvSRV "matrix-fed" serverName;
                EvSRV "matrix" serverName])
          | None =>
              ("https://" +:+ serverName +:+ ":8448",
               [EvWellKnown serverName; EvSRV "matrix-fed" serverName;
                EvSRV "matrix" serverName])
          end
      end
  end.

End Resolver.

(* --------------------------------------------------------------------- *)
(** ** model: servers, rooms, index entries, the blocklist                *)
(* --------------------------------------------------------------------- *)

Module Model.

(** An instant; only stored, compared and formatted. *)
Definition Time : Type := Z.

(** A Go [error]: [None] is [nil]. *)
Definition error : Type := option string.

Record BlocklistService := {
  ByID : string -> bool;
  ByServer : string -> bool
}.

Record MatrixServerContacts := {
  Emails : list string;
  MXIDs : list string;
  SupportURL : string
}.

Definition noContacts : MatrixServerContacts :=
  {| Emails := []; MXIDs := []; SupportURL := "" |}.

(** Modelled from the spec: the declaration of [model.MatrixServer] is not
    among the sources.  The record has the attributes of the spec's server
    record (name, resolved base URL, online flag, indexable flag, update
    time, contacts); [discoverServer] fills in the name, the online flag,
    the update time and the contacts and leaves the others at their zero
    value. *)
Module MatrixServer.
Record t := mk {
  Name : string;
  URL : string;
  Online : bool;
  Indexable : bool;
  UpdatedAt : Time;
  Contacts : MatrixServerContacts
}.

(** The assignments [server.Contacts = c] and [server.Online = b]. *)
Definition setContacts (c : MatrixServerContacts) (s : t) : t :=
  mk (Name s) (URL s) (Online s) (Indexable s) (UpdatedAt s) c.

Definition setOnline (b : bool) (s : t) : t :=
  mk (Name s) (URL s) b (Indexable s) (UpdatedAt s) (Contacts s).
End MatrixServer.

(** Modelled from the spec: the declaration of [model.MatrixRoom] and its
    method [IsBlocked] are not among the sources.  The fields are those of
    the spec's room record; "a room is blocked if any of its id, its
    canonical alias, or its origin server matches", which is the test that
    [Entry.IsBlocked] makes. *)
Module MatrixRoom.
Record t := mk {
  ID : string;
  Alias : string;
  Name : string;
  Topic : string;
  Avatar : string;
  AvatarURL : string;
  Server : string;
  Members : Z;
  Language : string
}.

Definition IsBlocked (r : t) (block : BlocklistService) : bool :=
  if ByID block (ID r) then true
  else if ByID block (Alias r) then true
  else if ByServer block (Server r) then true
  else false.
End MatrixRoom.

(** [model.Entry] of [model/search.go], with its method [IsBlocked]
    ([Type] is a reserved word: the field is [Type_]). *)
Module Entry.
Record t := mk {
  ID : string;
  Type_ : string;
  Alias : string;
  Name : string;
  Topic : string;
  Avatar : string;
  AvatarURL : string;
  Server : string;
  Members : Z;
  Language : string
}.

Definition IsBlocked (r : t) (block : BlocklistService) : bool :=
  if ByID block (ID r) then true
  else if ByID block (Alias r) then true
  else if ByServer block (Server r) then true
  else false.
End Entry.

(** The body of a [publicRooms] answer.  [Chunk] is a slice of pointers:
    [None] is the nil pointer that a JSON [null] among the elements
    decodes to. *)
Record matrixRoomsResp := {
  Chunk : list (option MatrixRoom.t);
  NextBatch : string;
  Total : Z
}.

(** The rooms of a page: its elements other than [null]. *)
Definition Rooms (resp : matrixRoomsResp) : list MatrixRoom.t := omap id (Chunk resp).

End Model.

(* --------------------------------------------------------------------- *)
(** ** services/matrix: the interface to the store, and the crawler       *)
(* --------------------------------------------------------------------- *)

Module Repository.
Import Model.

(** The part of the [DataRepository] interface that the crawler calls,
    over the state [D] of an implementation.  [EachRoom] gives the rooms
    in iteration order: the callback runs inside a read transaction and
    cannot change the store. *)
Class DataRepository (D : Type) := {
  AddServer : MatrixServer.t -> D -> D * error;
  GetServer : string -> D -> string * error;
  AllServers : D -> gmap string string;
  AllOnlineServers : D -> gmap string string;
  RemoveServer : string -> D -> D * error;
  AddRoomBatch : MatrixRoom.t -> D -> D;
  FlushRoomBatch : D -> D;
  EachRoom : D -> list (string * MatrixRoom.t);
  RemoveRooms : list string -> D -> D
}.

End Repository.

Module Matrix.
Import GoStrings Model Repository.

(** What the federation answers.  [call endpoint] is the authorised GET:
    [None] for a transport error, otherwise the status code and, when the
    body could be read and decoded to a non-nil value, the decoded body.
    [contacts name] is the outcome of the MSC1929 lookup of
    [getServerContacts] ([None]: failed or empty). *)
Record Fed := {
  call : string -> option (Z * option matrixRoomsResp);
  contacts : string -> option MatrixServerContacts;
  QueryEscape : string -> string
}.

Inductive Request :=
| ReqContacts (name : string)
| ReqGet (endpoint : string).

Section Service.
Context {D : Type} `{!DataRepository D}.

(** The [Matrix] struct.  [sent] is not a field of the Go struct: it is
    the trace of the requests the service has sent. *)
Record t := mk {
  servers : list string;
  proxyURL : string;
  publicURL : string;
  parsing : bool;
  discovering : bool;
  eachrooming : bool;
  block : BlocklistService;
  data : D;
  sent : list Request
}.

Definition setData (d : D) (m : t) : t :=
  {| servers := servers m; proxyURL := proxyURL m; publicURL := publicURL m;
     parsing := parsing m; discovering := discovering m;
     eachrooming := eachrooming m; block := block m; data := d; sent := sent m |}.

Definition send (r : Request) (m : t) : t :=
  {| servers := servers m; proxyURL := proxyURL m; publicURL := publicURL m;
     parsing := parsing m; discovering := discovering m;
     eachrooming := eachrooming m; block := block m; data := data m;
     sent := sent m ++ [r] |}.

Definition setParsing (b : bool) (m : t) : t :=
  {| servers := servers m; proxyURL := proxyURL m; publicURL := publicURL m;
     parsing := b; discovering := discovering m;
     eachrooming := eachrooming m; block := block m; data := data m; sent := sent m |}.

Definition setDiscovering (b : bool) (m : t) : t :=
  {| servers := servers m; proxyURL := proxyURL m; publicURL := publicURL m;
     parsing := parsing m; discovering := b;
     eachrooming := eachrooming m; block := block m; data := data m; sent := sent m |}.

Definition setEachrooming (b : bool) (m : t) : t :=
  {| servers := servers m; proxyURL := proxyURL m; publicURL := publicURL m;
     parsing := parsing m; discovering := discovering m;
     eachrooming := b; block := block m; data := data m; sent := sent m |}.

(** [getPublicRoomsPage]: one page of the public rooms of [name]. *)
Definition publicRoomsEndpoint (fed : Fed) (m : t) (name limit since : string) : string :=
  let endpoint := proxyURL m +:+ "/_matrix/client/v3/publicRooms?server=" +:+ name
                  +:+ "&limit=" +:+ limit in
  if decide (since <> "") then endpoint +:+ "&since=" +:+ QueryEscape fed since
  else endpoint.

Definition getPublicRoomsPage (fed : Fed) (name limit since : string) (m : t)
  : option matrixRoomsResp * t :=
  let endpoint := publicRoomsEndpoint fed m name limit since in
  let m := send (ReqGet endpoint) m in
  match call fed endpoint with
  | None => (None, m)
  | Some (status, body) =>
      if decide (status <> 200) then (None, m) else (body, m)
  end.

(** [validateDiscoveredServer]: is the public rooms endpoint alive? *)
Definition validateDiscoveredServer (fed : Fed) (name : string) (m : t) : bool * t :=
  let '(resp, m) := getPublicRoomsPage fed name "1" "" m in
  (bool_decide (is_Some resp), m).

(** [getServerContacts], as per MSC1929. *)
Definition getServerContacts (fed : Fed) (name : string) (m : t)
  : option MatrixServerContacts * t :=
  (contacts fed name, send (ReqContacts name) m).

(** [discoverServer]; [now] is the value of [time.Now().UTC()]. *)
Definition discoverServer (fed : Fed) (now : Time) (name : string) (m : t) : t * error :=
  if ByServer (block m) name then
    let '(d, err) := RemoveServer name (data m) in (setData d m, err)
  else
    let '(existingURL, _) := GetServer name (data m) in
    if decide (existingURL <> "") then (m, None)
    else
      let server :=
        {| MatrixServer.Name := name; MatrixServer.URL := "";
           MatrixServer.Online := true; MatrixServer.Indexable := false;
           MatrixServer.UpdatedAt := now; MatrixServer.Contacts := noContacts |} in
      let '(c, m) := getServerContacts fed name m in
      let server :=
        match c with
        | Some c => MatrixServer.setContacts c server
        | None => server
        end in
      let '(ok, m) := validateDiscoveredServer fed name m in
      if negb ok then
        let server := MatrixServer.setOnline false server in
        let '(d, err) := AddServer server (data m) in (setData d m, err)
      else
        let '(d, err) := AddServer server (data m) in (setData d m, err).

(** Modelled from the spec: [utils.MapKeys] and [utils.MergeSlices] are not
    among the sources.  The servers to discover are "a union of the servers
    known to the store and the static seed list": the keys of the map, and
    the two lists merged without duplicates. *)
Definition MapKeys (m : gmap string string) : list string := (map_to_list m).*1.

Definition MergeSlices (a b : list string) : list string := remove_dups (a ++ b).

(** The body of the loop of [DiscoverServers] for one [name]: a blocked
    server is removed on the spot, any other is handed to the pool, which
    runs [discoverServer]; errors are logged. *)
Definition discoverEach (fed : Fed) (now : Time) (m : t) (name : string) : t :=
  if ByServer (block m) name then
    let '(d, _) := RemoveServer name (data m) in setData d m
  else (discoverServer fed now name m).1.

(** [DiscoverServers]. *)
Definition DiscoverServers (fed : Fed) (now : Time) (workers : Z) (m : t) : t :=
  if discovering m then m
  else
    let m := setDiscovering true m in
    let dataservers := MapKeys (AllServers (data m)) in
    let servers := MergeSlices dataservers (servers m) in
    let m := foldl (discoverEach fed now) m servers in
    setDiscovering false m.

(** The body of the loop over [resp.Chunk] in [getPublicRooms]; [parse] is
    [room.Parse(m.detector, m.publicURL)]. *)
Definition addRoom (parse : MatrixRoom.t -> MatrixRoom.t) (m : t) (room : MatrixRoom.t) : t :=
  if bool_decide (MatrixRoom.ID room = "") || MatrixRoom.IsBlocked room (block m) then m
  else setData (AddRoomBatch (parse room) (data m)) m.

(** The loop over [resp.Chunk]: on a null element the read of [room.ID]
    goes through the nil pointer and panics; the rooms before it have been
    enqueued by then. *)
Fixpoint addRooms (parse : MatrixRoom.t -> MatrixRoom.t) (m : t)
    (chunk : list (option MatrixRoom.t)) : t * Go.outcome unit :=
  match chunk with
  | [] => (m, Go.Returns tt)
  | None :: _ => (m, Go.Panics)
  | Some room :: chunk => addRooms parse (addRoom parse m room) chunk
  end.

(** One round of the loop of [getPublicRooms]: the state after the round
    and, when the loop goes on, the next value of [since]. *)
Definition roomsRound (fed : Fed) (parse : MatrixRoom.t -> MatrixRoom.t)
    (name since : string) (m : t) : t * Go.outcome (option string) :=
  let '(resp, m) := getPublicRoomsPage fed name "10000" since m in
  match resp with
  | None => (m, Go.Returns None)
  | Some resp =>
      if decide (length (Chunk resp) = 0)%nat then (m, Go.Returns None)
      else
        match addRooms parse m (Chunk resp) with
        | (m, Go.Panics) => (m, Go.Panics)
        | (m, Go.Returns _) =>
            if decide (NextBatch resp = "") then (m, Go.Returns None)
            else (m, Go.Returns (Some (NextBatch resp)))
        end
  end.

(** [getPublicRooms]: the loop runs as long as the server hands out
    tokens; [fuel] bounds the number of rounds, [None] is "still running".
    A run that is over has returned or panicked. *)
Fixpoint getPublicRoomsFrom (fuel : nat) (fed : Fed) (parse : MatrixRoom.t -> MatrixRoom.t)
    (name since : string) (m : t) : option (t * Go.outcome unit) :=
  match fuel with
  | O => None
  | S fuel =>
      match roomsRound fed parse name since m with
      | (m, Go.Panics) => Some (m, Go.Panics)
      | (m, Go.Returns None) => Some (m, Go.Returns tt)
      | (m, Go.Returns (Some next)) => getPublicRoomsFrom fuel fed parse name next m
      end
  end.

Definition getPublicRooms (fuel : nat) (fed : Fed) (parse : MatrixRoom.t -> MatrixRoom.t)
    (name : string) (m : t) : option (t * Go.outcome unit) :=
  getPublicRoomsFrom fuel fed parse name "" m.

(** The body of the loop of [ParseRooms] for one server: a blocked server
    is removed, the rooms of any other are read.  The pool runs its jobs
    one after the other; a job that panics ends the run. *)
Definition parseEach (fuel : nat) (fed : Fed) (parse : MatrixRoom.t -> MatrixRoom.t)
    (run : option (t * Go.outcome unit)) (name : string) : option (t * Go.outcome unit) :=
  match run with
  | None => None
  | Some (m, Go.Panics) => Some (m, Go.Panics)
  | Some (m, Go.Returns _) =>
      if ByServer (block m) name then
        let '(d, _) := RemoveServer name (data m) in Some (setData d m, Go.Returns tt)
      else getPublicRooms fuel fed parse name m
  end.

(** [ParseRooms]: the rooms of all online servers, then the flush of the
    room batch; [fuel] bounds the rounds spent on one server.  After a
    panic in a job nothing more is done: the state is that of the panic. *)
Definition ParseRooms (fuel : nat) (fed : Fed) (parse : MatrixRoom.t -> MatrixRoom.t)
    (workers : Z) (m : t) : option (t * Go.outcome unit) :=
  if parsing m then Some (m, Go.Returns tt)
  else
    let m := setParsing true m in
    let servers := MapKeys (AllOnlineServers (data m)) in
    match foldl (parseEach fuel fed parse) (Some (m, Go.Returns tt)) servers with
    | None => None
    | Some (m, Go.Panics) => Some (m, Go.Panics)
    | Some (m, Go.Returns _) =>
        Some (setParsing false (setData (FlushRoomBatch (data m)) m), Go.Returns tt)
    end.

(** [EachRoom]: hand every stored room that is not blocked to [handler],
    then remove the blocked ones.  [H] is the state the handler works on. *)
Definition eachRoomStep {H : Type} (block : BlocklistService)
    (handler : string -> MatrixRoom.t -> H -> H)
    (acc : list string * H) (kv : string * MatrixRoom.t) : list string * H :=
  let '(toRemove, h) := acc in
  if MatrixRoom.IsBlocked kv.2 block then (toRemove ++ [kv.1], h)
  else (toRemove, handler kv.1 kv.2 h).

Definition EachRoom {H : Type} (handler : string -> MatrixRoom.t -> H -> H)
    (m : t) (h : H) : t * H :=
  if eachrooming m then (m, h)
  else
    let m := setEachrooming true m in
    let '(toRemove, h) :=
      foldl (eachRoomStep (block m) handler) ([], h) (Repository.EachRoom (data m)) in
    let m := setData (RemoveRooms toRemove (data m)) m in
    (setEachrooming false m, h).

(** [getMediaURLs]. *)
Definition matrixMediaFallbacks : list string := ["https://matrix-client.matrix.org"].

Definition mediaURL (serverURL serverName mediaID : string) : string :=
  serverURL +:+ "/_matrix/media/v3/download/" +:+ serverName +:+ "/" +:+ mediaID.

Definition getMediaURLs (serverName mediaID : string) (m : t) : list string :=
  let urls := (fun serverURL => mediaURL serverURL serverName mediaID) <$> matrixMediaFallbacks in
  let '(serverURL, err) := GetServer serverName (data m) in
  if bool_decide (err <> None) && bool_decide (serverURL <> "")
  then urls ++ [mediaURL serverURL serverName mediaID]
  else urls.

End Service.
Arguments t : clear implicits.

End Matrix.

(* --------------------------------------------------------------------- *)
(** ** bbolt: what a bucket accepts                                       *)
(* --------------------------------------------------------------------- *)

Module Bolt.

(** The part of the key-value store in use: a bucket maps keys to values
    or, at the top of the database and in [servers_rooms], names to nested
    buckets.  [None] is an error. *)
Definition MaxKeySize : Z := 32768.
Definition MaxValueSize : Z := 2 ^ 31 - 2.

(** [Bucket.Put]: the key has to be non-empty and not too large, the value
    not too large. *)
Definition Put (key value : string) (b : gmap string string) : option (gmap string string) :=
  if decide (key = "") then None
  else if decide (MaxKeySize < Z.of_nat (String.length key)) then None
  else if decide (MaxValueSize < Z.of_nat (String.length value)) then None
  else Some (<[key := value]> b).

(** [Bucket.Get]: the value, [nil] (here: the empty value) when missing. *)
Definition Get (key : string) (b : gmap string string) : string :=
  default "" (b !! key).

(** [CreateBucketIfNotExists] and [CreateBucket] for nested buckets of
    type [B]; a name has to be non-empty, and [CreateBucket] refuses a
    name that is in use. *)
Definition CreateBucketIfNotExists {B : Type} (empty : B) (name : string)
    (parent : gmap string B) : option (gmap string B) :=
  if decide (name = "") then None
  else match parent !! name with
       | Some _ => Some parent
       | None => Some (<[name := empty]> parent)
       end.

Definition CreateBucket {B : Type} (empty : B) (name : string)
    (parent : gmap string B) : option (gmap string B) :=
  if decide (name = "") then None
  else match parent !! name with
       | Some _ => None
       | None => Some (<[name := empty]> parent)
       end.

End Bolt.

(* --------------------------------------------------------------------- *)
(** ** repository/data: the store                                         *)
(* --------------------------------------------------------------------- *)

Module Data.
Import Model.

(** The flush function that [New] of [repository/data/data.go] gives to
    the room batch: every room is encoded and put into the [rooms] bucket
    under its id (the stored value is the room's JSON; the embedding keeps
    the room).  [marshal] is [json.Marshal] on a room, [None] its error:
    the declaration of the room with its JSON tags is not among the
    sources.  A room that cannot be encoded is logged and skipped, and so
    is a room that [Put] refuses: for its empty id, for an id longer than
    [MaxKeySize] or for an encoding longer than [MaxValueSize]. *)
Definition putRoom (marshal : MatrixRoom.t -> option string)
    (bucket : gmap string MatrixRoom.t) (room : MatrixRoom.t) : gmap string MatrixRoom.t :=
  match marshal room with
  | None => bucket
  | Some roomb =>
      match Bolt.Put (MatrixRoom.ID room) roomb ∅ with
      | None => bucket
      | Some _ => <[MatrixRoom.ID room := room]> bucket
      end
  end.

Definition putRooms (marshal : MatrixRoom.t -> option string)
    (rooms : list MatrixRoom.t) (bucket : gmap string MatrixRoom.t)
  : gmap string MatrixRoom.t :=
  foldl (putRoom marshal) bucket rooms.

(** Modelled from the spec: of the store, only [New] is among the sources.
    The buckets follow the persisted layout: [servers] (name to base URL),
    [servers_info] (name to server record), [rooms] (id to room record);
    [rb] is the room batch of [New]. *)
Record t := mk {
  serversBucket : gmap string string;
  serversInfoBucket : gmap string MatrixServer.t;
  roomsBucket : gmap string MatrixRoom.t;
  rb : Batch.t MatrixRoom.t (gmap string MatrixRoom.t)
}.

(** [New]: empty buckets and a room batch of 10000. *)
Definition New (marshal : MatrixRoom.t -> option string) : t :=
  {| serversBucket := ∅; serversInfoBucket := ∅; roomsBucket := ∅;
     rb := {| Batch.flushfunc := putRooms marshal; Batch.data := [];
              Batch.size := 10000 |} |}.

Definition AddServer (server : MatrixServer.t) (d : t) : t * error :=
  ({| serversBucket := <[MatrixServer.Name server := MatrixServer.URL server]> (serversBucket d);
      serversInfoBucket := <[MatrixServer.Name server := server]> (serversInfoBucket d);
      roomsBucket := roomsBucket d; rb := rb d |}, None).

Definition GetServer (name : string) (d : t) : string * error :=
  (default "" (serversBucket d !! name), None).

Definition RemoveServer (name : string) (d : t) : t * error :=
  ({| serversBucket := delete name (serversBucket d);
      serversInfoBucket := delete name (serversInfoBucket d);
      roomsBucket := roomsBucket d; rb := rb d |}, None).

Definition isOnline (d : t) (name : string) : bool :=
  match serversInfoBucket d !! name with
  | Some server => MatrixServer.Online server
  | None => false
  end.

Definition AllOnlineServers (d : t) : gmap string string :=
  filter (fun kv => isOnline d kv.1 = true) (serversBucket d).

Definition AddRoomBatch (room : MatrixRoom.t) (d : t) : t :=
  let '(rb', rooms') := Batch.Add room (rb d) (roomsBucket d) in
  {| serversBucket := serversBucket d; serversInfoBucket := serversInfoBucket d;
     roomsBucket := rooms'; rb := rb' |}.

Definition FlushRoomBatch (d : t) : t :=
  let '(rb', rooms') := Batch.Flush (rb d) (roomsBucket d) in
  {| serversBucket := serversBucket d; serversInfoBucket := serversInfoBucket d;
     roomsBucket := rooms'; rb := rb' |}.

Definition RemoveRooms (ids : list string) (d : t) : t :=
  {| serversBucket := serversBucket d; serversInfoBucket := serversInfoBucket d;
     roomsBucket := foldl (fun b id => delete id b) (roomsBucket d) ids; rb := rb d |}.

#[global] Instance repository : Repository.DataRepository t := {|
  Repository.AddServer := AddServer;
  Repository.GetServer := GetServer;
  Repository.AllServers := serversBucket;
  Repository.AllOnlineServers := AllOnlineServers;
  Repository.RemoveServer := RemoveServer;
  Repository.AddRoomBatch := AddRoomBatch;
  Repository.FlushRoomBatch := FlushRoomBatch;
  Repository.EachRoom := fun d => map_to_list (roomsBucket d);
  Repository.RemoveRooms := RemoveRooms
|}.

End Data.

(* --------------------------------------------------------------------- *)
(** ** services/index and services/facade: batched indexing               *)
(* --------------------------------------------------------------------- *)

Module Index.
Import Model.

(** The [Index] service with its collaborators: [rooms] is
    [cfg.Get().Batch.Rooms]; [index] is the index behind the
    [IndexRepository], modelled by the documents it holds (one entry per
    id); [batch] is the engine's batch, a map from id to entry whose
    [Size()] is the number of its operations.  The repository's calls
    succeed: every method below returns a nil error. *)
Record t := mk {
  rooms : Z;
  index : gmap string Entry.t;
  batch : gmap string Entry.t
}.

(** [NewIndex]: the batch is [index.NewBatch()]. *)
Definition NewIndex (rooms : Z) (index : gmap string Entry.t) : t :=
  {| rooms := rooms; index := index; batch := ∅ |}.

(** [EmptyIndex]: [index.Swap()] puts a new, empty index in place. *)
Definition EmptyIndex (i : t) : t :=
  {| rooms := rooms i; index := ∅; batch := batch i |}.

(** [IndexBatch]: [index.IndexBatch(batch)], then [batch.Reset()]. *)
Definition IndexBatch (i : t) : t :=
  {| rooms := rooms i; index := batch i ∪ index i; batch := ∅ |}.

(** [RoomsBatch]; [batch.Index] refuses the empty id with an error and
    leaves the batch as it is. *)
Definition RoomsBatch (roomID : string) (data : Entry.t) (i : t) : t :=
  if decide (Z.of_nat (size (batch i)) >= rooms i) then IndexBatch i
  else if decide (roomID = "") then i
  else {| rooms := rooms i; index := index i; batch := <[roomID := data]> (batch i) |}.

(** [Len]: the number of documents in the index. *)
Definition Len (i : t) : nat := size (index i).

End Index.

Module Facade.
Import Model.

Section Facade.
Context {D : Type} `{!Repository.DataRepository D}.

(** [DataFacade.Ingest]; [entry] is [room.Entry()].  The calls to the
    stats and cache services touch neither the store nor the index. *)
Definition Ingest (entry : MatrixRoom.t -> Entry.t) (m : Matrix.t D) (i : Index.t)
  : Matrix.t D * Index.t :=
  let '(m, i) :=
    Matrix.EachRoom (fun roomID room i => Index.RoomsBatch roomID (entry room) i) m i in
  (m, Index.IndexBatch i).

(** The rooms that the sweep of [EachRoom] hands to its handler. *)
Definition observed (m : Matrix.t D) : list (string * MatrixRoom.t) :=
  filter (fun kv => Model.MatrixRoom.IsBlocked kv.2 (Matrix.block m) = false)
         (Repository.EachRoom (Matrix.data m)).

End Facade.
End Facade.

(* --------------------------------------------------------------------- *)
(** ** services/cache: the HTTP cache middleware                          *)
(* --------------------------------------------------------------------- *)

Module Cache.
Import GoStrings Model.

(** The request as the middleware reads it: [Header] maps canonical
    header names to their first value; [Get] of a missing header is [""]. *)
Record Request := {
  Method : string;
  Path : string;
  Header : gmap string string
}.

Definition HeaderGet (h : gmap string string) (key : string) : string :=
  default "" (h !! key).

(** How the middleware leaves: it calls the next handler, or it answers
    itself with a status and no content. *)
Inductive Outcome :=
| Next
| NoContent (status : Z).

Definition StatusNotModified : Z := 304.

Definition noncacheablePaths : gset string :=
  {[ "/search"; "/_matrix/federation/v1/publicRooms" ]}.

(** The [Cache] service: [MaxAge] is [cfg.Get().Cache.MaxAge], [FinishedAt]
    is [stats.Get().Indexing.FinishedAt]. *)
Record t := {
  MaxAge : Z;
  FinishedAt : Time
}.

(** [Middleware]: from the request and the headers of the response so
    far to the headers it leaves and the way it leaves.  [format] is
    [Time.Format(http.TimeFormat)], the RFC 1123 date of HTTP. *)
Definition Middleware (format : Time -> string) (cache : t) (req : Request)
    (resp : gmap string string) : gmap string string * Outcome :=
  if decide (Method req <> "GET") then (resp, Next)
  else if decide (Path req ∈ noncacheablePaths) then
    (<["Cache-Control" := "no-cache"]> resp, Next)
  else
    let lastModified := format (FinishedAt cache) in
    let ifModifiedSince := HeaderGet (Header req) "If-Modified-Since" in
    if decide (lastModified = ifModifiedSince) then (resp, NoContent StatusNotModified)
    else
      let maxAge := Itoa (MaxAge cache) in
      let resp := <["Cache-Control" := "max-age=" +:+ maxAge +:+ ", public"]> resp in
      let resp := <["CDN-Tag" := "mutable"]> resp in
      let resp := <["Last-Modified" := lastModified]> resp in
      (resp, Next).

End Cache.

(* --------------------------------------------------------------------- *)
(** ** strconv.Atoi, and the store's buckets                              *)
(* --------------------------------------------------------------------- *)

Module Strconv.

(** The range of a Go [int] (64 bits). *)
Definition minInt : Z := - 2 ^ 63.
Definition maxInt : Z := 2 ^ 63 - 1.

(** [strconv.Atoi]: an optional sign, then at least one decimal digit and
    nothing else; [None] is the syntax error or the range error. *)
Definition Atoi (s : string) : option Z :=
  let d :=
    match s with
    | String a s' =>
        if Ascii.eqb a "+" then option_map Decimal.Pos (NilZero.uint_of_string s')
        else NilZero.int_of_string s
    | EmptyString => None
    end in
  match d with
  | Some d =>
      let n := Z.of_int d in
      if decide (minInt <= n <= maxInt) then Some n else None
  | None => None
  end.

End Strconv.

Module Buckets.

(** [buckets] and [initBuckets] of [repository/data]: inside one update
    transaction every bucket is created unless it exists; an error rolls
    the transaction back. *)
Definition buckets : list string := ["servers"; "servers_info"; "rooms"; "index"].

Definition initBuckets (db : gmap string (gmap string string))
  : gmap string (gmap string string) * Model.error :=
  let tx :=
    foldl (fun tx bucket =>
             match tx with
             | Some tx => Bolt.CreateBucketIfNotExists ∅ bucket tx
             | None => None
             end) (Some db) buckets in
  match tx with
  | Some db' => (db', None)
  | None => (db, Some "bucket name required")
  end.

End Buckets.

Module ServersRooms.
Import GoStrings.

(** [SetServersRoomsCount] on the bucket of the counts: every count is put
    under the name of its server, in decimal; the first error aborts and
    rolls back.  Go ranges over [data] in an unspecified order, here the
    order of [map_to_list]; with the roll back, the order only decides
    which error is reported. *)
Definition putCount (tx : option (gmap string string)) (kv : string * Z)
  : option (gmap string string) :=
  match tx with
  | Some bucket => Bolt.Put kv.1 (Itoa kv.2) bucket
  | None => None
  end.

Definition SetServersRoomsCount (data : gmap string Z) (bucket : gmap string string)
  : gmap string string * Model.error :=
  match foldl putCount (Some bucket) (map_to_list data) with
  | Some bucket' => (bucket', None)
  | None => (bucket, Some "put failed")
  end.

(** [GetServersRoomsCount]: every entry whose value is a number; the
    others are logged and skipped. *)
Definition GetServersRoomsCount (bucket : gmap string string) : gmap string Z :=
  omap Strconv.Atoi bucket.

(** The transaction of [SaveServersRooms]: the [servers_rooms] bucket with
    its nested buckets ([None]: it does not exist) and the [rooms] bucket. *)
Record Tx := mkTx {
  serversRooms : option (gmap string (gmap string string));
  rooms : gmap string string
}.

(** The loop over [roomIDs]: the room bodies are copied from [rooms]; the
    flag tells whether every [Put] succeeded. *)
Fixpoint putRoomIDs (rBucket : gmap string string) (roomIDs : list string)
    (subBucket : gmap string string) : gmap string string * bool :=
  match roomIDs with
  | [] => (subBucket, true)
  | roomID :: roomIDs =>
      match Bolt.Put roomID (Bolt.Get roomID rBucket) subBucket with
      | None => (subBucket, false)
      | Some subBucket => putRoomIDs rBucket roomIDs subBucket
      end
  end.

(** The loop over [data], given in the order in which Go ranges over the
    map.  A failure inside the loop is logged and ends the function with
    [return nil]: the transaction commits what was written so far. *)
Fixpoint saveEach (rBucket : gmap string string) (data : list (string * list string))
    (srBucket : gmap string (gmap string string)) : gmap string (gmap string string) :=
  match data with
  | [] => srBucket
  | (server, roomIDs) :: data =>
      if decide (length roomIDs = 0)%nat then saveEach rBucket data srBucket
      else
        match Bolt.CreateBucket ∅ server srBucket with
        | None => srBucket
        | Some _ =>
            let '(subBucket, ok) := putRoomIDs rBucket roomIDs ∅ in
            let srBucket := <[server := subBucket]> srBucket in
            if ok then saveEach rBucket data srBucket else srBucket
        end
  end.

(** [SaveServersRooms]: the bucket is deleted (an error when it does not
    exist: the transaction rolls back) and created again, then filled. *)
Definition SaveServersRooms (data : list (string * list string)) (tx : Tx)
  : Tx * Model.error :=
  match serversRooms tx with
  | None => (tx, Some "bucket not found")
  | Some _ =>
      ({| serversRooms := Some (saveEach (rooms tx) data ∅); rooms := rooms tx |}, None)
  end.

(** The nested bucket that a list of room ids stands for. *)
Definition subBucketOf (rBucket : gmap string string) (roomIDs : list string)
  : gmap string string :=
  list_to_map ((fun roomID => (roomID, Bolt.Get roomID rBucket)) <$> roomIDs).

Definition validKey (key : string) : Prop :=
  key <> "" /\ Z.of_nat (String.length key) <= Bolt.MaxKeySize.

Definition validValue (value : string) : Prop :=
  Z.of_nat (String.length value) <= Bolt.MaxValueSize.

(** The room ids that can be copied: valid keys, with bodies of a valid
    size in [rooms]. *)
Definition storable (rBucket : gmap string string) (roomIDs : list string) : Prop :=
  Forall (fun id => validKey id /\ validValue (Bolt.Get id rBucket)) roomIDs.

End ServersRooms.

(* --------------------------------------------------------------------- *)
(** ** controllers: the validator of the admin group                      *)
(* --------------------------------------------------------------------- *)

Module Admin.

Record Config := {
  Login : string;
  Password : string;
  IPs : list string
}.

(** The loop over [cfg.Admin.IPs]: [allowed] after the loop. *)
Fixpoint allowedIP (ips : list string) (realIP : string) : bool :=
  match ips with
  | [] => false
  | ip :: ips => if decide (ip = realIP) then true else allowedIP ips realIP
  end.

(** The function given to [middleware.BasicAuth] in [adminGroup]. *)
Definition validator (cfg : Config) (login password realIP : string) : bool :=
  if bool_decide (login <> Login cfg) || bool_decide (password <> Password cfg) then false
  else if decide (length (IPs cfg) = 0)%nat then true
  else if allowedIP (IPs cfg) realIP then true
  else false.

End Admin.

(* --------------------------------------------------------------------- *)
(** ** services/cache: the middleware for immutable resources             *)
(* --------------------------------------------------------------------- *)

Module CacheImmutable.
Import Cache.

(** [MaxCacheAge], to be used on immutable resources. *)
Definition MaxCacheAge : string := "31536000".

(** [MiddlewareImmutable]. *)
Definition MiddlewareImmutable (req : Request) (resp : gmap string string)
  : gmap string string * Outcome :=
  if decide (Method req <> "GET") then (resp, Next)
  else if decide (HeaderGet (Header req) "If-Modified-Since" <> "") then
    (resp, NoContent StatusNotModified)
  else
    let resp := delete "Last-Modified" resp in
    let resp := <["CDN-Tag" := "immutable"]> resp in
    let resp := <["Cache-Control" := "max-age=" +:+ MaxCacheAge +:+ ", immutable"]> resp in
    (resp, Next).

End CacheImmutable.

(* --------------------------------------------------------------------- *)
(** ** services/matrix: adding servers through the HTTP API               *)
(* --------------------------------------------------------------------- *)

Module MatrixAPI.
Import Model Repository.

Section API.
Context {D : Type} `{!DataRepository D}.

Definition StatusCreated : Z := 201.
Definition StatusAlreadyReported : Z := 208.
Definition StatusInternalServerError : Z := 500.

(** [AddServers]: the loop of [DiscoverServers] over the given names,
    without the latch. *)
Definition AddServers (fed : Matrix.Fed) (now : Time) (names : list string)
    (workers : Z) (m : Matrix.t D) : Matrix.t D :=
  foldl (Matrix.discoverEach fed now) m names.

(** [AddServer]: the HTTP status code for the reporter, and the state. *)
Definition AddServer (fed : Matrix.Fed) (now : Time) (name : string) (m : Matrix.t D)
  : Z * Matrix.t D :=
  if ByServer (Matrix.block m) name then (StatusAlreadyReported, m)
  else
    let '(existingURL, _) := GetServer name (Matrix.data m) in
    if decide (existingURL <> "") then (StatusAlreadyReported, m)
    else
      let '(m, err) := Matrix.discoverServer fed now name m in
      match err with
      | Some _ => (StatusInternalServerError, m)
      | None => (StatusCreated, m)
      end.

(** The pages that a run of [getPublicRooms] reads, for the statement
    about whole runs: [page since] is the answer to the request with that
    token.  The listed pages have rooms, and rooms only (no element of a
    chunk is [null]); the run ends after a page without [next_batch], or
    with a page that is absent or empty. *)
Fixpoint pageChain (page : string -> option matrixRoomsResp) (since : string)
    (pages : list matrixRoomsResp) : Prop :=
  match pages with
  | [] =>
      match page since with
      | None => True
      | Some resp => Chunk resp = []
      end
  | resp :: pages =>
      page since = Some resp /\ Chunk resp <> [] /\ Forall is_Some (Chunk resp)
      /\ (if decide (NextBatch resp = "") then pages = []
          else pageChain page (NextBatch resp) pages)
  end.

End API.
End MatrixAPI.

(* --------------------------------------------------------------------- *)
(** ** services/cache: the earlier revision of the middleware, and the CDN *)
(* --------------------------------------------------------------------- *)

Module CacheV1.
Import GoStrings Cache.

(** [Middleware] as the earlier revision of the cache service has it: the
    non-cacheable paths are exempt from the 304 answer and from
    [Last-Modified], and get the other headers. *)
Definition Middleware (format : Model.Time -> string) (cache : Cache.t) (req : Request)
    (resp : gmap string string) : gmap string string * Outcome :=
  if decide (Method req <> "GET") then (resp, Next)
  else
    let noncacheable := bool_decide (Path req ∈ noncacheablePaths) in
    let lastModified := format (FinishedAt cache) in
    let ifModifiedSince := HeaderGet (Header req) "If-Modified-Since" in
    if bool_decide (lastModified = ifModifiedSince) && negb noncacheable
    then (resp, NoContent StatusNotModified)
    else
      let maxAge := Itoa (MaxAge cache) in
      let resp := <["Cache-Control" := "max-age=" +:+ maxAge +:+ ", public"]> resp in
      let resp := <["CDN-Tag" := "mutable"]> resp in
      let resp := if negb noncacheable then <["Last-Modified" := lastModified]> resp
                  else resp in
      (resp, Next).

End CacheV1.

Module Bunny.

Definition bunnyIPv4List : string := "https://bunnycdn.com/api/system/edgeserverlist".
Definition bunnyIPv6List : string := "https://bunnycdn.com/api/system/edgeserverlist/IPv6".

Definition StatusOK : Z := 200.

(** What [utils.Get] answers for a list of addresses: [None] for a
    transport error, otherwise the status code and, when the body could be
    read and decoded, the decoded list. *)
Definition Net : Type := string -> option (Z * option (list string)).

(** [pullBunnyIPs]; the nil slice is the empty list. *)
Definition pullBunnyIPs (net : Net) (uri : string) : list string :=
  match net uri with
  | None => []
  | Some (status, body) =>
      if decide (status <> StatusOK) then []
      else match body with
           | None => []
           | Some ips => ips
           end
  end.

(** [initBunnyIPs], on the empty map that [NewCache] makes; [key] is
    [cfg.Get().Cache.Bunny.Key]. *)
Definition initBunnyIPs (key : string) (net : Net) (bunnyIPs : gset string) : gset string :=
  if decide (key = "") then bunnyIPs
  else foldl (fun ips ip => {[ ip ]} ∪ ips) bunnyIPs
         (pullBunnyIPs net bunnyIPv4List ++ pullBunnyIPs net bunnyIPv6List).

(** The [bunnyIPs] of [NewCache]. *)
Definition NewCache (key : string) (net : Net) : gset string := initBunnyIPs key net ∅.

(** [IsBunny]: is the IP a BunnyCDN IP? *)
Definition IsBunny (bunnyIPs : gset string) (ip : string) : bool :=
  bool_decide (ip ∈ bunnyIPs).

End Bunny.

(* ===================================================================== *)
(** * Part II: properties                                                 *)
(* ===================================================================== *)

(* --------------------------------------------------------------------- *)
(** ** The batcher                                                        *)
(* --------------------------------------------------------------------- *)

Section BatchFacts.
Context {T W : Type}.
Implicit Types (b : Batch.t T W) (w : W) (xs : list T).

Lemma AddAll_app xs ys b w :
  Batch.AddAll (xs ++ ys) b w =
  Batch.AddAll ys (Batch.AddAll xs b w).1 (Batch.AddAll xs b w).2.
Proof.
  revert b w. induction xs as [|x xs IH]; intros b w; simpl; [done|].
  destruct (Batch.Add x b w) as [b' w']. apply IH.
Qed.

(** Below the size, adding only appends. *)
Lemma AddAll_below xs b w :
  Z.of_nat (length (Batch.data b) + length xs) < Batch.size b ->
  Batch.AddAll xs b w =
  (Batch.mk (Batch.flushfunc b) (Batch.data b ++ xs) (Batch.size b), w).
Proof.
  revert b w. induction xs as [|x xs IH]; intros [f d n] w; simpl; intros Hlt.
  - by rewrite app_nil_r.
  - unfold Batch.Add; simpl. rewrite length_app; simpl.
    case_decide; [lia|].
    rewrite IH; simpl; [|rewrite length_app; simpl; lia].
    by rewrite <- app_assoc.
Qed.

(** The item that makes the batch reach its size flushes it. *)
Lemma AddAll_fill xs b w :
  xs <> [] ->
  Z.of_nat (length (Batch.data b) + length xs) = Batch.size b ->
  Batch.AddAll xs b w =
  (Batch.mk (Batch.flushfunc b) [] (Batch.size b),
   Batch.flushfunc b (Batch.data b ++ xs) w).
Proof.
  intros Hne. destruct (exists_last Hne) as (ys & y & ->). clear Hne.
  destruct b as [f d n]; simpl. rewrite length_app; simpl. intros Hn.
  rewrite AddAll_app, (AddAll_below ys) by (simpl; lia). simpl.
  unfold Batch.Add, Batch.Flush; simpl. rewrite !length_app; simpl.
  case_decide; [|lia]. by rewrite <- app_assoc.
Qed.

End BatchFacts.

(** What the flush function sees when [2n] items are added to a batcher
    of size [n >= 1] and [Flush] is called: the two halves, flushed by the
    [n]-th and the [2n]-th [Add], then the empty batch of the explicit
    call. *)
Lemma flushCalls_two_sizes {T : Type} (n : Z) (items : list T) :
  1 <= n -> Z.of_nat (length items) = 2 * n ->
  Batch.AddAll items (Batch.recorder n) [] =
    (Batch.recorder n, [take (Z.to_nat n) items; drop (Z.to_nat n) items]).
Proof.
  intros Hn Hlen.
  rewrite <- (take_drop (Z.to_nat n) items) at 1.
  assert (length (take (Z.to_nat n) items) = Z.to_nat n) as Ht
    by (rewrite length_take; lia).
  assert (length (drop (Z.to_nat n) items) = Z.to_nat n) as Hd
    by (rewrite length_drop; lia).
  rewrite AddAll_app.
  rewrite (AddAll_fill (take _ _)); simpl.
  - rewrite AddAll_fill; simpl; [done| |lia].
    intros E. rewrite E in Hd. simpl in Hd. lia.
  - intros E. rewrite E in Ht. simpl in Ht. lia.
  - lia.
Qed.

(** C6, as amended: for a batcher of size [n >= 1], adding exactly [2n]
    items hands every item to the flush function exactly once, in two
    non-empty flushes that are both caused by [Add] (by the [n]-th and by
    the [2n]-th item); the batch is then empty, and the explicit [Flush]
    call invokes the flush function a third time, with no items. *)
Theorem Batch_two_flushes_by_Add {T : Type} (n : Z) (items : list T) :
  1 <= n -> Z.of_nat (length items) = 2 * n ->
  (Batch.AddAll items (Batch.recorder n) []).2
    = [take (Z.to_nat n) items; drop (Z.to_nat n) items]
  /\ Batch.explicitFlushBatch n items = []
  /\ Batch.flushCalls n items
    = [take (Z.to_nat n) items; drop (Z.to_nat n) items; []]
  /\ filter (fun l => Batch.nonEmpty l = true) (Batch.flushCalls n items)
    = [take (Z.to_nat n) items; drop (Z.to_nat n) items]
  /\ concat (Batch.flushCalls n items) = items.
Proof.
  intros Hn Hlen.
  unfold Batch.explicitFlushBatch, Batch.flushCalls.
  rewrite (flushCalls_two_sizes n items Hn Hlen). simpl.
  assert (take (Z.to_nat n) items <> []) as Ht.
  { intros E. apply (f_equal length) in E. rewrite length_take in E. simpl in E. lia. }
  assert (drop (Z.to_nat n) items <> []) as Hd.
  { intros E. apply (f_equal length) in E. rewrite length_drop in E. simpl in E. lia. }
  repeat split.
  - unfold Batch.record; simpl.
    rewrite !filter_cons.
    destruct (take (Z.to_nat n) items) eqn:E1; [done|].
    destruct (drop (Z.to_nat n) items) eqn:E2; [done|].
    reflexivity.
  - unfold Batch.record; simpl. rewrite !app_nil_r. apply take_drop.
Qed.

Lemma Batch_two_flushes_by_Add_witness :
  1 <= 2 /\ Z.of_nat (length [10; 20; 30; 40]) = 2 * 2
  /\ Batch.flushCalls 2 [10; 20; 30; 40] = [[10; 20]; [30; 40]; []].
Proof.
  split; [lia|]. split; [reflexivity|].
  apply (Batch_two_flushes_by_Add 2 [10; 20; 30; 40]); [lia | reflexivity].
Defined.

(** C6, as stated, fails for [n = 1] and the items [1; 2]: the non-empty
    flushes are not "one flush, then the batch of the explicit [Flush]
    call".  That call hands over the empty batch. *)
Lemma Batch_explicit_Flush_not_second :
  ~ (exists first : list Z,
       filter (fun l => Batch.nonEmpty l = true) (Batch.flushCalls 1 [1; 2])
       = [first; Batch.explicitFlushBatch 1 [1; 2]]).
Proof. intros [first H]. vm_compute in H. discriminate H. Qed.

(* --------------------------------------------------------------------- *)
(** ** The cache middleware                                               *)
(* --------------------------------------------------------------------- *)

Lemma noncacheable_paths (p : string) :
  p ∈ Cache.noncacheablePaths <->
  p = "/search" \/ p = "/_matrix/federation/v1/publicRooms".
Proof. unfold Cache.noncacheablePaths. set_solver. Qed.

(** C8: for a GET request, a path among [/search] and
    [/_matrix/federation/v1/publicRooms] gets [Cache-Control: no-cache] and
    the next handler runs (never a 304); for any other path, an
    [If-Modified-Since] header equal to the formatted [FinishedAt] of
    indexing is answered with 304 and no content, and otherwise the
    response gets [Cache-Control: max-age=<configured>, public],
    [CDN-Tag: mutable] and [Last-Modified] equal to that [FinishedAt]. *)
Theorem Cache_Middleware_GET (format : Model.Time -> string) (cache : Cache.t)
    (req : Cache.Request) (resp : gmap string string) :
  Cache.Method req = "GET" ->
  let lastModified := format (Cache.FinishedAt cache) in
  let ifModifiedSince := Cache.HeaderGet (Cache.Header req) "If-Modified-Since" in
  let out := Cache.Middleware format cache req resp in
  (Cache.Path req = "/search" \/
   Cache.Path req = "/_matrix/federation/v1/publicRooms" ->
     out.1 !! "Cache-Control" = Some "no-cache" /\ out.2 = Cache.Next)
  /\ (Cache.Path req <> "/search" ->
      Cache.Path req <> "/_matrix/federation/v1/publicRooms" ->
      ifModifiedSince = lastModified ->
        out = (resp, Cache.NoContent 304))
  /\ (Cache.Path req <> "/search" ->
      Cache.Path req <> "/_matrix/federation/v1/publicRooms" ->
      ifModifiedSince <> lastModified ->
        out.2 = Cache.Next
        /\ out.1 !! "Cache-Control"
           = Some ("max-age=" +:+ GoStrings.Itoa (Cache.MaxAge cache) +:+ ", public")
        /\ out.1 !! "CDN-Tag" = Some "mutable"
        /\ out.1 !! "Last-Modified" = Some lastModified).
Proof.
  intros Hget; simpl. unfold Cache.Middleware. rewrite Hget.
  rewrite decide_False by (intros H; by apply H).
  split; [|split].
  - intros Hp. rewrite decide_True by (by apply noncacheable_paths).
    simpl. by rewrite lookup_insert_eq.
  - intros H1 H2 Heq.
    rewrite decide_False by (rewrite noncacheable_paths; tauto).
    by rewrite decide_True.
  - intros H1 H2 Hne.
    rewrite decide_False by (rewrite noncacheable_paths; tauto).
    rewrite decide_False by congruence. simpl.
    repeat split.
    + rewrite lookup_insert_ne by done. rewrite lookup_insert_ne by done.
      by rewrite lookup_insert_eq.
    + rewrite lookup_insert_ne by done. by rewrite lookup_insert_eq.
    + by rewrite lookup_insert_eq.
Qed.

Lemma Cache_Middleware_GET_witness :
  let format := fun t : Model.Time =>
    if decide (t = 7) then "Sat, 31 Oct 2026 07:00:00 GMT" else "" in
  let cache := {| Cache.MaxAge := 86400; Cache.FinishedAt := 7 |} in
  let req := {| Cache.Method := "GET"; Cache.Path := "/stats";
                Cache.Header := {[ "If-Modified-Since" := "Sat, 31 Oct 2026 07:00:00 GMT" ]} |} in
  Cache.Method req = "GET"
  /\ Cache.Middleware format cache req ∅ = (∅, Cache.NoContent 304).
Proof.
  simpl. split; [reflexivity|].
  eapply (Cache_Middleware_GET _ _ _ ∅); [reflexivity|done|done|reflexivity].
Defined.

(* --------------------------------------------------------------------- *)
(** ** Strings                                                            *)
(* --------------------------------------------------------------------- *)

Section StringFacts.
Import GoStrings.

Lemma append_nil_l (s : string) : "" +:+ s = s.
Proof. reflexivity. Qed.

Lemma append_cons (a : ascii) (s t : string) :
  String a s +:+ t = String a (s +:+ t).
Proof. reflexivity. Qed.

Lemma append_nil_r (s : string) : s +:+ "" = s.
Proof. induction s as [|a s IH]; [done|]. by rewrite append_cons, IH. Qed.

Lemma append_assoc (s t u : string) : (s +:+ t) +:+ u = s +:+ (t +:+ u).
Proof. induction s as [|a s IH]; [done|]. by rewrite !append_cons, IH. Qed.

Lemma length_append (s t : string) :
  String.length (s +:+ t) = (String.length s + String.length t)%nat.
Proof. induction s as [|a s IH]; [done|]. rewrite append_cons. simpl. by rewrite IH. Qed.

Lemma hasByte_append (c : ascii) (s t : string) :
  hasByte c (s +:+ t) = hasByte c s || hasByte c t.
Proof.
  induction s as [|a s IH]; [done|]. rewrite append_cons. simpl.
  by case_decide.
Qed.

(** [Contains] of a one-byte string is the occurrence of the byte. *)
Lemma Contains_byte (c : ascii) (s : string) :
  Contains s (String c "") = hasByte c s.
Proof.
  induction s as [|a s IH]; [done|]. simpl. rewrite IH.
  destruct (decide (c = a)) as [->|Hne].
  - by rewrite decide_True.
  - by rewrite decide_False by congruence.
Qed.

Lemma Split_nonempty (s : string) (sep : ascii) : Split s sep <> [].
Proof.
  induction s as [|a s IH]; simpl; [done|].
  case_decide; [done|]. by destruct (Split s sep).
Qed.

(** A string without the separator is its own single field. *)
Lemma Split_none (s : string) (sep : ascii) :
  hasByte sep s = false -> Split s sep = [s].
Proof.
  induction s as [|a s IH]; simpl; [done|].
  case_decide; [done|]. intros Hs. by rewrite IH.
Qed.

(** The first field ends at the first separator. *)
Lemma Split_append_sep (h r : string) (sep : ascii) :
  hasByte sep h = false ->
  Split (h +:+ String sep r) sep = h :: Split r sep.
Proof.
  induction h as [|a h IH]; simpl; intros Hs.
  - by rewrite decide_True.
  - destruct (decide (a = sep)) as [|Ha]; [done|]. by rewrite IH.
Qed.

(** A string with a separator has at least two fields. *)
Lemma Split_two (s : string) (sep : ascii) :
  hasByte sep s = true -> (2 <= length (Split s sep))%nat.
Proof.
  induction s as [|a s IH]; simpl; [done|].
  case_decide as Ha.
  - intros _. simpl. pose proof (Split_nonempty s sep).
    destruct (Split s sep); [done|simpl; lia].
  - intros Hs. specialize (IH Hs). destruct (Split s sep); simpl in *; lia.
Qed.

End StringFacts.

(* --------------------------------------------------------------------- *)
(** ** Endpoint resolution                                                *)
(* --------------------------------------------------------------------- *)

Section ResolverFacts.
Import GoStrings Resolver.

(** A cached name is answered without leaving the process. *)
Lemma getURL_hit (net : Net) (name url : string) (discover : bool) (s : Server) :
  surlsCache s !! name = Some url ->
  getURL net name discover s = (Go.Returns url, s).
Proof. intros H. unfold getURL, bind, cacheGet, ret. by rewrite H. Qed.

(** The decoding panics on the null document served with status 200, and
    on nothing else. *)
Lemma serverWellKnown_Panics (resp : option (Z * WellKnownBody)) :
  serverWellKnown resp = Go.Panics <-> resp = Some (200, NullDocument).
Proof.
  unfold serverWellKnown. destruct resp as [[status body]|]; [|done].
  destruct (decide (status = 200)) as [->|Hs].
  - destruct body as [| |host]; [done|done|].
    split; [|done]. by repeat case_decide.
  - split; [done|]. intros [= -> _]. done.
Qed.

(** On a miss, [getURL] is the resolution of the spec, followed by
    [dcrURL]: the result is cached and the discovery hook is fired;
    unless the well-known document is the null document. *)
Lemma getURL_miss (net : Net) (name : string) (discover : bool) (s : Server) :
  surlsCache s !! name = None ->
  wellKnownServer net name <> Some (200, NullDocument) ->
  getURL net name discover s =
  (Go.Returns (resolutionOrder net name).1,
   {| surlsCache := <[name := (resolutionOrder net name).1]> (surlsCache s);
      discoverFunc := discoverFunc s;
      trace := trace s ++ (resolutionOrder net name).2
               ++ (if discoverFunc s && discover then [EvDiscover name] else []) |}).
Proof.
  intros H Hnull. destruct s as [cache hook tr]; simpl in *.
  unfold getURL, resolutionOrder, bind, cacheGet, parseServerWellKnown, parseSRV,
    dcrURL, bind, emit, ret, lift, cacheAdd, hasDiscoverFunc; simpl. rewrite H.
  destruct (serverWellKnown (wellKnownServer net name)) as [[hp|]|] eqn:Hwk; simpl.
  - destruct hook, discover; simpl; by rewrite <- ?app_assoc, ?app_nil_r.
  - destruct (firstSRV (lookupSRV net "matrix-fed" name)); simpl.
    { destruct hook, discover; simpl; by rewrite <- ?app_assoc, ?app_nil_r. }
    destruct (firstSRV (lookupSRV net "matrix" name)); simpl;
      destruct hook, discover; simpl; by rewrite <- ?app_assoc, ?app_nil_r.
  - by apply serverWellKnown_Panics in Hwk.
Qed.

(** On a miss with the null document, [getURL] panics in
    [parseServerWellKnown]: nothing is cached and no SRV lookup is made. *)
Lemma getURL_null (net : Net) (name : string) (discover : bool) (s : Server) :
  surlsCache s !! name = None ->
  wellKnownServer net name = Some (200, NullDocument) ->
  getURL net name discover s
  = (Go.Panics,
     {| surlsCache := surlsCache s; discoverFunc := discoverFunc s;
        trace := trace s ++ [EvWellKnown name] |}).
Proof.
  intros H Hnull.
  unfold getURL, bind, cacheGet, parseServerWellKnown, bind, emit, lift. simpl.
  by rewrite H, Hnull.
Qed.



End ResolverFacts.

(** C3 fails on the code: when the well-known request of a server name
    that is not in the URL cache is answered with status 200 and the body
    [null], [getURL] panics in [parseServerWellKnown] (the read of
    [wellknown.Host] goes through a nil pointer).  No URL is returned,
    nothing is cached and no SRV lookup is made, although the document
    gives no [m.server] and the resolution in the order of the claim goes
    on to the SRV records: to the first record of [_matrix-fed._tcp] when
    there is one. *)
Theorem getURL_panics_on_null_document (net : Resolver.Net) (name : string)
    (discover : bool) (s : Resolver.Server) :
  Resolver.surlsCache s !! name = None ->
  Resolver.wellKnownServer net name = Some (200, Resolver.NullDocument) ->
  let out := Resolver.getURL net name discover s in
  out.1 = Go.Panics
  /\ Resolver.surlsCache out.2 = Resolver.surlsCache s
  /\ Resolver.trace out.2 = Resolver.trace s ++ [Resolver.EvWellKnown name]
  /\ (forall target port rest,
        Resolver.lookupSRV net "matrix-fed" name = Some ((target, port) :: rest) ->
        (Resolver.resolutionOrder net name).1
        = "https://" +:+ GoStrings.Trim target "." +:+ ":" +:+ GoStrings.Itoa port).
Proof.
  intros Hmiss Hnull. simpl. rewrite (getURL_null _ _ _ _ Hmiss Hnull). simpl.
  split; [done|]. split; [done|]. split; [done|].
  intros target port rest Hsrv. unfold Resolver.resolutionOrder.
  by rewrite Hnull, Hsrv.
Qed.

Lemma getURL_panics_on_null_document_witness :
  let net := {| Resolver.wellKnownServer := fun _ => Some (200, Resolver.NullDocument);
                Resolver.lookupSRV := fun _ _ => Some [("fed.example.org.", 8448)] |} in
  let s := Resolver.mkServer ∅ false [] in
  (Resolver.surlsCache s !! "example.org" = None
   /\ Resolver.wellKnownServer net "example.org" = Some (200, Resolver.NullDocument))
  /\ (Resolver.getURL net "example.org" false s).1 = Go.Panics
  /\ (Resolver.resolutionOrder net "example.org").1 = "https://fed.example.org:8448".
Proof.
  intros net s. split; [split; reflexivity|].
  destruct (getURL_panics_on_null_document net "example.org" false s eq_refl eq_refl)
    as (Hout & _ & _ & Hspec).
  split; [exact Hout|].
  exact (Hspec "fed.example.org." 8448 [] eq_refl).
Defined.

(** C7 fails on the code, by the defect of C3: when the well-known
    request is answered with status 200 and the body [null], the first
    call of [getURL] panics before [dcrURL] is reached, so nothing is
    stored in the URL cache; a second call with the same name fetches the
    well-known document again and panics again.  No URL is returned, and
    the resolution is started twice. *)
Theorem getURL_twice_on_null_document (net : Resolver.Net) (name : string)
    (discover discover' : bool) (s : Resolver.Server) :
  Resolver.surlsCache s !! name = None ->
  Resolver.wellKnownServer net name = Some (200, Resolver.NullDocument) ->
  let first := Resolver.getURL net name discover s in
  let second := Resolver.getURL net name discover' first.2 in
  first.1 = Go.Panics /\ second.1 = Go.Panics
  /\ Resolver.surlsCache second.2 !! name = None
  /\ exists evs, Resolver.trace second.2 = Resolver.trace s ++ evs
                 /\ Resolver.resolutions evs = 2%nat.
Proof.
  intros Hmiss Hnull. simpl.
  rewrite (getURL_null net _ _ _ Hmiss Hnull). simpl.
  rewrite (getURL_null net name discover'
             (Resolver.mkServer (Resolver.surlsCache s) (Resolver.discoverFunc s)
                (Resolver.trace s ++ [Resolver.EvWellKnown name])) Hmiss Hnull). simpl.
  split; [done|]. split; [done|]. split; [done|].
  exists [Resolver.EvWellKnown name; Resolver.EvWellKnown name].
  split; [by rewrite <- app_assoc|done].
Qed.

Lemma getURL_twice_on_null_document_witness :
  let net := {| Resolver.wellKnownServer := fun _ => Some (200, Resolver.NullDocument);
                Resolver.lookupSRV := fun _ _ => None |} in
  let s := Resolver.mkServer ∅ false [] in
  (Resolver.surlsCache s !! "example.org" = None
   /\ Resolver.wellKnownServer net "example.org" = Some (200, Resolver.NullDocument))
  /\ (Resolver.getURL net "example.org" false
        (Resolver.getURL net "example.org" false s).2).1 = Go.Panics.
Proof.
  intros net s. split; [split; reflexivity|].
  exact (proj1 (proj2 (getURL_twice_on_null_document net "example.org" false false s
                         eq_refl eq_refl))).
Defined.

(* --------------------------------------------------------------------- *)
(** ** The crawler                                                        *)
(* --------------------------------------------------------------------- *)

Section MatrixFacts.
Import Model Repository Matrix.
Context {D : Type} `{!DataRepository D}.
Implicit Types (m : Matrix.t D) (fed : Fed).

Lemma setData_data m : setData (data m) m = m.
Proof. by destruct m. Qed.

(** The probe does not depend on what was sent before. *)
Lemma validate_send fed name r m :
  (validateDiscoveredServer fed name (send r m)).1
  = (validateDiscoveredServer fed name m).1.
Proof.
  unfold validateDiscoveredServer, getPublicRoomsPage, publicRoomsEndpoint; simpl.
  destruct (call fed _) as [[status body]|]; [|done]. by case_decide.
Qed.

Lemma validate_state fed name m :
  (validateDiscoveredServer fed name m).2
  = send (ReqGet (publicRoomsEndpoint fed m name "1" "")) m.
Proof.
  unfold validateDiscoveredServer, getPublicRoomsPage.
  destruct (call fed _) as [[status body]|]; [|done]. by case_decide.
Qed.

(** The probe succeeds exactly when the [limit=1] request is answered with
    status 200 and a body that decodes. *)
Lemma validate_ok fed name m :
  (validateDiscoveredServer fed name m).1 = true <->
  exists body, call fed (publicRoomsEndpoint fed m name "1" "") = Some (200, Some body).
Proof.
  unfold validateDiscoveredServer, getPublicRoomsPage.
  destruct (call fed _) as [[status body]|]; simpl;
    [|split; [done|intros [b Hb]; congruence]].
  destruct (decide (status = 200)) as [->|Hs].
  - rewrite decide_False by (intros Hne; by apply Hne). simpl.
    rewrite bool_decide_eq_true. split.
    + intros [b ->]. eauto.
    + intros [b [= ->]]. eauto.
  - rewrite decide_True by done. simpl. split; [done|].
    intros [b [= -> _]]. done.
Qed.

(** The rooms of a page that are kept: those with an id that are not
    blocked; each is parsed and enqueued, in the order of the page. *)
Lemma foldl_addRoom parse m (chunk : list MatrixRoom.t) :
  foldl (addRoom parse) m chunk =
  setData
    (foldl (fun d room => AddRoomBatch (parse room) d) (data m)
       (filter (fun room => MatrixRoom.ID room <> ""
                            /\ MatrixRoom.IsBlocked room (block m) = false) chunk))
    m.
Proof.
  revert m. induction chunk as [|room chunk IH]; intros m; simpl.
  - by rewrite setData_data.
  - rewrite filter_cons. unfold addRoom at 2.
    destruct (decide (MatrixRoom.ID room = "")) as [He|He].
    + rewrite bool_decide_eq_true_2 by done. simpl.
      rewrite decide_False by tauto. apply IH.
    + rewrite bool_decide_eq_false_2 by done. simpl.
      destruct (MatrixRoom.IsBlocked room (block m)) eqn:Hb.
      * rewrite decide_False by (intros [_ ?]; done). apply IH.
      * rewrite decide_True by done. rewrite IH. simpl. by destruct m.
Qed.

(** A chunk of rooms is worked off to its end. *)
Lemma addRooms_is_Some parse m (chunk : list (option MatrixRoom.t)) :
  Forall is_Some chunk ->
  addRooms parse m chunk = (foldl (addRoom parse) m (omap id chunk), Go.Returns tt).
Proof.
  intros Hall. revert m. induction Hall as [|x chunk [room ->] _ IH]; intros m; [done|].
  simpl. apply IH.
Qed.

(** At a null element the loop panics, with the rooms before it done. *)
Lemma addRooms_null parse m (before : list MatrixRoom.t) (rest : list (option MatrixRoom.t)) :
  addRooms parse m ((Some <$> before) ++ None :: rest)
  = (foldl (addRoom parse) m before, Go.Panics).
Proof.
  revert m. induction before as [|room before IH]; intros m; [done|].
  simpl. apply IH.
Qed.

Lemma getPublicRoomsPage_state fed name limit since m :
  (getPublicRoomsPage fed name limit since m).2
  = send (ReqGet (publicRoomsEndpoint fed m name limit since)) m.
Proof.
  unfold getPublicRoomsPage.
  destruct (call fed _) as [[status body]|]; [|done]. by case_decide.
Qed.

(** The step of the loop of [DiscoverServers] for one name. *)
Lemma discoverEach_cases fed (now : Time) m (name : string) :
  let out := discoverEach fed now m name in
  let ok := (validateDiscoveredServer fed name m).1 in
  let server := MatrixServer.mk name "" ok false now
                  (default noContacts (contacts fed name)) in
  block out = block m
  /\ (ByServer (block m) name = true ->
      out = setData (RemoveServer name (data m)).1 m)
  /\ (ByServer (block m) name = false -> (GetServer name (data m)).1 <> "" ->
      out = m)
  /\ (ByServer (block m) name = false -> (GetServer name (data m)).1 = "" ->
      data out = (AddServer server (data m)).1
      /\ sent out
         = sent m ++ [ReqContacts name; ReqGet (publicRoomsEndpoint fed m name "1" "")]
      /\ (MatrixServer.Online server = false <->
          ~ exists body, call fed (publicRoomsEndpoint fed m name "1" "")
                         = Some (200, Some body))).
Proof.
  simpl. unfold discoverEach, discoverServer.
  destruct (ByServer (block m) name) eqn:Hb.
  { destruct (RemoveServer name (data m)) as [d err]. simpl. by repeat split. }
  destruct (GetServer name (data m)) as [url err]; simpl.
  destruct (decide (url <> "")) as [Hu|Hu]; simpl.
  { by repeat split. }
  assert (url = "") as -> by (by destruct (decide (url = ""))).
  unfold getServerContacts.
  pose proof (validate_send fed name (ReqContacts name) m) as Hv.
  pose proof (validate_state fed name (send (ReqContacts name) m)) as Hs.
  destruct (validateDiscoveredServer fed name (send (ReqContacts name) m)) as [ok m'].
  simpl in Hv, Hs. subst m'. rewrite <- Hv.
  unfold MatrixServer.setOnline, MatrixServer.setContacts.
  split; [|split; [done|split; [done|]]].
  { destruct (contacts fed name) as [c|], ok; simpl;
      match goal with
      | |- context [AddServer ?s ?d] => by destruct (AddServer s d)
      end. }
  intros _ _. split; [|split].
  - destruct (contacts fed name) as [c|], ok; simpl;
      match goal with
      | |- context [AddServer ?s ?d] => by destruct (AddServer s d)
      end.
  - destruct (contacts fed name) as [c|], ok; simpl;
      match goal with
      | |- context [AddServer ?s ?d] =>
          destruct (AddServer s d); simpl; by rewrite <- app_assoc
      end.
  - rewrite Hv. rewrite <- validate_ok.
    destruct (validateDiscoveredServer fed name m).1; split; done.
Qed.

End MatrixFacts.

(** C5: unless a discovery is in progress, [DiscoverServers] works off
    the names of the stored servers and of the seeds, each once, and
    releases its latch.  For every name it processes, on the state the
    names before it have left: a blocked name is removed from the store
    and no request is sent for it; a name for which the store holds a
    non-empty URL leaves everything as it is; for any other name the
    contacts are asked for, the server is probed with a [limit=1] request
    for its public rooms, and a server record is stored whatever the probe
    says, with [Online] false exactly when the probe fails.  The blocklist
    is the same throughout. *)
Theorem DiscoverServers_each_name {D : Type} `{!Repository.DataRepository D}
    (fed : Matrix.Fed) (now : Model.Time) (workers : Z) (m : Matrix.t D) :
  Matrix.discovering m = false ->
  let names := Matrix.MergeSlices (Matrix.MapKeys (Repository.AllServers (Matrix.data m)))
                 (Matrix.servers m) in
  let after := fun processed : list string =>
    foldl (Matrix.discoverEach fed now) (Matrix.setDiscovering true m) processed in
  Matrix.DiscoverServers fed now workers m = Matrix.setDiscovering false (after names)
  /\ NoDup names
  /\ forall processed name rest, names = processed ++ name :: rest ->
       let before := after processed in
       let out := after (processed ++ [name]) in
       let ok := (Matrix.validateDiscoveredServer fed name before).1 in
       let server := Model.MatrixServer.mk name "" ok false now
                       (default Model.noContacts (Matrix.contacts fed name)) in
       Matrix.block before = Matrix.block m
       /\ (Model.ByServer (Matrix.block m) name = true ->
           out = Matrix.setData (Repository.RemoveServer name (Matrix.data before)).1 before)
       /\ (Model.ByServer (Matrix.block m) name = false ->
           (Repository.GetServer name (Matrix.data before)).1 <> "" ->
           out = before)
       /\ (Model.ByServer (Matrix.block m) name = false ->
           (Repository.GetServer name (Matrix.data before)).1 = "" ->
           Matrix.data out = (Repository.AddServer server (Matrix.data before)).1
           /\ Matrix.sent out
              = Matrix.sent before
                ++ [Matrix.ReqContacts name;
                    Matrix.ReqGet (Matrix.publicRoomsEndpoint fed before name "1" "")]
           /\ (Model.MatrixServer.Online server = false <->
               ~ exists body,
                   Matrix.call fed (Matrix.publicRoomsEndpoint fed before name "1" "")
                   = Some (200, Some body))).
Proof.
  intros Hd names after.
  split; [unfold Matrix.DiscoverServers; by rewrite Hd|].
  split; [apply NoDup_remove_dups|].
  intros processed name rest _ before out ok server.
  assert (forall l, Matrix.block (after l) = Matrix.block m) as Hblock.
  { induction l as [|x l IH] using rev_ind; [done|].
    unfold after. rewrite foldl_app. simpl.
    destruct (discoverEach_cases fed now
                (foldl (Matrix.discoverEach fed now) (Matrix.setDiscovering true m) l) x)
      as (-> & _). apply IH. }
  split; [apply Hblock|].
  assert (out = Matrix.discoverEach fed now before name) as ->.
  { unfold out, after. by rewrite foldl_app. }
  rewrite <- (Hblock processed). fold before.
  by destruct (discoverEach_cases fed now before name) as (_ & ? & ? & ?).
Qed.

Lemma DiscoverServers_each_name_witness :
  let fed := {| Matrix.call := fun _ => None; Matrix.contacts := fun _ => None;
                Matrix.QueryEscape := fun s => s |} in
  let block := {| Model.ByID := fun _ => false; Model.ByServer := fun _ => false |} in
  let m := Matrix.mk ["a.example"] "https://proxy.example" "" false false false
             block (Data.New (fun _ => Some "{}")) [] in
  Matrix.discovering m = false
  /\ Data.serversInfoBucket (Matrix.data (Matrix.DiscoverServers fed 5 1 m)) !! "a.example"
     = Some (Model.MatrixServer.mk "a.example" "" false false 5 Model.noContacts).
Proof.
  intros fed block m. split; [reflexivity|].
  rewrite (proj1 (DiscoverServers_each_name fed 5 1 m eq_refl)).
  vm_compute. reflexivity.
Defined.

(** C4 fails on the code: when a page of public rooms has a [null] among
    the elements of its chunk, [getPublicRooms] panics on it (the read of
    [room.ID] goes through a nil pointer).  The rooms before the [null]
    have been enqueued or dropped as the claim says; the elements after it
    are neither parsed and enqueued nor dropped, and no further page is
    asked for, whatever [next_batch] is. *)
Theorem getPublicRooms_panics_on_null_element {D : Type} `{!Repository.DataRepository D}
    (fed : Matrix.Fed) (parse : Model.MatrixRoom.t -> Model.MatrixRoom.t)
    (name : string) (m : Matrix.t D) (resp : Model.matrixRoomsResp)
    (before : list Model.MatrixRoom.t) (rest : list (option Model.MatrixRoom.t))
    (fuel : nat) :
  (Matrix.getPublicRoomsPage fed name "10000" "" m).1 = Some resp ->
  Model.Chunk resp = (Some <$> before) ++ None :: rest ->
  exists m',
    Matrix.getPublicRooms (S fuel) fed parse name m = Some (m', Go.Panics)
    /\ Matrix.data m'
       = foldl (fun d room => Repository.AddRoomBatch (parse room) d) (Matrix.data m)
           (filter (fun room => Model.MatrixRoom.ID room <> ""
                                /\ Model.MatrixRoom.IsBlocked room (Matrix.block m) = false)
              before)
    /\ Matrix.sent m'
       = Matrix.sent m ++ [Matrix.ReqGet (Matrix.publicRoomsEndpoint fed m name "10000" "")].
Proof.
  intros Hpage Hchunk.
  unfold Matrix.getPublicRooms. cbn [Matrix.getPublicRoomsFrom].
  unfold Matrix.roomsRound.
  pose proof (getPublicRoomsPage_state fed name "10000" "" m) as Hstate.
  destruct (Matrix.getPublicRoomsPage fed name "10000" "" m) as [r m1].
  simpl in Hpage, Hstate. subst r m1.
  rewrite decide_False by (rewrite Hchunk, length_app; simpl; lia).
  rewrite Hchunk, addRooms_null.
  eexists. split; [reflexivity|].
  rewrite foldl_addRoom. simpl. done.
Qed.

Lemma getPublicRooms_panics_on_null_element_witness :
  let room := fun id : string =>
    Model.MatrixRoom.mk id "" "" "" "" "" "a.example" 1 "" in
  let page := {| Model.Chunk := [Some (room "!r1"); None; Some (room "!r3")];
                 Model.NextBatch := "t"; Model.Total := 3 |} in
  let fed := {| Matrix.call := fun _ => Some (200, Some page);
                Matrix.contacts := fun _ => None;
                Matrix.QueryEscape := fun s => s |} in
  let block := {| Model.ByID := fun _ => false; Model.ByServer := fun _ => false |} in
  let m := Matrix.mk [] "https://proxy.example" "" false false false block
             (Data.New (fun _ => Some "{}")) [] in
  ((Matrix.getPublicRoomsPage fed "a.example" "10000" "" m).1 = Some page
   /\ Model.Chunk page = (Some <$> [room "!r1"]) ++ None :: [Some (room "!r3")])
  /\ exists m',
       Matrix.getPublicRooms 2 fed (fun r => r) "a.example" m = Some (m', Go.Panics)
       /\ Batch.data (Data.rb (Matrix.data m')) = [room "!r1"].
Proof.
  intros room page fed block m. split; [split; reflexivity|].
  destruct (getPublicRooms_panics_on_null_element fed (fun r => r) "a.example" m page
              [room "!r1"] [Some (room "!r3")] 1 eq_refl eq_refl)
    as (m' & Hrun & Hdata & _).
  exists m'. split; [exact Hrun|]. rewrite Hdata. reflexivity.
Defined.

(* --------------------------------------------------------------------- *)
(** ** Media URLs                                                         *)
(* --------------------------------------------------------------------- *)

(** Whenever the store answers [GetServer] without error, the URL list
    consists of the fallback media servers alone. *)
Lemma getMediaURLs_without_error {D : Type} `{!Repository.DataRepository D}
    (serverName mediaID : string) (m : Matrix.t D) :
  (Repository.GetServer serverName (Matrix.data m)).2 = None ->
  Matrix.getMediaURLs serverName mediaID m
  = [Matrix.mediaURL "https://matrix-client.matrix.org" serverName mediaID].
Proof.
  intros He. unfold Matrix.getMediaURLs.
  destruct (Repository.GetServer serverName (Matrix.data m)) as [url err].
  simpl in He. subst err. reflexivity.
Qed.

(** C9 fails on the code: with a store that holds the base URL
    [https://matrix.example.org] for [example.org] (and answers without
    error), the URL list for the media [abc] of [example.org] is the URL at
    the fallback media server alone; the URL at the server's own base is
    not in it. *)
Theorem getMediaURLs_omits_resolved_base :
  let server := Model.MatrixServer.mk "example.org" "https://matrix.example.org"
                  true true 0 Model.noContacts in
  let block := {| Model.ByID := fun _ => false; Model.ByServer := fun _ => false |} in
  let m := Matrix.mk [] "" "" false false false block (Data.AddServer server (Data.New (fun _ => Some "{}"))).1 [] in
  Repository.GetServer "example.org" (Matrix.data m) = ("https://matrix.example.org", None)
  /\ Matrix.getMediaURLs "example.org" "abc" m
     = ["https://matrix-client.matrix.org/_matrix/media/v3/download/example.org/abc"]
  /\ Matrix.mediaURL "https://matrix.example.org" "example.org" "abc"
     ∉ Matrix.getMediaURLs "example.org" "abc" m.
Proof.
  intros server block m. split; [reflexivity|].
  rewrite (getMediaURLs_without_error "example.org" "abc" m) by reflexivity.
  split; [reflexivity|].
  intros Hin. apply list_elem_of_singleton in Hin. discriminate Hin.
Qed.

(* --------------------------------------------------------------------- *)
(** ** Ingestion                                                          *)
(* --------------------------------------------------------------------- *)

(** C1 fails on the code: with a batch threshold of 2 and three stored
    rooms, none of them blocked, the sweep of [EachRoom] hands three rooms
    to [RoomsBatch], and after [EmptyIndex] and [Ingest] the index holds
    two.  The call of [RoomsBatch] that finds the batch full flushes it
    and returns without adding the room it was called with. *)
Theorem Ingest_loses_the_room_that_flushes (entry : Model.MatrixRoom.t -> Model.Entry.t) :
  let room := fun id : string =>
    Model.MatrixRoom.mk id "" "" "" "" "" "a.example" 1 "" in
  let store := Repository.FlushRoomBatch
                 (foldl (fun d r => Repository.AddRoomBatch r d) (Data.New (fun _ => Some "{}"))
                    [room "!r1"; room "!r2"; room "!r3"]) in
  let block := {| Model.ByID := fun _ => false; Model.ByServer := fun _ => false |} in
  let m := Matrix.mk [] "" "" false false false block store [] in
  let i := Index.EmptyIndex (Index.NewIndex 2 ∅) in
  length (Facade.observed m) = 3%nat
  /\ Index.Len (Facade.Ingest entry m i).2 = 2%nat.
Proof. intros room store block m i. split; vm_compute; reflexivity. Qed.

(* --------------------------------------------------------------------- *)
(** ** Replacement, joining and trimming                                  *)
(* --------------------------------------------------------------------- *)

Section ReplaceFacts.
Import GoStrings.

Lemma HasPrefix_append (p rest : string) : HasPrefix (p +:+ rest) p = true.
Proof. induction p as [|a p IH]; simpl; [done|]. by rewrite decide_True. Qed.

Lemma HasPrefix_inv (s p : string) :
  HasPrefix s p = true -> exists rest, s = p +:+ rest.
Proof.
  revert s. induction p as [|a p IH]; intros s; simpl.
  - intros _. by exists s.
  - destruct s as [|b s]; [done|]. case_decide as Hab; [|done]. subst b.
    intros Hp. destruct (IH _ Hp) as [rest ->]. by exists rest.
Qed.

(** A prefix without the byte [c] of a string that goes on with [c] after
    [p] lies within [p]. *)
Lemma HasPrefix_before (p q old : string) (c : ascii) :
  hasByte c old = false ->
  HasPrefix (p +:+ String c q) old = HasPrefix p old.
Proof.
  revert p. induction old as [|a old IH]; intros p; simpl; [done|].
  case_decide as Hac; [done|]. intros Hold.
  destruct p as [|b p]; simpl.
  - by rewrite decide_False.
  - case_decide; [by apply IH|done].
Qed.

(** An occurrence of [old] carries every byte of [old]. *)
Lemma HasPrefix_hasByte (s old : string) (c : ascii) :
  HasPrefix s old = true -> hasByte c old = true -> hasByte c s = true.
Proof.
  intros Hp Hc. destruct (HasPrefix_inv _ _ Hp) as [rest ->].
  by rewrite hasByte_append, Hc.
Qed.

Lemma Contains_hasByte (s old : string) (c : ascii) :
  Contains s old = true -> hasByte c old = true -> hasByte c s = true.
Proof.
  intros Hs Hc. induction s as [|a s IH]; simpl in Hs.
  - rewrite orb_false_r in Hs. by apply (HasPrefix_hasByte _ _ _ Hs).
  - apply orb_true_iff in Hs as [Hp|Hs].
    + by apply (HasPrefix_hasByte _ _ _ Hp).
    + simpl. case_decide; [done|]. by apply IH.
Qed.

Lemma Contains_self (s : string) : Contains s s = true.
Proof.
  destruct s as [|a s]; [done|].
  change (Contains (String a s) (String a s))
    with (HasPrefix (String a s) (String a s) || Contains s (String a s)).
  rewrite <- (append_nil_r (String a s)) at 1.
  by rewrite HasPrefix_append.
Qed.

(** Passing over the rest of an occurrence. *)
Lemma replaceFrom_skip (old new u v : string) :
  replaceFrom old new (u +:+ v) (String.length u) = replaceFrom old new v 0.
Proof. induction u as [|a u IH]; simpl; [done|]. apply IH. Qed.

Lemma replaceFrom_match (old new rest : string) :
  old <> "" ->
  replaceFrom old new (old +:+ rest) 0 = new +:+ replaceFrom old new rest 0.
Proof.
  destruct old as [|a old]; [done|]. intros _.
  change (String a old +:+ rest) with (String a (old +:+ rest)).
  cbn [replaceFrom].
  change (String a (old +:+ rest)) with (String a old +:+ rest).
  rewrite HasPrefix_append. simpl. by rewrite replaceFrom_skip.
Qed.

Lemma replaceFrom_step (old new s : string) (a : ascii) :
  HasPrefix (String a s) old = false ->
  replaceFrom old new (String a s) 0 = String a (replaceFrom old new s 0).
Proof. intros Hp. cbn [replaceFrom]. by rewrite Hp. Qed.

(** Without an occurrence nothing is replaced. *)
Lemma replaceFrom_absent (old new s : string) :
  old <> "" -> Contains s old = false -> replaceFrom old new s 0 = s.
Proof.
  intros Hne. induction s as [|a s IH]; [done|].
  change (Contains (String a s) old)
    with (HasPrefix (String a s) old || Contains s old).
  intros Hc. apply orb_false_iff in Hc as [Hp Hc].
  rewrite replaceFrom_step by done. by rewrite IH.
Qed.

(** Deleting a string from itself leaves nothing. *)
Lemma replaceFrom_self (old : string) :
  old <> "" -> replaceFrom old "" old 0 = "".
Proof.
  intros Hne. rewrite <- (append_nil_r old) at 2.
  by rewrite replaceFrom_match.
Qed.

(** Deleting the occurrences of a string without the byte [c] works on
    the two sides of a [c] independently. *)
Lemma replaceFrom_sep (old p q : string) (c : ascii) :
  old <> "" -> hasByte c old = false ->
  replaceFrom old "" (p +:+ String c q) 0
  = replaceFrom old "" p 0 +:+ String c (replaceFrom old "" q 0).
Proof.
  intros Hne Hc.
  remember (String.length p) as n eqn:Hn.
  revert p Hn. induction n as [n IH] using lt_wf_ind. intros p Hn.
  destruct (HasPrefix p old) eqn:Hp.
  - destruct (HasPrefix_inv _ _ Hp) as [p' ->].
    rewrite append_assoc, !replaceFrom_match by done. simpl.
    apply (IH (String.length p')); [|done].
    rewrite Hn, length_append. destruct old; [done|simpl; lia].
  - destruct p as [|a p].
    + assert (HasPrefix (String c q) old = false) as Hq.
      { destruct old as [|b old]; [done|]. simpl in *.
        by destruct (decide (b = c)). }
      simpl. by rewrite Hq.
    + change (String a p +:+ String c q) with (String a (p +:+ String c q)).
      rewrite !replaceFrom_step.
      * rewrite append_cons. f_equal.
        apply (IH (String.length p)); [simpl in Hn; lia|done].
      * done.
      * change (String a (p +:+ String c q)) with (String a p +:+ String c q).
        by rewrite HasPrefix_before.
Qed.

(** [ReplaceAll] with a non-empty [old] and an empty [new]. *)
Lemma ReplaceAll_delete (s old : string) :
  old <> "" -> ReplaceAll s old "" = replaceFrom old "" s 0.
Proof. by destruct old. Qed.

(** Deleting such a string from a joined list deletes it from each
    element. *)
Lemma ReplaceAll_Join (old : string) (c : ascii) (ps : list string) :
  old <> "" -> hasByte c old = false ->
  ReplaceAll (Join ps (String c "")) old ""
  = Join ((fun p => ReplaceAll p old "") <$> ps) (String c "").
Proof.
  intros Hne Hc. induction ps as [|p ps IH]; [by destruct old|].
  destruct ps as [|p' ps]; [done|].
  change (Join (p :: p' :: ps) (String c ""))
    with (p +:+ String c (Join (p' :: ps) (String c ""))).
  rewrite ReplaceAll_delete, replaceFrom_sep by done.
  rewrite <- !ReplaceAll_delete by done. rewrite IH. done.
Qed.

(** Splitting and joining again gives the string back. *)
Lemma Join_Split (s : string) (c : ascii) :
  Join (Split s c) (String c "") = s.
Proof.
  induction s as [|a s IH]; [done|]. simpl.
  pose proof (Split_nonempty s c) as Hne.
  case_decide as Hac.
  - subst a. destruct (Split s c) as [|w ws]; [done|].
    change (Join ("" :: w :: ws) (String c ""))
      with (String c (Join (w :: ws) (String c ""))).
    by rewrite IH.
  - destruct (Split s c) as [|w ws]; [done|].
    destruct ws as [|w' ws]; simpl in *; by rewrite <- IH.
Qed.

(** The fields of a split do not contain the separator. *)
Lemma Split_fields (s : string) (c : ascii) :
  Forall (fun p => hasByte c p = false) (Split s c).
Proof.
  induction s as [|a s IH]; simpl; [by repeat constructor|].
  case_decide as Hac; [by constructor|].
  destruct (Split s c) as [|w ws]; [by repeat constructor; simpl; rewrite decide_False|].
  inversion_clear IH. constructor; [|done]. simpl. by rewrite decide_False.
Qed.

(** Trimming does not touch the bytes that are not trimmed. *)
Lemma hasByte_TrimLeftFunc (f : ascii -> bool) (c : ascii) (s : string) :
  f c = false -> hasByte c (TrimLeftFunc f s) = hasByte c s.
Proof.
  intros Hf. induction s as [|a s IH]; simpl; [done|].
  destruct (f a) eqn:Hfa; [|done].
  rewrite IH. case_decide; [congruence|done].
Qed.

Lemma hasByte_TrimRightFunc (f : ascii -> bool) (c : ascii) (s : string) :
  f c = false -> hasByte c (TrimRightFunc f s) = hasByte c s.
Proof.
  intros Hf. induction s as [|a s IH]; simpl; [done|].
  destruct (TrimRightFunc f s) as [|b r]; simpl in *.
  - rewrite <- IH. destruct (f a) eqn:Hfa; simpl.
    + case_decide; [congruence|done].
    + by case_decide.
  - rewrite <- IH. done.
Qed.

(** Induction on the length of a string. *)
Lemma string_length_ind (P : string -> Prop) :
  (forall s, (forall s', (String.length s' < String.length s)%nat -> P s') -> P s) ->
  forall s, P s.
Proof.
  intros Hind s. remember (String.length s) as n eqn:Hn. revert s Hn.
  induction n as [n IH] using lt_wf_ind. intros s ->.
  apply Hind. intros s' Hlt. by apply (IH (String.length s')).
Qed.

Lemma revString_append (s t : string) :
  revString (s +:+ t) = revString t +:+ revString s.
Proof.
  induction s as [|a s IH]; simpl.
  - by rewrite append_nil_r.
  - by rewrite IH, append_assoc.
Qed.

Lemma revString_involutive (s : string) : revString (revString s) = s.
Proof.
  induction s as [|a s IH]; simpl; [done|].
  by rewrite revString_append, IH.
Qed.

Lemma hasByte_revString (c : ascii) (s : string) :
  hasByte c (revString s) = hasByte c s.
Proof.
  induction s as [|a s IH]; simpl; [done|].
  rewrite hasByte_append, IH. simpl.
  case_decide; [by rewrite orb_true_r|by rewrite orb_false_r].
Qed.

Section TrimRunes.
Variable one : ascii -> bool.
Variable two : ascii -> ascii -> bool.
Variable three : ascii -> ascii -> ascii -> bool.

(** What is left is the end of the string. *)
Lemma trimLeftRunes_suffix (s : string) :
  exists p, s = p +:+ trimLeftRunes one two three s.
Proof.
  induction s as [s IH] using string_length_ind.
  destruct s as [|a s1]; [by exists ""|]. simpl.
  destruct (one a).
  { destruct (IH s1) as [p Hp]; [simpl; lia|].
    exists (String a p). rewrite append_cons. by f_equal. }
  destruct s1 as [|b s2]; [by exists ""|].
  destruct (two a b).
  { destruct (IH s2) as [p Hp]; [simpl; lia|].
    exists (String a (String b p)). rewrite !append_cons. by do 2 f_equal. }
  destruct s2 as [|c s3]; [by exists ""|].
  destruct (three a b c); [|by exists ""].
  destruct (IH s3) as [p Hp]; [simpl; lia|].
  exists (String a (String b (String c p))). rewrite !append_cons. by do 3 f_equal.
Qed.

Lemma trimLeftRunes_length (s : string) :
  (String.length (trimLeftRunes one two three s) <= String.length s)%nat.
Proof.
  destruct (trimLeftRunes_suffix s) as [p Hp].
  rewrite Hp at 2. rewrite length_append. lia.
Qed.

Lemma trimLeftRunes_absent (d : ascii) (s : string) :
  hasByte d s = false -> hasByte d (trimLeftRunes one two three s) = false.
Proof.
  destruct (trimLeftRunes_suffix s) as [p Hp].
  rewrite Hp at 1. rewrite hasByte_append. by intros [_ ?]%orb_false_iff.
Qed.

Lemma trimLeftRunes_idem (s : string) :
  trimLeftRunes one two three (trimLeftRunes one two three s)
  = trimLeftRunes one two three s.
Proof.
  induction s as [s IH] using string_length_ind.
  destruct s as [|a s1]; [done|]. simpl.
  destruct (one a) eqn:Ha; [apply IH; simpl; lia|].
  destruct s1 as [|b s2]; [by simpl; rewrite Ha|].
  destruct (two a b) eqn:Hab; [apply IH; simpl; lia|].
  destruct s2 as [|c s3]; [by simpl; rewrite Ha, Hab|].
  destruct (three a b c) eqn:Habc; [apply IH; simpl; lia|].
  simpl. by rewrite Ha, Hab, Habc.
Qed.

(** A string that starts with no such rune has no prefix that does. *)
Lemma trimLeftRunes_fixed_prefix (u v : string) :
  trimLeftRunes one two three (u +:+ v) = u +:+ v ->
  trimLeftRunes one two three u = u.
Proof.
  assert (forall s r : string,
            (String.length s < String.length r)%nat ->
            trimLeftRunes one two three s <> r) as Hshort.
  { intros s r Hlt Heq. pose proof (trimLeftRunes_length s). rewrite Heq in *. lia. }
  destruct u as [|a u1]; [done|]. rewrite append_cons. simpl.
  destruct (one a) eqn:Ha.
  { intros Heq. by apply Hshort in Heq; [|simpl; lia]. }
  destruct u1 as [|b u2]; [done|]. rewrite append_cons.
  destruct (two a b) eqn:Hab.
  { intros Heq. by apply Hshort in Heq; [|simpl; lia]. }
  destruct u2 as [|c u3]; [done|]. rewrite append_cons.
  destruct (three a b c) eqn:Habc; [|done].
  intros Heq. by apply Hshort in Heq; [|simpl; lia].
Qed.

(** A byte that belongs to none of the runes stays where it is. *)
Lemma hasByte_trimLeftRunes (c : ascii) (s : string) :
  one c = false ->
  (forall a b, two a b = true -> a <> c /\ b <> c) ->
  (forall a b d, three a b d = true -> a <> c /\ b <> c /\ d <> c) ->
  hasByte c (trimLeftRunes one two three s) = hasByte c s.
Proof.
  intros H1 H2 H3.
  induction s as [s IH] using string_length_ind.
  destruct s as [|a s1]; [done|]. cbn [trimLeftRunes].
  destruct (one a) eqn:Ha.
  { rewrite IH by (simpl; lia). simpl.
    rewrite decide_False; [done|]. intros ->. congruence. }
  destruct s1 as [|b s2]; [done|].
  destruct (two a b) eqn:Hab.
  { rewrite IH by (simpl; lia). destruct (H2 a b Hab) as [? ?].
    simpl. by rewrite !decide_False. }
  destruct s2 as [|d s3]; [done|].
  destruct (three a b d) eqn:Habc; [|done].
  rewrite IH by (simpl; lia). destruct (H3 a b d Habc) as (? & ? & ?).
  simpl. by rewrite !decide_False.
Qed.

End TrimRunes.

Lemma isSpace2_bytes (a b : ascii) :
  isSpace2 a b = true -> (128 <= N_of_ascii a)%N /\ (128 <= N_of_ascii b)%N.
Proof.
  unfold isSpace2. rewrite andb_true_iff, orb_true_iff, !N.eqb_eq. lia.
Qed.

Lemma isSpace3_bytes (a b c : ascii) :
  isSpace3 a b c = true ->
  (128 <= N_of_ascii a)%N /\ (128 <= N_of_ascii b)%N /\ (128 <= N_of_ascii c)%N.
Proof.
  unfold isSpace3.
  rewrite !orb_true_iff, !andb_true_iff, !orb_true_iff, !andb_true_iff,
    !N.eqb_eq, !N.leb_le. lia.
Qed.

(** Trimming the white space does not touch the ASCII bytes that are not
    white space. *)
Lemma hasByte_TrimSpace (c : ascii) (s : string) :
  isSpace c = false -> (N_of_ascii c < 128)%N ->
  hasByte c (TrimSpace s) = hasByte c s.
Proof.
  intros Hc Hascii. unfold TrimSpace, TrimRightSpace, TrimLeftSpace.
  rewrite hasByte_revString, hasByte_trimLeftRunes, hasByte_revString,
    hasByte_trimLeftRunes; try done.
  - intros a b Hab. apply isSpace2_bytes in Hab. split; intros ->; lia.
  - intros a b d Habd. apply isSpace3_bytes in Habd. repeat split; intros ->; lia.
  - intros b a Hab. apply isSpace2_bytes in Hab. split; intros ->; lia.
  - intros d b a Habd. apply isSpace3_bytes in Habd. repeat split; intros ->; lia.
Qed.

(** Trimming the white space adds no byte. *)
Lemma hasByte_TrimSpace_absent (d : ascii) (s : string) :
  hasByte d s = false -> hasByte d (TrimSpace s) = false.
Proof.
  intros Hs. unfold TrimSpace, TrimRightSpace, TrimLeftSpace.
  rewrite hasByte_revString. apply trimLeftRunes_absent.
  rewrite hasByte_revString. by apply trimLeftRunes_absent.
Qed.

(** What [TrimSpace] returns is trimmed. *)
Lemma TrimSpace_idem (s : string) : TrimSpace (TrimSpace s) = TrimSpace s.
Proof.
  unfold TrimSpace.
  assert (TrimLeftSpace (TrimRightSpace (TrimLeftSpace s))
          = TrimRightSpace (TrimLeftSpace s)) as ->.
  { unfold TrimRightSpace.
    destruct (trimLeftRunes_suffix isSpace (fun b a => isSpace2 a b)
                (fun c b a => isSpace3 a b c) (revString (TrimLeftSpace s))) as [p Hp].
    apply (trimLeftRunes_fixed_prefix _ _ _ _ (revString p)).
    rewrite <- revString_append, <- Hp, revString_involutive.
    apply trimLeftRunes_idem. }
  unfold TrimRightSpace. by rewrite revString_involutive, trimLeftRunes_idem.
Qed.

End ReplaceFacts.

(* --------------------------------------------------------------------- *)
(** ** Query pre-processing                                               *)
(* --------------------------------------------------------------------- *)

Section SearchFacts.
Import GoStrings Search.

Lemma fmap_ext_in {A B : Type} (f g : A -> B) (l : list A) :
  (forall x, x ∈ l -> f x = g x) -> f <$> l = g <$> l.
Proof.
  induction l as [|x l IH]; intros Hfg; [done|].
  rewrite !fmap_cons. f_equal.
  - apply Hfg. by left.
  - apply IH. intros y Hy. apply Hfg. by right.
Qed.

(** The test [len(pair) < 2] of [matchFields] never succeeds: a part with
    a colon has at least two segments. *)
Lemma colon_part_two_segments (part : string) :
  Contains part ":" = true ->
  (2 <= length (Split (TrimSpace part) ":"))%nat.
Proof.
  rewrite Contains_byte. intros Hc. apply Split_two.
  rewrite hasByte_TrimSpace; [done|done|reflexivity].
Qed.

Lemma matchPart_colon (toRemove : list string) (fields : gmap string string)
    (part : string) :
  Contains part ":" = true ->
  matchPart (toRemove, fields) part
  = (toRemove ++ [part], <[(fieldOf part).1 := (fieldOf part).2]> fields).
Proof.
  intros Hc. unfold matchPart, fieldOf. rewrite Hc. simpl.
  pose proof (colon_part_two_segments part Hc).
  rewrite decide_False by lia. done.
Qed.

Lemma matchPart_plain (toRemove : list string) (fields : gmap string string)
    (part : string) :
  Contains part ":" = false ->
  matchPart (toRemove, fields) part = (toRemove, fields).
Proof. intros Hc. unfold matchPart. by rewrite Hc. Qed.

(** The loop over the parts: the parts with a colon are collected in
    order, and each of them sets its field. *)
Lemma foldl_matchPart (parts toRemove : list string) (fields : gmap string string) :
  foldl matchPart (toRemove, fields) parts
  = (toRemove ++ filter (fun p => Contains p ":" = true) parts,
     foldl (fun fs t => <[(fieldOf t).1 := (fieldOf t).2]> fs) fields
       (filter (fun p => Contains p ":" = true) parts)).
Proof.
  revert toRemove fields.
  induction parts as [|p parts IH]; intros toRemove fields; cbn [foldl].
  - by rewrite filter_nil, app_nil_r.
  - rewrite filter_cons. destruct (Contains p ":") eqn:Hc.
    + rewrite matchPart_colon, IH by done. rewrite decide_True by done.
      simpl. by rewrite <- app_assoc.
    + rewrite matchPart_plain, IH by done. by rewrite decide_False.
Qed.

(** Deleting tokens from a joined list of parts, one token after the
    other, when every token leaves every part alone or is that part. *)
Lemma foldl_delete_tokens (ts ps : list string) :
  (forall t, t ∈ ts -> t <> "" /\ hasByte " " t = false) ->
  (forall p t, p ∈ ps -> t ∈ ts -> p = "" \/ p = t \/ Contains p t = false) ->
  foldl (fun q remove => ReplaceAll q remove "") (Join ps " ") ts
  = Join ((fun p => if decide (p ∈ ts) then "" else p) <$> ps) " ".
Proof.
  revert ps. induction ts as [|t ts IH]; intros ps Hts Hps; simpl.
  - f_equal. rewrite (fmap_ext_in _ id); [by rewrite list_fmap_id|].
    by intros p _.
  - destruct (Hts t) as [Hne Hsp]; [by left|].
    rewrite ReplaceAll_Join by done.
    assert (forall p, p ∈ ps ->
              ReplaceAll p t "" = if decide (p = t) then "" else p) as Hone.
    { intros p Hp. rewrite ReplaceAll_delete by done.
      destruct (Hps p t Hp) as [->|[->|Hc]]; [by left| | |].
      - by destruct (decide ("" = t)).
      - rewrite decide_True by done. by apply replaceFrom_self.
      - rewrite replaceFrom_absent by done.
        case_decide as Hpt; [|done]. subst p.
        by rewrite Contains_self in Hc. }
    rewrite IH.
    + f_equal. rewrite <- list_fmap_compose. apply fmap_ext_in.
      intros p Hp. simpl. rewrite (Hone p Hp).
      destruct (decide (p = t)) as [->|Hpt].
      * rewrite (decide_True (P := t ∈ t :: ts)) by (by left).
        by case_decide.
      * destruct (decide (p ∈ ts)) as [Hin|Hin].
        -- rewrite decide_True; [done|by right].
        -- rewrite decide_False; [done|].
           intros Hin'. apply elem_of_cons in Hin' as [?|?]; done.
    + intros t' Ht'. apply Hts. by right.
    + intros p' t' Hp' Ht'.
      apply list_elem_of_fmap in Hp' as (p & -> & Hp).
      rewrite (Hone p Hp). case_decide; [by left|].
      apply Hps; [done|by right].
Qed.

(** A byte other than the separator that occurs in a joined list occurs
    in one of its elements. *)
Lemma hasByte_Join (c sep : ascii) (ps : list string) :
  c <> sep -> hasByte c (Join ps (String sep "")) = true ->
  exists p, p ∈ ps /\ hasByte c p = true.
Proof.
  intros Hne. induction ps as [|p ps IH]; [done|].
  destruct ps as [|p' ps].
  - simpl. intros Hp. exists p. split; [by left|done].
  - change (Join (p :: p' :: ps) (String sep ""))
      with (p +:+ String sep (Join (p' :: ps) (String sep ""))).
    rewrite hasByte_append. simpl. rewrite decide_False by congruence.
    intros Hor. apply orb_true_iff in Hor as [Hp|Hrest].
    + exists p. split; [by left|done].
    + destruct (IH Hrest) as (x & Hx & Hcx). exists x. split; [by right|done].
Qed.

(** A query with a colon has a part with a colon. *)
Lemma colon_query_has_token (query : string) :
  Contains query ":" = true ->
  filter (fun p => Contains p ":" = true) (Split query " ") <> [].
Proof.
  rewrite Contains_byte. intros Hc.
  rewrite <- (Join_Split query " ") in Hc.
  apply hasByte_Join in Hc as (p & Hp & Hcp); [|done].
  intros Hnil.
  assert (p ∈ filter (fun p => Contains p ":" = true) (Split query " ")) as Hin.
  { apply list_elem_of_filter. by rewrite Contains_byte. }
  rewrite Hnil in Hin. by apply elem_of_nil in Hin.
Qed.

Lemma foldl_insert_nonempty (ts : list string) (fields : gmap string string) :
  fields <> ∅ ->
  foldl (fun fs t => <[(fieldOf t).1 := (fieldOf t).2]> fs) fields ts <> ∅.
Proof.
  revert fields. induction ts as [|t ts IH]; intros fields Hne; [done|].
  simpl. apply IH. apply insert_non_empty.
Qed.

(** What [matchFields] returns for a query with a colon. *)
Lemma matchFields_colon (query : string) :
  Contains query ":" = true ->
  matchFields query
  = (TrimSpace
       (foldl (fun q remove => ReplaceAll q remove "") query
          (filter (fun p => Contains p ":" = true) (Split query " "))),
     foldl (fun fs t => <[(fieldOf t).1 := (fieldOf t).2]> fs) ∅
       (filter (fun p => Contains p ":" = true) (Split query " "))).
Proof.
  intros Hc. unfold matchFields. rewrite Hc. simpl.
  by rewrite foldl_matchPart.
Qed.

(** Fields are extracted exactly from the queries with a colon. *)
Lemma matchFields_fields_nonempty (query : string) :
  (matchFields query).2 <> ∅ <-> Contains query ":" = true.
Proof.
  destruct (Contains query ":") eqn:Hc.
  - split; [done|]. intros _. rewrite matchFields_colon by done. simpl.
    pose proof (colon_query_has_token query Hc) as Hne.
    destruct (filter _ (Split query " ")) as [|t ts]; [done|].
    simpl. apply foldl_insert_nonempty, insert_non_empty.
  - unfold matchFields. rewrite Hc. simpl. split; done.
Qed.

End SearchFacts.

(** C10, as amended: in the pre-processing of a query with a colon, every
    space-separated token that contains a colon is put on the removal list
    and contributes a field entry (the test [len(pair) < 2] never
    succeeds): the first colon-separated segment of the trimmed token,
    trimmed, is mapped to the second, trimmed; later tokens overwrite
    earlier ones with the same key.  So [k:] maps [k] to the empty string,
    [k:v:w] maps [k] to [v], and a bare [:] maps the empty key to the empty
    string.  The tokens are deleted from the query by substring
    replacement, in order; when no token with a colon occurs inside another
    one, the residual is the trimmed query with every such token deleted. *)
Theorem matchFields_colon_tokens (query : string) :
  GoStrings.Contains query ":" = true ->
  let parts := GoStrings.Split query " " in
  let tokens := filter (fun p => GoStrings.Contains p ":" = true) parts in
  (forall t, t ∈ tokens ->
     (2 <= length (GoStrings.Split (GoStrings.TrimSpace t) ":"))%nat)
  /\ (Search.matchFields query).2
     = foldl (fun fs t => <[(Search.fieldOf t).1 := (Search.fieldOf t).2]> fs) ∅ tokens
  /\ (forall t k v,
        GoStrings.hasByte ":" k = false -> GoStrings.hasByte ":" v = false ->
        GoStrings.TrimSpace t = k +:+ ":" +:+ v
        \/ (exists w, GoStrings.TrimSpace t = k +:+ ":" +:+ v +:+ ":" +:+ w) ->
        Search.fieldOf t = (GoStrings.TrimSpace k, GoStrings.TrimSpace v))
  /\ ((forall t t', t ∈ tokens -> t' ∈ tokens ->
         GoStrings.Contains t' t = true -> t = t') ->
      (Search.matchFields query).1
      = GoStrings.TrimSpace (GoStrings.Join (Search.withoutColon <$> parts) " ")).
Proof.
  intros Hc parts tokens. rewrite (matchFields_colon query Hc). simpl.
  fold parts. fold tokens.
  split; [|split; [done|split]].
  - intros t Ht. apply list_elem_of_filter in Ht as [Ht _].
    by apply colon_part_two_segments.
  - intros t k v Hk Hv Ht. unfold Search.fieldOf.
    destruct Ht as [->|[w ->]].
    + change (":" +:+ v) with (String ":" v).
      by rewrite (Split_append_sep _ _ _ Hk), (Split_none _ _ Hv).
    + change (":" +:+ v +:+ ":" +:+ w) with (String ":" (v +:+ String ":" w)).
      by rewrite (Split_append_sep _ _ _ Hk), (Split_append_sep _ _ _ Hv).
  - intros Hsub. f_equal.
    transitivity (foldl (fun q remove => GoStrings.ReplaceAll q remove "")
                    (GoStrings.Join parts " ") tokens).
    { unfold parts. by rewrite Join_Split. }
    rewrite foldl_delete_tokens.
    + f_equal. apply fmap_ext_in. intros p Hp. unfold Search.withoutColon.
      destruct (GoStrings.Contains p ":") eqn:Hcp.
      * rewrite decide_True; [done|]. by apply list_elem_of_filter.
      * rewrite decide_False; [done|].
        intros Hin. apply list_elem_of_filter in Hin as [Hin _]. congruence.
    + intros t Ht. apply list_elem_of_filter in Ht as [Hct Ht]. split.
      * intros ->. done.
      * pose proof (Split_fields query " ") as Hall.
        rewrite Forall_forall in Hall. by apply Hall.
    + intros p t Hp Ht.
      destruct (GoStrings.Contains p t) eqn:Hpt; [|by right; right].
      right; left. symmetry. apply Hsub; [done| |done].
      apply list_elem_of_filter. split; [|done].
      apply list_elem_of_filter in Ht as [Hct _].
      rewrite Contains_byte in *. by apply (Contains_hasByte p t).
Qed.

Lemma matchFields_colon_tokens_witness :
  GoStrings.Contains "foss language:EN" ":" = true
  /\ (Search.matchFields "foss language:EN").1 = "foss".
Proof.
  split; [reflexivity|].
  destruct (matchFields_colon_tokens "foss language:EN" eq_refl) as (_ & _ & _ & H).
  rewrite H; [reflexivity|].
  intros t t' Ht Ht' _. vm_compute in Ht, Ht'.
  apply list_elem_of_singleton in Ht, Ht'. congruence.
Defined.

(** C10, as stated, fails: the bare token [:] does contribute a field (the
    empty key, mapped to the empty string), and a token with a colon can
    survive in the residual: in ["a:b a:b:c"] the deletion of [a:b] breaks
    the token [a:b:c], whose rest [:c] stays. *)
Lemma matchFields_bare_colon_and_residue :
  (Search.matchFields ":").2 <> ∅
  /\ (Search.matchFields ":").2 !! "" = Some ""
  /\ (Search.matchFields "a:b a:b:c").1 = ":c".
Proof.
  split; [|split; reflexivity].
  intros H. apply (f_equal (fun m : gmap string string => m !! "")) in H.
  vm_compute in H. discriminate H.
Qed.

(** White space beyond ASCII is trimmed like the ASCII one: a no-break
    space (U+00A0, the bytes C2 A0) after a token, or at the end of the
    query, is not part of the field value or of the text searched for. *)
Example matchFields_no_break_space :
  let nbsp := String "194"%char (String "160"%char "") in
  (Search.matchFields ("k:v" +:+ nbsp)).2 !! "k" = Some "v"
  /\ Search.Search ("a " +:+ nbsp) = Search.Search "a".
Proof. split; vm_compute; reflexivity. Qed.

(* --------------------------------------------------------------------- *)
(** ** Query construction                                                 *)
(* --------------------------------------------------------------------- *)

Lemma boostOf_other (field : string) :
  field ∉ ["language"; "name"; "server"; "alias"] -> Search.boostOf field = 0.
Proof.
  intros Hf. unfold Search.boostOf, Search.SearchFieldsBoost.
  rewrite !lookup_insert_ne, lookup_empty; [done|..];
    intros <-; apply Hf; repeat constructor.
Qed.

Lemma newMatchQuery_eq (m field : string) (phrase : bool) :
  Search.newMatchQuery m field phrase
  = {| Search.Match := m; Search.Phrase := phrase; Search.FieldVal := field;
       Search.BoostVal := Some (Search.boostOf field) |}.
Proof. by destruct phrase. Qed.

(** C2, as amended: for every input string the query is a disjunction
    that starts with four match sub-queries on the trimmed residual text,
    over the fields name, alias, topic and server, in this order; they are
    phrase matches when the trimmed residual contains a space and plain
    matches otherwise.  Each sub-query has its boost set from the boost
    table: name 10, alias 5, server 10, and topic, like every field that
    is not in the table, the boost 0 (the zero value of the table lookup,
    not the engine's default boost).  When the input contains a colon, and
    only then, fields were extracted, and one boolean query follows as the
    fifth disjunct; its must-clauses are one plain match per extracted
    field entry, on the field named by the key, for the value, with the
    boost of the table (language 100). *)
Theorem Search_query_shape (query : string) :
  let residual := GoStrings.TrimSpace (Search.matchFields query).1 in
  let fields := (Search.matchFields query).2 in
  let phrase := GoStrings.Contains residual " " in
  let sub := fun field boost =>
    Search.QMatch {| Search.Match := residual; Search.Phrase := phrase;
                     Search.FieldVal := field; Search.BoostVal := Some boost |} in
  exists extra,
    Search.Search query
    = Search.QDisjunction
        ([sub "name" 10; sub "alias" 5; sub "topic" 0; sub "server" 10] ++ extra)
    /\ (GoStrings.Contains query ":" = false -> extra = [] /\ fields = ∅)
    /\ (GoStrings.Contains query ":" = true ->
        fields <> ∅ /\
        exists must, extra = [Search.QBoolean must]
          /\ must ≡ₚ (fun kv : string * string =>
                        {| Search.Match := kv.2; Search.Phrase := false;
                           Search.FieldVal := kv.1;
                           Search.BoostVal := Some (Search.boostOf kv.1) |})
                     <$> map_to_list fields)
    /\ Search.boostOf "language" = 100
    /\ (forall field, field ∉ ["language"; "name"; "server"; "alias"] ->
          Search.boostOf field = 0).
Proof.
  intros residual fields phrase sub.
  pose proof (matchFields_fields_nonempty query) as Hne. fold fields in Hne.
  unfold Search.Search. subst residual fields phrase sub.
  destruct (Search.matchFields query) as [q fields]. simpl in *.
  unfold Search.getSearchQuery. rewrite !newMatchQuery_eq.
  destruct (decide (0 < size fields)%nat) as [Hsz|Hsz].
  - eexists. split; [reflexivity|].
    assert (fields <> ∅) as Hf by (apply map_size_non_empty_iff; lia).
    apply Hne in Hf.
    split; [congruence|]. split; [|split; [reflexivity|apply boostOf_other]].
    intros _. split; [by apply Hne|]. eexists. split; [reflexivity|]. done.
  - exists []. split; [reflexivity|].
    assert (fields = ∅) as Hf by (apply map_size_empty_iff; lia).
    split; [done|]. split; [|split; [reflexivity|apply boostOf_other]].
    intros Hc. apply Hne in Hc. done.
Qed.

(** C2, as stated, fails already for the input ["foss"]: the sub-query on
    the field topic does not carry the default boost.  Its boost is set,
    to 0. *)
Lemma Search_topic_boost_not_default :
  ~ (forall q, Search.QMatch q ∈ Search.disjuncts (Search.Search "foss") ->
       Search.FieldVal q = "topic" -> Search.Boost q = Search.defaultBoost).
Proof.
  intros H.
  specialize (H {| Search.Match := "foss"; Search.Phrase := false;
                   Search.FieldVal := "topic"; Search.BoostVal := Some 0 |}).
  assert (0 = 1) as Habs; [|discriminate Habs].
  apply H; [|reflexivity].
  vm_compute. do 2 apply list_elem_of_further. apply list_elem_of_here.
Qed.

(* --------------------------------------------------------------------- *)
(** ** Runs of the crawler on a small federation                          *)
(* --------------------------------------------------------------------- *)

(** More fuel does not change the result of a finished run. *)
Lemma getPublicRoomsFrom_more_fuel {D : Type} `{!Repository.DataRepository D}
    (fed : Matrix.Fed) (parse : Model.MatrixRoom.t -> Model.MatrixRoom.t)
    (name : string) (fuel fuel' : nat) (since : string) (m : Matrix.t D)
    (run : Matrix.t D * Go.outcome unit) :
  Matrix.getPublicRoomsFrom fuel fed parse name since m = Some run ->
  (fuel <= fuel')%nat ->
  Matrix.getPublicRoomsFrom fuel' fed parse name since m = Some run.
Proof.
  revert fuel' since m. induction fuel as [|fuel IH]; intros fuel' since m; [done|].
  destruct fuel' as [|fuel']; [lia|]. simpl.
  destruct (Matrix.roomsRound fed parse name since m) as [m1 [[next|]|]]; [|done|done].
  intros Hrun Hle. apply IH; [done|lia].
Qed.

(** The spec's scenarios 2 and 3: a server answers with the pages
    [{chunk: [R1, R2], next_batch: "t"}] and [{chunk: [R3], next_batch: ""}];
    [ParseRooms] stores R1, R2 and R3, and R1 and R3 alone when the alias
    of R2 is blocked. *)
Example ParseRooms_two_pages :
  let room := fun id alias : string =>
    Model.MatrixRoom.mk id alias "" "" "" "" "a.example" 1 "" in
  let page1 := {| Model.Chunk := [Some (room "!r1" "#one"); Some (room "!r2" "#two")];
                  Model.NextBatch := "t"; Model.Total := 3 |} in
  let page2 := {| Model.Chunk := [Some (room "!r3" "#three")];
                  Model.NextBatch := ""; Model.Total := 3 |} in
  let fed := {| Matrix.call := fun endpoint =>
                  if GoStrings.Contains endpoint "&since=t"
                  then Some (200, Some page2) else Some (200, Some page1);
                Matrix.contacts := fun _ => None;
                Matrix.QueryEscape := fun s => s |} in
  let server := Model.MatrixServer.mk "a.example" "https://a.example:8448" true true 0
                  Model.noContacts in
  let store := (Data.AddServer server (Data.New (fun _ => Some "{}"))).1 in
  let free := {| Model.ByID := fun _ => false; Model.ByServer := fun _ => false |} in
  let strict := {| Model.ByID := fun id => bool_decide (id = "#two");
                   Model.ByServer := fun _ => false |} in
  let m := fun block => Matrix.mk [] "https://proxy.example" "" false false false block store [] in
  (Data.roomsBucket ∘ Matrix.data ∘ fst) <$> Matrix.ParseRooms 2 fed (fun r => r) 1 (m free)
    = Some (Data.putRooms (fun _ => Some "{}") [room "!r1" "#one"; room "!r2" "#two"; room "!r3" "#three"] ∅)
  /\ (Data.roomsBucket ∘ Matrix.data ∘ fst) <$> Matrix.ParseRooms 2 fed (fun r => r) 1 (m strict)
    = Some (Data.putRooms (fun _ => Some "{}") [room "!r1" "#one"; room "!r3" "#three"] ∅)
  /\ Matrix.ParseRooms 1 fed (fun r => r) 1 (m free) = None.
Proof. repeat split; vm_compute; reflexivity. Qed.

(** The spec's scenario 1: the seeds are [a.example] and [b.example], and
    [b.example] is blocked; after [DiscoverServers] the store knows
    [a.example] alone, and no request was sent for [b.example]. *)
Example DiscoverServers_blocked_seed :
  let fed := {| Matrix.call := fun _ => Some (200, Some (Model.Build_matrixRoomsResp [] "" 0));
                Matrix.contacts := fun _ => None;
                Matrix.QueryEscape := fun s => s |} in
  let block := {| Model.ByID := fun _ => false;
                  Model.ByServer := fun name => bool_decide (name = "b.example") |} in
  let m := Matrix.mk ["a.example"; "b.example"] "https://proxy.example" "" false false false
             block (Data.New (fun _ => Some "{}")) [] in
  let m' := Matrix.DiscoverServers fed 0 2 m in
  dom (Data.serversInfoBucket (Matrix.data m')) = {[ "a.example" ]}
  /\ Matrix.sent m'
     = [Matrix.ReqContacts "a.example";
        Matrix.ReqGet
          "https://proxy.example/_matrix/client/v3/publicRooms?server=a.example&limit=1"]
  /\ Matrix.discovering m' = false.
Proof.
  repeat split; vm_compute; reflexivity.
Qed.

(* ===================================================================== *)
(** * Part III: further properties of the code                            *)
(* ===================================================================== *)

(* --------------------------------------------------------------------- *)
(** ** The batcher: conservation, chunking, transparency                  *)
(* --------------------------------------------------------------------- *)

Section BatchMore.
Context {T : Type}.
Implicit Types (b : Batch.t T (list (list T))) (w : list (list T)) (xs : list T).

(** With the recording flush function, what was flushed and what is
    pending always adds up to what was added, in order. *)
Lemma AddAll_record_concat xs b w :
  Batch.flushfunc b = Batch.record ->
  concat (Batch.AddAll xs b w).2 ++ Batch.data (Batch.AddAll xs b w).1
  = concat w ++ Batch.data b ++ xs
  /\ Batch.flushfunc (Batch.AddAll xs b w).1 = Batch.record
  /\ Batch.size (Batch.AddAll xs b w).1 = Batch.size b.
Proof.
  revert b w. induction xs as [|x xs IH]; intros [f d n] w Hf; simpl in *.
  - by rewrite app_nil_r.
  - subst f. unfold Batch.Add, Batch.Flush; simpl.
    case_decide.
    + destruct (IH (Batch.mk Batch.record [] n) (Batch.record (d ++ [x]) w) eq_refl)
        as (-> & -> & ->). simpl. unfold Batch.record.
      rewrite concat_app. simpl. by rewrite app_nil_r, <- !app_assoc.
    + destruct (IH (Batch.mk Batch.record (d ++ [x]) n) w eq_refl) as (-> & -> & ->).
      simpl. by rewrite <- !app_assoc.
Qed.

End BatchMore.

(** X1: whatever the size of the batcher and however many items are added,
    once [Flush] has been called every added item has been handed to the
    flush function exactly once, and in the order of the [Add] calls. *)
Theorem Batch_flushes_every_item_in_order {T : Type} (n : Z) (items : list T) :
  concat (Batch.flushCalls n items) = items.
Proof.
  unfold Batch.flushCalls.
  destruct (AddAll_record_concat items (Batch.recorder n) [] eq_refl) as (H & Hf & _).
  destruct (Batch.AddAll items (Batch.recorder n) []) as [b w]. simpl in *.
  unfold Batch.Flush; simpl. rewrite Hf. unfold Batch.record.
  rewrite concat_app. simpl. by rewrite app_nil_r.
Qed.

(** X2: for a batcher of size [n >= 1], after any number of [Add] calls
    every flush so far had exactly [n] items and fewer than [n] items are
    pending; flushed and pending items together are the added items, in
    order. *)
Theorem Batch_Add_flushes_full_batches {T : Type} (n : Z) (items : list T) :
  1 <= n ->
  let out := Batch.AddAll items (Batch.recorder n) [] in
  Forall (fun batch => Z.of_nat (length batch) = n) out.2
  /\ Z.of_nat (length (Batch.data out.1)) < n
  /\ concat out.2 ++ Batch.data out.1 = items.
Proof.
  intros Hn out.
  assert (forall (xs : list T) (b : Batch.t T (list (list T))) w,
            Batch.flushfunc b = Batch.record -> Batch.size b = n ->
            Forall (fun batch => Z.of_nat (length batch) = n) w ->
            Z.of_nat (length (Batch.data b)) < n ->
            Forall (fun batch => Z.of_nat (length batch) = n) (Batch.AddAll xs b w).2
            /\ Z.of_nat (length (Batch.data (Batch.AddAll xs b w).1)) < n) as Hinv.
  { induction xs as [|x xs IH]; intros [f d k] w Hf Hk Hw Hd; simpl in *; [done|].
    subst f k. unfold Batch.Add, Batch.Flush; simpl. rewrite length_app; simpl.
    case_decide as Hfull.
    - apply IH; simpl; [done|done| |lia].
      unfold Batch.record. apply Forall_app. split; [done|].
      constructor; [|done]. rewrite length_app; simpl. lia.
    - apply IH; simpl; [done|done|done|]. rewrite length_app; simpl. lia. }
  destruct (Hinv items (Batch.recorder n) []) as [H1 H2]; simpl; try done; [lia|].
  subst out. split; [done|]. split; [done|].
  by destruct (AddAll_record_concat items (Batch.recorder n) [] eq_refl) as (-> & _).
Qed.

Lemma Batch_Add_flushes_full_batches_witness :
  1 <= 2
  /\ (Batch.AddAll [1; 2; 3; 4; 5] (Batch.recorder 2) []).2 = [[1; 2]; [3; 4]]
  /\ Z.of_nat (length
       (Batch.data (Batch.AddAll [1; 2; 3; 4; 5] (Batch.recorder 2) []).1)) < 2.
Proof.
  split; [lia|]. split; [reflexivity|].
  apply (Batch_Add_flushes_full_batches 2 [1; 2; 3; 4; 5]). lia.
Defined.

(** X3: a batcher of size 0 (or less, were it possible to create one)
    never holds an item back: every [Add] flushes the item it was given,
    alone. *)
Theorem Batch_size_zero_flushes_each_item {T : Type} (n : Z) (items : list T)
    (w : list (list T)) :
  n <= 0 ->
  Batch.AddAll items (Batch.recorder n) w
  = (Batch.recorder n, w ++ ((fun x => [x]) <$> items)).
Proof.
  intros Hn. revert w. induction items as [|x items IH]; intros w; simpl.
  - by rewrite app_nil_r.
  - unfold Batch.Add, Batch.Flush; simpl. rewrite decide_True by lia.
    fold (@Batch.recorder T n). rewrite IH. unfold Batch.record.
    by rewrite <- app_assoc.
Qed.

Lemma Batch_size_zero_flushes_each_item_witness :
  0 <= 0
  /\ Batch.AddAll [7; 8] (Batch.recorder 0) [] = (Batch.recorder 0, [[7]; [8]]).
Proof.
  split; [lia|].
  apply (Batch_size_zero_flushes_each_item 0 [7; 8] []). lia.
Defined.

(** X4: batching is transparent for a flush function that treats a batch
    as the sequence of its items (handling [xs ++ ys] is handling [xs],
    then [ys]): adding items and flushing leaves the same state as handing
    the pending and the added items to the flush function in one go. *)
Theorem Batch_is_transparent {T W : Type} (items : list T) (b : Batch.t T W) (w : W) :
  (forall xs ys w, Batch.flushfunc b (xs ++ ys) w
                   = Batch.flushfunc b ys (Batch.flushfunc b xs w)) ->
  (Batch.Flush (Batch.AddAll items b w).1 (Batch.AddAll items b w).2).2
  = Batch.flushfunc b (Batch.data b ++ items) w.
Proof.
  intros Hhom. revert b w Hhom.
  induction items as [|x items IH]; intros [f d n] w Hhom; simpl in *.
  - by rewrite app_nil_r.
  - unfold Batch.Add; simpl. case_decide.
    + unfold Batch.Flush at 2 3; simpl.
      rewrite (IH (Batch.mk f [] n)) by done. simpl.
      rewrite <- Hhom. by rewrite <- app_assoc.
    + rewrite (IH (Batch.mk f (d ++ [x]) n)) by done. simpl.
      by rewrite <- app_assoc.
Qed.

Lemma Batch_is_transparent_witness :
  let room := fun id : string =>
    Model.MatrixRoom.mk id "" "" "" "" "" "a.example" 1 "" in
  let b := Batch.mk (Data.putRooms (fun _ => Some "{}")) [] 1 in
  (forall xs ys w, Batch.flushfunc b (xs ++ ys) w
                   = Batch.flushfunc b ys (Batch.flushfunc b xs w))
  /\ (Batch.Flush (Batch.AddAll [room "!r1"; room "!r2"] b ∅).1
                  (Batch.AddAll [room "!r1"; room "!r2"] b ∅).2).2
     = Data.putRooms (fun _ => Some "{}") [room "!r1"; room "!r2"] ∅.
Proof.
  intros room b.
  assert (forall xs ys w, Batch.flushfunc b (xs ++ ys) w
                          = Batch.flushfunc b ys (Batch.flushfunc b xs w)) as Hhom.
  { intros xs ys w. apply foldl_app. }
  split; [exact Hhom|].
  exact (Batch_is_transparent [room "!r1"; room "!r2"] b ∅ Hhom).
Defined.

(* --------------------------------------------------------------------- *)
(** ** The room batch of the store                                        *)
(* --------------------------------------------------------------------- *)

(** X5: after the flush function of the room batch has stored a batch, a
    room id maps to the last room of the batch that has this id and that
    the store accepts (its encoding succeeds, its id is neither empty nor
    longer than [MaxKeySize], its encoding is not longer than
    [MaxValueSize]), and to what the bucket held before when the batch has
    no such room; so nothing is ever stored under the empty id or under an
    id that is too long. *)
Theorem putRooms_last_wins (marshal : Model.MatrixRoom.t -> option string)
    (rooms : list Model.MatrixRoom.t) (bucket : gmap string Model.MatrixRoom.t)
    (id : string) :
  let accepted := fun r : Model.MatrixRoom.t =>
    is_Some (marshal r ≫= fun roomb => Bolt.Put (Model.MatrixRoom.ID r) roomb ∅) in
  Data.putRooms marshal rooms bucket !! id
  = match last (filter (fun r => Model.MatrixRoom.ID r = id /\ accepted r) rooms) with
    | Some r => Some r
    | None => bucket !! id
    end
  /\ (id = "" \/ Bolt.MaxKeySize < Z.of_nat (String.length id) ->
      Data.putRooms marshal rooms bucket !! id = bucket !! id).
Proof.
  intros accepted.
  assert (Data.putRooms marshal rooms bucket !! id
          = match last (filter (fun r => Model.MatrixRoom.ID r = id /\ accepted r) rooms) with
            | Some r => Some r
            | None => bucket !! id
            end) as Hlast.
  { unfold Data.putRooms.
    induction rooms as [|r rooms IH] using rev_ind; [done|].
    rewrite foldl_app, filter_app, filter_cons, filter_nil. cbn [foldl].
    unfold Data.putRoom at 1. subst accepted. cbv beta in *.
    destruct (marshal r) as [roomb|]; simpl.
    - destruct (Bolt.Put (Model.MatrixRoom.ID r) roomb ∅) as [b'|]; simpl.
      + destruct (decide (Model.MatrixRoom.ID r = id)) as [Heq|Hne].
        * rewrite decide_True by (split; [done|by eexists]).
          rewrite last_snoc, Heq. by rewrite lookup_insert_eq.
        * rewrite decide_False by (by intros [? _]).
          rewrite app_nil_r, lookup_insert_ne by done. apply IH.
      + rewrite decide_False by (intros [_ [? ?]]; done).
        rewrite app_nil_r. apply IH.
    - rewrite decide_False by (intros [_ [? ?]]; done).
      rewrite app_nil_r. apply IH. }
  split; [exact Hlast|].
  intros Hbad. rewrite Hlast.
  assert (filter (fun r => Model.MatrixRoom.ID r = id /\ accepted r) rooms = []) as ->; [|done].
  clear Hlast. induction rooms as [|r rooms IH]; [done|].
  rewrite filter_cons, decide_False; [done|].
  intros [Heq [b' Hput]]. destruct (marshal r) as [roomb|]; simpl in Hput; [|done].
  unfold Bolt.Put in Hput. rewrite Heq in Hput.
  destruct Hbad as [->|Hlong].
  - by rewrite decide_True in Hput.
  - destruct (decide (id = "")); [done|]. by rewrite decide_True in Hput.
Qed.

Lemma putRooms_last_wins_witness :
  let room := fun id name : string =>
    Model.MatrixRoom.mk id "" name "" "" "" "a.example" 1 "" in
  let rooms := [room "!r1" "old"; room "" "nameless"; room "!r1" "new"] in
  Data.putRooms (fun _ => Some "{}") rooms ∅ !! "!r1" = Some (room "!r1" "new")
  /\ Data.putRooms (fun _ => Some "{}") rooms ∅ !! "" = None.
Proof.
  intros room rooms. split.
  - rewrite (proj1 (putRooms_last_wins (fun _ => Some "{}") rooms ∅ "!r1")).
    reflexivity.
  - rewrite (proj2 (putRooms_last_wins (fun _ => Some "{}") rooms ∅ "")) by (by left).
    reflexivity.
Defined.

(* --------------------------------------------------------------------- *)
(** ** The counts of rooms per server                                     *)
(* --------------------------------------------------------------------- *)

(** Reading back the decimal rendering of a Go [int] gives the number. *)
Lemma Atoi_Itoa (n : Z) :
  Strconv.minInt <= n <= Strconv.maxInt ->
  Strconv.Atoi (GoStrings.Itoa n) = Some n.
Proof.
  intros Hn. unfold Strconv.Atoi, GoStrings.Itoa.
  assert (NilZero.int_of_string (NilZero.string_of_int (Z.to_int n))
          = Some (Z.to_int n)) as Hisi.
  { apply NilZero.isi; destruct n; simpl; try discriminate;
      intros [= E]; by apply Unsigned.to_uint_nonnil in E. }
  destruct (NilZero.string_of_int (Z.to_int n)) as [|a s]; [discriminate Hisi|].
  destruct (Ascii.eqb_spec a "+") as [->|Ha].
  - exfalso. simpl in Hisi. unfold uint_of_char in Hisi.
    by destruct (NilEmpty.uint_of_string s).
  - rewrite Hisi. simpl. rewrite DecimalZ.of_to. by rewrite decide_True.
Qed.

Lemma Put_valid (key value : string) (b : gmap string string) :
  ServersRooms.validKey key -> ServersRooms.validValue value ->
  Bolt.Put key value b = Some (<[key := value]> b).
Proof.
  intros [Hk1 Hk2] Hv. unfold Bolt.Put, ServersRooms.validValue in *.
  rewrite decide_False by done. rewrite decide_False by lia.
  by rewrite decide_False by lia.
Qed.

Lemma double_digits (d : Decimal.uint) :
  (Decimal.nb_digits (Decimal.Little.double d) <= S (Decimal.nb_digits d)
   /\ Decimal.nb_digits (Decimal.Little.succ_double d) <= S (Decimal.nb_digits d))%nat.
Proof. induction d; simpl; lia. Qed.

Lemma to_little_uint_digits (p : positive) :
  (Decimal.nb_digits (Pos.to_little_uint p) <= Pos.size_nat p)%nat.
Proof.
  induction p; simpl; [| |lia];
    pose proof (double_digits (Pos.to_little_uint p)); lia.
Qed.

Lemma size_nat_bound (p : positive) (k : nat) :
  Z.pos p < 2 ^ Z.of_nat k -> (Pos.size_nat p <= k)%nat.
Proof.
  revert k. induction p; intros k Hk; simpl;
    (destruct k as [|k]; [simpl in Hk; lia|]); [| |lia];
    rewrite Nat2Z.inj_succ, Z.pow_succ_r in Hk by lia;
    specialize (IHp k); lia.
Qed.

(** The rendering of a Go [int] is short. *)
Lemma Itoa_length (n : Z) :
  Strconv.minInt <= n <= Strconv.maxInt ->
  (String.length (GoStrings.Itoa n) <= 65)%nat.
Proof.
  intros Hn. unfold Strconv.minInt, Strconv.maxInt in Hn.
  assert (forall d, String.length (NilEmpty.string_of_uint d) = Decimal.nb_digits d)
    as Hlen by (induction d; simpl; congruence).
  assert (forall p, Z.pos p <= 2 ^ 63 ->
            (String.length (NilZero.string_of_uint (Pos.to_uint p)) <= 64)%nat) as Hpos.
  { intros p Hp. pose proof (Unsigned.to_uint_nonnil p) as Hnn.
    unfold NilZero.string_of_uint.
    destruct (Pos.to_uint p) eqn:E; [done|..]; rewrite <- E, Hlen;
      unfold Pos.to_uint; rewrite DecimalFacts.nb_digits_rev;
      pose proof (to_little_uint_digits p);
      pose proof (size_nat_bound p 64); lia. }
  unfold GoStrings.Itoa. destruct n as [|p|p]; simpl.
  - lia.
  - specialize (Hpos p). lia.
  - specialize (Hpos p). lia.
Qed.

Lemma foldl_putCount (l : list (string * Z)) (b : gmap string string) :
  Forall (fun kv => ServersRooms.validKey kv.1
                    /\ Strconv.minInt <= kv.2 <= Strconv.maxInt) l ->
  NoDup l.*1 ->
  foldl ServersRooms.putCount (Some b) l
  = Some (list_to_map (prod_map id GoStrings.Itoa <$> l) ∪ b).
Proof.
  revert b. induction l as [|[k n] l IH]; intros b Hl Hnd; simpl.
  - by rewrite (left_id_L ∅ (∪)).
  - inversion_clear Hl as [|? ? [Hk Hn] Hl']. simpl in *.
    apply NoDup_cons in Hnd as [Hk' Hnd].
    rewrite Put_valid; [|done|].
    + rewrite IH by done. f_equal.
      rewrite <- insert_union_r, insert_union_l; [done|].
      apply not_elem_of_list_to_map_1.
      rewrite <- list_fmap_compose.
      by replace (fst ∘ prod_map id GoStrings.Itoa) with (@fst string Z).
    + unfold ServersRooms.validValue, Bolt.MaxValueSize.
      pose proof (Itoa_length n Hn). lia.
Qed.

(** Once a [Put] has failed the transaction stays failed. *)
Lemma foldl_putCount_failed (l : list (string * Z)) :
  foldl ServersRooms.putCount None l = None.
Proof. by induction l. Qed.

(** X6: the counts of rooms per server survive the store: when every
    server name is a valid key, [SetServersRoomsCount] succeeds, and
    [GetServersRoomsCount] then gives back every count that was set, beside
    the counts that the bucket held for other servers. *)
Theorem ServersRoomsCount_round_trip (data : gmap string Z) (bucket : gmap string string) :
  map_Forall (fun server count => ServersRooms.validKey server
                /\ Strconv.minInt <= count <= Strconv.maxInt) data ->
  let out := ServersRooms.SetServersRoomsCount data bucket in
  out.2 = None
  /\ ServersRooms.GetServersRoomsCount out.1
     = data ∪ ServersRooms.GetServersRoomsCount bucket.
Proof.
  intros Hdata out. subst out. unfold ServersRooms.SetServersRoomsCount.
  rewrite foldl_putCount.
  - simpl. split; [done|].
    rewrite list_to_map_fmap, list_to_map_to_list.
    unfold ServersRooms.GetServersRoomsCount.
    apply map_eq. intros k.
    rewrite lookup_omap, !lookup_union, lookup_fmap, lookup_omap.
    destruct (data !! k) as [n|] eqn:Hk; simpl.
    + destruct (Hdata k n Hk) as [_ Hn].
      destruct (bucket !! k) as [v|]; simpl; rewrite (Atoi_Itoa n Hn);
        [by destruct (Strconv.Atoi v)|done].
    + by destruct (bucket !! k) as [v|]; simpl; [destruct (Strconv.Atoi v)|].
  - apply Forall_forall. intros [k n] Hin.
    apply elem_of_map_to_list in Hin. by apply Hdata.
  - apply NoDup_fst_map_to_list.
Qed.

Lemma ServersRoomsCount_round_trip_witness :
  let data : gmap string Z := {[ "a.example" := 12; "b.example" := 0 ]} in
  map_Forall (fun server count => ServersRooms.validKey server
                /\ Strconv.minInt <= count <= Strconv.maxInt) data
  /\ ServersRooms.GetServersRoomsCount (ServersRooms.SetServersRoomsCount data ∅).1
     = data.
Proof.
  intros data.
  assert (map_Forall (fun server count => ServersRooms.validKey server
                /\ Strconv.minInt <= count <= Strconv.maxInt) data) as Hdata.
  { intros k n Hk. subst data.
    apply lookup_insert_Some in Hk as [[<- <-]|[_ Hk]];
      [|apply lookup_singleton_Some in Hk as [<- <-]];
      (split; [split; [done|vm_compute; discriminate]|vm_compute; split; discriminate]). }
  split; [exact Hdata|].
  rewrite (proj2 (ServersRoomsCount_round_trip data ∅ Hdata)).
  reflexivity.
Defined.

(** X7: a server with the empty name among the counts makes
    [SetServersRoomsCount] fail as a whole: it reports an error and the
    bucket is as before, also for the servers with a proper name. *)
Theorem SetServersRoomsCount_rolls_back (data : gmap string Z) (bucket : gmap string string) :
  is_Some (data !! "") ->
  exists err, ServersRooms.SetServersRoomsCount data bucket = (bucket, Some err).
Proof.
  intros [n Hn]. unfold ServersRooms.SetServersRoomsCount.
  apply elem_of_map_to_list in Hn.
  assert (forall l tx, ("", n) ∈ l -> foldl ServersRooms.putCount tx l = None) as Hfail.
  { induction l as [|kv l IH]; intros tx Hin; [by apply elem_of_nil in Hin|].
    apply elem_of_cons in Hin as [<-|Hin]; simpl.
    - destruct tx; simpl; apply foldl_putCount_failed.
    - by apply IH. }
  rewrite (Hfail _ _ Hn). eauto.
Qed.

Lemma SetServersRoomsCount_rolls_back_witness :
  let data : gmap string Z := {[ "a.example" := 3; "" := 1 ]} in
  is_Some (data !! "")
  /\ exists err, ServersRooms.SetServersRoomsCount data {[ "b.example" := "7" ]}
                 = ({[ "b.example" := "7" ]}, Some err).
Proof.
  intros data.
  assert (is_Some (data !! "")) as Hs by (by exists 1).
  split; [exact Hs|].
  exact (SetServersRoomsCount_rolls_back data {[ "b.example" := "7" ]} Hs).
Defined.

(* --------------------------------------------------------------------- *)
(** ** The rooms per server                                               *)
(* --------------------------------------------------------------------- *)

Section ServersRoomsFacts.
Import ServersRooms.
Implicit Types (rBucket : gmap string string) (roomIDs : list string).

Lemma foldl_insert_lookup (g : string -> string) roomIDs (sub : gmap string string)
    (k : string) :
  foldl (fun s id => <[id := g id]> s) sub roomIDs !! k
  = if decide (k ∈ roomIDs) then Some (g k) else sub !! k.
Proof.
  revert sub. induction roomIDs as [|id roomIDs IH]; intros sub; simpl.
  - done.
  - rewrite IH. destruct (decide (k ∈ roomIDs)) as [Hin|Hin].
    + rewrite decide_True; [done|by right].
    + destruct (decide (k = id)) as [->|Hne].
      * rewrite decide_True by (by left). by rewrite lookup_insert_eq.
      * rewrite lookup_insert_ne by done. rewrite decide_False; [done|].
        intros Hin'. apply elem_of_cons in Hin' as [?|?]; done.
Qed.

Lemma subBucketOf_lookup rBucket roomIDs (k : string) :
  subBucketOf rBucket roomIDs !! k
  = if decide (k ∈ roomIDs) then Some (Bolt.Get k rBucket) else None.
Proof.
  unfold subBucketOf. induction roomIDs as [|id roomIDs IH]; csimpl.
  - done.
  - destruct (decide (k = id)) as [->|Hne].
    + rewrite lookup_insert_eq. rewrite decide_True; [done|by left].
    + rewrite lookup_insert_ne by done. rewrite IH.
      destruct (decide (k ∈ roomIDs)) as [Hin|Hin].
      * rewrite decide_True; [done|by right].
      * rewrite decide_False; [done|].
        intros Hin'. apply elem_of_cons in Hin' as [?|?]; done.
Qed.

Lemma putRoomIDs_storable rBucket roomIDs (sub : gmap string string) :
  storable rBucket roomIDs ->
  putRoomIDs rBucket roomIDs sub
  = (foldl (fun s id => <[id := Bolt.Get id rBucket]> s) sub roomIDs, true).
Proof.
  revert sub. induction roomIDs as [|id roomIDs IH]; intros sub Hall; [done|].
  inversion_clear Hall as [|? ? [Hk Hv] Hall']. simpl.
  rewrite Put_valid by done. by apply IH.
Qed.

Lemma putRoomIDs_subBucketOf rBucket roomIDs :
  storable rBucket roomIDs ->
  putRoomIDs rBucket roomIDs ∅ = (subBucketOf rBucket roomIDs, true).
Proof.
  intros Hall. rewrite putRoomIDs_storable by done. f_equal.
  apply map_eq. intros k.
  rewrite foldl_insert_lookup, subBucketOf_lookup. by rewrite lookup_empty.
Qed.

Lemma saveEach_lookup rBucket (data : list (string * list string))
    (srBucket : gmap string (gmap string string)) (server : string) :
  NoDup data.*1 ->
  Forall (fun kv => kv.2 <> [] -> kv.1 <> "" /\ storable rBucket kv.2) data ->
  (forall s, s ∈ data.*1 -> srBucket !! s = None) ->
  saveEach rBucket data srBucket !! server
  = match (list_to_map data : gmap string (list string)) !! server with
    | Some roomIDs =>
        if decide (roomIDs = []) then srBucket !! server
        else Some (subBucketOf rBucket roomIDs)
    | None => srBucket !! server
    end.
Proof.
  revert srBucket.
  induction data as [|[s roomIDs] data IH]; intros srBucket Hnd Hall Hfree; [done|].
  rewrite fmap_cons in Hnd, Hfree. simpl in Hnd, Hfree.
  apply NoDup_cons in Hnd as [Hs Hnd].
  inversion_clear Hall as [|? ? Hok Hall']. simpl in Hok.
  rewrite list_to_map_cons. cbn [saveEach].
  destruct (decide (length roomIDs = 0)%nat) as [Hl|Hl].
  - assert (roomIDs = []) as -> by (by destruct roomIDs).
    rewrite IH; [|done|done|by intros s' Hin; apply Hfree; right].
    destruct (decide (server = s)) as [->|Hne].
    + rewrite lookup_insert_eq. rewrite decide_True by done.
      by rewrite (proj1 (not_elem_of_list_to_map data s) Hs).
    + by rewrite lookup_insert_ne.
  - assert (roomIDs <> []) as Hne' by (by destruct roomIDs).
    destruct (Hok Hne') as [Hname Hids].
    unfold Bolt.CreateBucket. rewrite decide_False by done.
    rewrite (Hfree s) by (by left).
    rewrite (putRoomIDs_subBucketOf _ _ Hids).
    rewrite IH; [|done|done|].
    + destruct (decide (server = s)) as [->|Hne].
      * rewrite !lookup_insert_eq. rewrite decide_False by done.
        by rewrite (proj1 (not_elem_of_list_to_map data s) Hs).
      * by rewrite !lookup_insert_ne.
    + intros s' Hin. rewrite lookup_insert_ne by (intros <-; done).
      apply Hfree. by right.
Qed.

(** An entry with the empty server name ends the loop. *)
Lemma saveEach_stops rBucket (before after : list (string * list string))
    roomIDs (srBucket : gmap string (gmap string string)) :
  roomIDs <> [] ->
  saveEach rBucket (before ++ ("", roomIDs) :: after) srBucket
  = saveEach rBucket before srBucket.
Proof.
  intros Hne. revert srBucket.
  induction before as [|[s ids] before IH]; intros srBucket; simpl.
  - destruct roomIDs; [done|]. done.
  - case_decide; [by apply IH|].
    destruct (Bolt.CreateBucket ∅ s srBucket); [|done].
    destruct (putRoomIDs rBucket ids ∅) as [sub [|]]; [by apply IH|done].
Qed.

End ServersRoomsFacts.

(** X8: [SaveServersRooms] rebuilds the [servers_rooms] bucket from
    scratch.  When the bucket exists, every server with rooms has a name,
    and the room ids and bodies can be stored, the result does not depend
    on the order in which Go ranges over the map: every server with a
    non-empty list gets a nested bucket that maps each of its room ids to
    the body found in [rooms] (the empty body when [rooms] has none), the
    servers with an empty list and all former content are absent, and the
    [rooms] bucket is as before. *)
Theorem SaveServersRooms_rebuilds (data : gmap string (list string))
    (order : list (string * list string)) (tx : ServersRooms.Tx) :
  order ≡ₚ map_to_list data ->
  is_Some (ServersRooms.serversRooms tx) ->
  map_Forall (fun server roomIDs =>
                roomIDs <> [] ->
                server <> "" /\ ServersRooms.storable (ServersRooms.rooms tx) roomIDs) data ->
  ServersRooms.SaveServersRooms order tx
  = ({| ServersRooms.serversRooms :=
          Some (ServersRooms.subBucketOf (ServersRooms.rooms tx)
                  <$> filter (fun kv => kv.2 <> []) data);
        ServersRooms.rooms := ServersRooms.rooms tx |}, None).
Proof.
  intros Hperm [old Hold] Hdata. unfold ServersRooms.SaveServersRooms. rewrite Hold.
  do 3 f_equal. apply map_eq. intros server.
  assert (NoDup order.*1) as Hnd.
  { rewrite Hperm. apply NoDup_fst_map_to_list. }
  rewrite saveEach_lookup; [|done| |done].
  - rewrite (list_to_map_proper order (map_to_list data)) by done.
    rewrite list_to_map_to_list, lookup_fmap, map_lookup_filter, lookup_empty.
    destruct (data !! server) as [roomIDs|]; simpl; [|done].
    destruct (decide (roomIDs = [])) as [->|Hne].
    + by rewrite option_guard_False by (intros Hn; by apply Hn).
    + by rewrite option_guard_True.
  - apply Forall_forall. intros [s roomIDs] Hin. simpl.
    rewrite Hperm in Hin. apply elem_of_map_to_list in Hin. by apply Hdata.
Qed.

Lemma SaveServersRooms_rebuilds_witness :
  let data : gmap string (list string) := {[ "a.example" := ["!r1"; "!r2"] ]} in
  let tx := ServersRooms.mkTx (Some {[ "old.example" := ∅ ]}) {[ "!r1" := "one" ]} in
  map_to_list data ≡ₚ map_to_list data
  /\ is_Some (ServersRooms.serversRooms tx)
  /\ (ServersRooms.SaveServersRooms (map_to_list data) tx).2 = None.
Proof.
  intros data tx. split; [done|]. split; [by eexists|].
  rewrite (SaveServersRooms_rebuilds data (map_to_list data) tx); [done|done|by eexists|].
  intros server roomIDs Hs _. subst data.
  apply lookup_singleton_Some in Hs as [<- <-].
  split; [done|]. repeat constructor; try done; vm_compute; discriminate.
Defined.

(** X9: [SaveServersRooms] does not report what fails inside its loop.
    When the bucket exists the result is nil whatever the data; and a
    server with rooms but an empty name ends the loop, so that the servers
    that Go ranges over after it are missing from the rebuilt bucket. *)
Theorem SaveServersRooms_swallows_failure (before after : list (string * list string))
    (roomIDs : list string) (tx : ServersRooms.Tx) :
  roomIDs <> [] ->
  is_Some (ServersRooms.serversRooms tx) ->
  ServersRooms.SaveServersRooms (before ++ ("", roomIDs) :: after) tx
  = ServersRooms.SaveServersRooms before tx
  /\ (ServersRooms.SaveServersRooms (before ++ ("", roomIDs) :: after) tx).2 = None.
Proof.
  intros Hne [old Hold]. unfold ServersRooms.SaveServersRooms. rewrite Hold.
  by rewrite saveEach_stops.
Qed.

Lemma SaveServersRooms_swallows_failure_witness :
  let tx := ServersRooms.mkTx (Some ∅) {[ "!r1" := "one" ]} in
  ["!r1"] <> []
  /\ is_Some (ServersRooms.serversRooms tx)
  /\ ServersRooms.SaveServersRooms [("", ["!r1"]); ("a.example", ["!r1"])] tx
     = (ServersRooms.mkTx (Some ∅) {[ "!r1" := "one" ]}, None).
Proof.
  intros tx. split; [done|]. split; [by eexists|].
  apply eq_trans with (ServersRooms.SaveServersRooms [] tx); [|reflexivity].
  exact (proj1 (SaveServersRooms_swallows_failure [] [("a.example", ["!r1"])]
                  ["!r1"] tx ltac:(done) ltac:(by eexists))).
Defined.

(* --------------------------------------------------------------------- *)
(** ** The buckets of the store                                           *)
(* --------------------------------------------------------------------- *)

Lemma foldl_create (names : list string) (db : gmap string (gmap string string)) :
  Forall (fun name => name <> "") names ->
  foldl (fun tx bucket =>
           match tx with
           | Some tx => Bolt.CreateBucketIfNotExists ∅ bucket tx
           | None => None
           end) (Some db) names
  = Some (db ∪ list_to_map ((fun name => (name, ∅)) <$> names)).
Proof.
  revert db. induction names as [|name names IH]; intros db Hall; csimpl.
  - by rewrite (right_id_L ∅ (∪)).
  - inversion_clear Hall as [|? ? Hname Hall'].
    unfold Bolt.CreateBucketIfNotExists. rewrite decide_False by done.
    destruct (db !! name) as [b|] eqn:Hb.
    + rewrite IH by done. f_equal. apply map_eq. intros k.
      rewrite !lookup_union. destruct (decide (k = name)) as [->|Hne].
      * rewrite Hb, lookup_insert_eq. simpl.
        by destruct (list_to_map _ !! name).
      * by rewrite lookup_insert_ne.
    + rewrite IH by done. f_equal. apply map_eq. intros k.
      rewrite !lookup_union. destruct (decide (k = name)) as [->|Hne].
      * rewrite Hb, !lookup_insert_eq. simpl.
        by destruct (list_to_map _ !! name).
      * by rewrite !lookup_insert_ne.
Qed.

(** X10: [initBuckets] succeeds on every database; afterwards the four
    buckets exist, the buckets that existed before (and their content) are
    untouched, a bucket that was missing is empty, and running it again
    changes nothing. *)
Theorem initBuckets_idempotent (db : gmap string (gmap string string)) :
  let out := Buckets.initBuckets db in
  out.2 = None
  /\ (forall name, name ∈ Buckets.buckets -> is_Some (out.1 !! name))
  /\ (forall name bucket, db !! name = Some bucket -> out.1 !! name = Some bucket)
  /\ (forall name, name ∈ Buckets.buckets -> db !! name = None -> out.1 !! name = Some ∅)
  /\ (forall name, name ∉ Buckets.buckets -> out.1 !! name = db !! name)
  /\ Buckets.initBuckets out.1 = out.
Proof.
  assert (Forall (fun name : string => name <> "") Buckets.buckets) as Hnames
    by (repeat constructor; done).
  assert (forall name,
            (list_to_map ((fun name => (name, ∅)) <$> Buckets.buckets)
               : gmap string (gmap string string)) !! name
            = if decide (name ∈ Buckets.buckets) then Some ∅ else None) as Hlk.
  { intros name. destruct (decide (name ∈ Buckets.buckets)) as [Hin|Hin].
    - apply elem_of_list_to_map_1'.
      + intros y Hy. apply list_elem_of_fmap in Hy as (? & [= _ ->] & _). done.
      + apply list_elem_of_fmap. by exists name.
    - apply not_elem_of_list_to_map_1. rewrite <- list_fmap_compose.
      intros Hin'. apply Hin. by rewrite list_fmap_id in Hin'. }
  intros out. subst out. unfold Buckets.initBuckets.
  rewrite !foldl_create by done. simpl. rewrite ?foldl_create by done. simpl.
  split; [done|]. split; [|split; [|split; [|split]]].
  - intros name Hin. rewrite lookup_union, Hlk, decide_True by done.
    destruct (db !! name); by eexists.
  - intros name bucket Hb. rewrite lookup_union, Hb, Hlk.
    by case_decide.
  - intros name Hin Hb. by rewrite lookup_union, Hb, Hlk, decide_True.
  - intros name Hin. rewrite lookup_union, Hlk, decide_False by done.
    by destruct (db !! name).
  - f_equal. apply map_eq. intros name.
    rewrite !lookup_union, !Hlk.
    destruct (db !! name), (decide (name ∈ Buckets.buckets)); done.
Qed.

(* --------------------------------------------------------------------- *)
(** ** The admin group                                                    *)
(* --------------------------------------------------------------------- *)

Lemma allowedIP_elem (ips : list string) (realIP : string) :
  Admin.allowedIP ips realIP = true <-> realIP ∈ ips.
Proof.
  induction ips as [|ip ips IH]; simpl.
  - split; [done|]. intros H. by apply elem_of_nil in H.
  - rewrite elem_of_cons. case_decide as Heq.
    + split; [|done]. intros _. by left.
    + rewrite IH. split; [by right|]. intros [?|?]; [congruence|done].
Qed.

(** X11: the admin API lets a request in exactly when login and password
    are the configured ones and the address of the client is on the list
    of admin addresses, or that list is empty; the address is of no use
    without the credentials. *)
Theorem admin_validator_accepts (cfg : Admin.Config) (login password realIP : string) :
  Admin.validator cfg login password realIP = true <->
  login = Admin.Login cfg /\ password = Admin.Password cfg
  /\ (Admin.IPs cfg = [] \/ realIP ∈ Admin.IPs cfg).
Proof.
  unfold Admin.validator.
  destruct (decide (login = Admin.Login cfg)) as [Hl|Hl];
    [|rewrite bool_decide_eq_true_2 by done; simpl; split; [done|tauto]].
  destruct (decide (password = Admin.Password cfg)) as [Hp|Hp].
  - rewrite !bool_decide_eq_false_2 by (intros Hne; by apply Hne). simpl.
    case_decide as Hips.
    + split; [|done]. intros _. split; [done|]. split; [done|].
      left. by destruct (Admin.IPs cfg).
    + destruct (Admin.allowedIP (Admin.IPs cfg) realIP) eqn:Ha.
      * apply allowedIP_elem in Ha. tauto.
      * split; [done|]. intros (_ & _ & [Hnil|Hin]).
        -- by rewrite Hnil in Hips.
        -- apply allowedIP_elem in Hin. congruence.
  - rewrite (bool_decide_eq_true_2 (password <> _)) by done.
    rewrite orb_true_r. split; [done|tauto].
Qed.

(* --------------------------------------------------------------------- *)
(** ** The middleware for immutable resources                             *)
(* --------------------------------------------------------------------- *)

(** X12: for a GET request, [MiddlewareImmutable] answers every request
    that carries an [If-Modified-Since] header with 304, whatever the date
    in it, and leaves the headers alone; without that header the next
    handler runs on a response that has no [Last-Modified] header (also
    when an earlier middleware had set one), marked immutable for a year,
    with all other headers as they were.  Other methods pass untouched. *)
Theorem MiddlewareImmutable_GET (req : Cache.Request) (resp : gmap string string) :
  let ifModifiedSince := Cache.HeaderGet (Cache.Header req) "If-Modified-Since" in
  let out := CacheImmutable.MiddlewareImmutable req resp in
  (Cache.Method req <> "GET" -> out = (resp, Cache.Next))
  /\ (Cache.Method req = "GET" -> ifModifiedSince <> "" ->
      out = (resp, Cache.NoContent 304))
  /\ (Cache.Method req = "GET" -> ifModifiedSince = "" ->
      out.2 = Cache.Next
      /\ out.1 !! "Last-Modified" = None
      /\ out.1 !! "Cache-Control" = Some "max-age=31536000, immutable"
      /\ out.1 !! "CDN-Tag" = Some "immutable"
      /\ forall header, header <> "Last-Modified" -> header <> "Cache-Control" ->
           header <> "CDN-Tag" -> out.1 !! header = resp !! header).
Proof.
  simpl. unfold CacheImmutable.MiddlewareImmutable.
  split; [|split].
  - intros Hm. by rewrite decide_True.
  - intros Hm Hims. rewrite decide_False by (intros Hne; by apply Hne).
    by rewrite decide_True.
  - intros Hm Hims. rewrite decide_False by (intros Hne; by apply Hne).
    rewrite decide_False by (intros Hne; by apply Hne). simpl.
    split; [done|]. split; [|split; [|split]].
    + rewrite !lookup_insert_ne by done. apply lookup_delete_eq.
    + by rewrite lookup_insert_eq.
    + rewrite lookup_insert_ne by done. by rewrite lookup_insert_eq.
    + intros header H1 H2 H3.
      rewrite !lookup_insert_ne by done. by rewrite lookup_delete_ne.
Qed.

(* --------------------------------------------------------------------- *)
(** ** Trimming                                                           *)
(* --------------------------------------------------------------------- *)

Section TrimFacts.
Import GoStrings.
Variable f : ascii -> bool.

Lemma TrimLeftFunc_head (s r : string) (a : ascii) :
  TrimLeftFunc f s = String a r -> f a = false.
Proof.
  induction s as [|b s IH]; simpl; [done|].
  destruct (f b) eqn:Hb; [done|]. by intros [= <- _].
Qed.

Lemma TrimLeftFunc_fixed (s : string) (a : ascii) :
  f a = false -> TrimLeftFunc f (String a s) = String a s.
Proof. intros Ha. simpl. by rewrite Ha. Qed.

Lemma TrimRightFunc_head (s r : string) (a b : ascii) :
  TrimRightFunc f (String a s) = String b r -> a = b.
Proof.
  simpl. destruct (TrimRightFunc f s); [|by intros [= <- _]].
  destruct (f a); [done|by intros [= <- _]].
Qed.

Lemma TrimRightFunc_last (s u : string) (c : ascii) :
  TrimRightFunc f s = u +:+ String c "" -> f c = false.
Proof.
  revert u. induction s as [|a s IH]; intros u; simpl.
  - by destruct u.
  - destruct (TrimRightFunc f s) as [|b r] eqn:Hr.
    + destruct (f a) eqn:Ha; [by destruct u|].
      destruct u as [|a' u]; [by intros [= <-]|].
      rewrite append_cons. intros Hu. injection Hu as _ Hu. by destruct u.
    + destruct u as [|a' u].
      * rewrite append_nil_l. intros Hu. injection Hu as _ Hu. done.
      * rewrite append_cons. intros Hu. injection Hu as _ Hu. by apply (IH u).
Qed.

Lemma TrimRightFunc_idem (s : string) :
  TrimRightFunc f (TrimRightFunc f s) = TrimRightFunc f s.
Proof.
  induction s as [|a s IH]; simpl; [done|].
  destruct (TrimRightFunc f s) as [|b r] eqn:Hr.
  - destruct (f a) eqn:Ha; simpl; [done|]. by rewrite Ha.
  - change (TrimRightFunc f (String a (String b r)))
      with (match TrimRightFunc f (String b r) with
            | EmptyString => if f a then EmptyString else String a EmptyString
            | r' => String a r'
            end).
    by rewrite IH.
Qed.

(** What [TrimFunc] returns is trimmed: trimming it again changes
    nothing. *)
Lemma TrimFunc_idem (s : string) : TrimFunc f (TrimFunc f s) = TrimFunc f s.
Proof.
  unfold TrimFunc.
  assert (TrimLeftFunc f (TrimRightFunc f (TrimLeftFunc f s))
          = TrimRightFunc f (TrimLeftFunc f s)) as ->; [|apply TrimRightFunc_idem].
  destruct (TrimLeftFunc f s) as [|a r] eqn:Hl; [done|].
  pose proof (TrimLeftFunc_head _ _ _ Hl) as Ha.
  destruct (TrimRightFunc f (String a r)) as [|b r'] eqn:Hr; [done|].
  apply TrimRightFunc_head in Hr as <-. by apply TrimLeftFunc_fixed.
Qed.

(** What [TrimFunc] returns neither starts nor ends with a trimmed byte. *)
Lemma TrimFunc_ends (s : string) :
  (forall a r, TrimFunc f s = String a r -> f a = false)
  /\ (forall u c, TrimFunc f s = u +:+ String c "" -> f c = false).
Proof.
  unfold TrimFunc. split.
  - intros a r Hr. destruct (TrimLeftFunc f s) as [|b r'] eqn:Hl; [done|].
    apply TrimRightFunc_head in Hr as <-. by apply (TrimLeftFunc_head _ _ _ Hl).
  - intros u c. apply TrimRightFunc_last.
Qed.

(** Trimming adds no byte. *)
Lemma hasByte_TrimFunc_absent (c : ascii) (s : string) :
  hasByte c s = false -> hasByte c (TrimFunc f s) = false.
Proof.
  intros Hs. unfold TrimFunc.
  assert (forall s, hasByte c s = false -> hasByte c (TrimLeftFunc f s) = false) as HL.
  { induction s0 as [|a s0 IH]; simpl; [done|].
    case_decide; [done|]. intros Hs0. destruct (f a); [by apply IH|].
    simpl. by rewrite decide_False. }
  assert (forall s, hasByte c s = false -> hasByte c (TrimRightFunc f s) = false) as HR.
  { induction s0 as [|a s0 IH]; simpl; [done|].
    case_decide as Hac; [done|]. intros Hs0. specialize (IH Hs0).
    destruct (TrimRightFunc f s0) as [|b r].
    - destruct (f a); [done|]. simpl. by rewrite decide_False.
    - simpl in *. by rewrite decide_False. }
  by apply HR, HL.
Qed.

End TrimFacts.

(* --------------------------------------------------------------------- *)
(** ** Endpoint resolution, continued                                     *)
(* --------------------------------------------------------------------- *)

(** X13: an [m.server] value with two or more colons, such as an IPv6
    literal, is cut at its first colon: what follows is dropped and the
    port is 8448.  The test for an empty list of parts cannot succeed:
    every non-empty value served with status 200 is accepted. *)
Theorem serverWellKnown_many_colons (host port rest : string) :
  GoStrings.hasByte ":" host = false -> GoStrings.hasByte ":" port = false ->
  Resolver.serverWellKnown
    (Some (200, Resolver.Document (host +:+ ":" +:+ port +:+ ":" +:+ rest)))
  = Go.Returns (Some (host +:+ ":8448"))
  /\ forall wkHost, wkHost <> "" ->
       exists hp, Resolver.serverWellKnown (Some (200, Resolver.Document wkHost))
                  = Go.Returns (Some hp).
Proof.
  intros Hh Hp. split.
  - unfold Resolver.serverWellKnown.
    rewrite decide_True by done.
    rewrite decide_False by (destruct host; done).
    change (":" +:+ port +:+ ":" +:+ rest) with (String ":" (port +:+ String ":" rest)).
    rewrite (Split_append_sep _ _ _ Hh), (Split_append_sep _ _ _ Hp).
    pose proof (Split_nonempty rest ":") as Hne.
    destruct (GoStrings.Split rest ":") as [|w ws]; [done|].
    cbn [length nth]. rewrite !decide_False by done. done.
  - intros wkHost Hne. unfold Resolver.serverWellKnown.
    rewrite decide_True by done. rewrite decide_False by done.
    pose proof (Split_nonempty wkHost ":") as Hs.
    rewrite decide_False by (by destruct (GoStrings.Split wkHost ":")).
    by eexists.
Qed.

Lemma serverWellKnown_many_colons_witness :
  GoStrings.hasByte ":" "[2001" = false /\ GoStrings.hasByte ":" "db8" = false
  /\ Resolver.serverWellKnown (Some (200, Resolver.Document "[2001:db8::1]:443"))
     = Go.Returns (Some "[2001:8448").
Proof.
  split; [reflexivity|]. split; [reflexivity|].
  exact (proj1 (serverWellKnown_many_colons "[2001" "db8" ":1]:443" eq_refl eq_refl)).
Defined.

(** X14: the URL cache only ever holds https URLs: when every cached URL
    starts with [https://], so does the URL that [getURL] returns and every
    URL in the cache afterwards (a call that panics returns no URL and
    leaves the cache as it was). *)
Theorem getURL_https (net : Resolver.Net) (name : string) (discover : bool)
    (s : Resolver.Server) :
  map_Forall (fun _ url => GoStrings.HasPrefix url "https://" = true)
             (Resolver.surlsCache s) ->
  let out := Resolver.getURL net name discover s in
  (forall url, out.1 = Go.Returns url -> GoStrings.HasPrefix url "https://" = true)
  /\ map_Forall (fun _ url => GoStrings.HasPrefix url "https://" = true)
                (Resolver.surlsCache out.2).
Proof.
  intros Hs. simpl. destruct (Resolver.surlsCache s !! name) as [url|] eqn:Hc.
  - rewrite (getURL_hit net name url discover s Hc). simpl.
    split; [|done]. intros ? [= <-]. by apply (Hs name).
  - destruct (Resolver.serverWellKnown (Resolver.wellKnownServer net name))
      as [r|] eqn:Hwk.
    2: { apply serverWellKnown_Panics in Hwk.
         rewrite (getURL_null net name discover s Hc Hwk). simpl. by split. }
    assert (Resolver.wellKnownServer net name <> Some (200, Resolver.NullDocument))
      as Hnull.
    { intros Heq. apply serverWellKnown_Panics in Heq. congruence. }
    clear Hwk. rewrite (getURL_miss net name discover s Hc Hnull). simpl.
    assert (GoStrings.HasPrefix (Resolver.resolutionOrder net name).1 "https://" = true)
      as Hp.
    { unfold Resolver.resolutionOrder.
      destruct (Resolver.usable _); [apply HasPrefix_append|].
      destruct (Resolver.firstSRV (Resolver.lookupSRV net "matrix-fed" name));
        [apply HasPrefix_append|].
      destruct (Resolver.firstSRV (Resolver.lookupSRV net "matrix" name));
        apply HasPrefix_append. }
    split; [by intros ? [= <-]|]. by apply map_Forall_insert_2.
Qed.

Lemma getURL_https_witness :
  let net := {| Resolver.wellKnownServer := fun _ =>
                  Some (200, Resolver.Document "fed.example.org");
                Resolver.lookupSRV := fun _ _ => None |} in
  let s := Resolver.mkServer ∅ false [] in
  map_Forall (fun _ url => GoStrings.HasPrefix url "https://" = true)
             (Resolver.surlsCache s)
  /\ (Resolver.getURL net "example.org" false s).1
     = Go.Returns "https://fed.example.org:8448"
  /\ GoStrings.HasPrefix "https://fed.example.org:8448" "https://" = true.
Proof.
  intros net s.
  assert (map_Forall (fun (_ : string) url => GoStrings.HasPrefix url "https://" = true)
            (Resolver.surlsCache s)) as Hs by apply map_Forall_empty.
  split; [exact Hs|]. split; [reflexivity|].
  exact (proj1 (getURL_https net "example.org" false s Hs) _ eq_refl).
Defined.



(** X27: unless the well-known request is answered with status 200 and
    the body [null], two calls of [getURL] with the same server name
    return the same URL, and the well-known/SRV resolution runs exactly
    once: the first call stores its result in the URL cache whatever path
    the resolution took, and the second call is answered from the cache,
    with no lookup and no change of state. *)
Theorem getURL_twice (net net' : Resolver.Net) (name : string)
    (discover discover' : bool) (s : Resolver.Server) :
  Resolver.surlsCache s !! name = None ->
  Resolver.wellKnownServer net name <> Some (200, Resolver.NullDocument) ->
  let first := Resolver.getURL net name discover s in
  let second := Resolver.getURL net' name discover' first.2 in
  exists url,
    first.1 = Go.Returns url /\ second.1 = Go.Returns url
    /\ Resolver.surlsCache first.2 !! name = Some url
    /\ second.2 = first.2
    /\ exists evs, Resolver.trace second.2 = Resolver.trace s ++ evs
                   /\ Resolver.resolutions evs = 1%nat.
Proof.
  intros Hmiss Hnull; simpl.
  rewrite (getURL_miss net _ _ _ Hmiss Hnull); simpl.
  rewrite (getURL_hit net' name (Resolver.resolutionOrder net name).1); simpl;
    [|by rewrite lookup_insert_eq].
  eexists. split; [done|]. split; [done|].
  split; [by rewrite lookup_insert_eq|]. split; [done|].
  eexists. split; [reflexivity|].
  unfold Resolver.resolutions, Resolver.resolutionOrder.
  destruct (Resolver.usable _); simpl.
  { by destruct (_ && _). }
  destruct (Resolver.firstSRV (Resolver.lookupSRV net "matrix-fed" name)); simpl.
  { by destruct (_ && _). }
  destruct (Resolver.firstSRV (Resolver.lookupSRV net "matrix" name)); simpl;
    by destruct (_ && _).
Qed.

Lemma getURL_twice_witness :
  let net := {| Resolver.wellKnownServer := fun _ => None;
                Resolver.lookupSRV := fun _ _ => None |} in
  let s := Resolver.mkServer ∅ true [] in
  (Resolver.surlsCache s !! "example.org" = None
   /\ Resolver.wellKnownServer net "example.org" <> Some (200, Resolver.NullDocument))
  /\ (Resolver.getURL net "example.org" true
        (Resolver.getURL net "example.org" true s).2).1
     = (Resolver.getURL net "example.org" true s).1.
Proof.
  intros net s.
  assert (Resolver.wellKnownServer net "example.org"
          <> Some (200, Resolver.NullDocument)) as Hnull by (intros Hc; discriminate Hc).
  split; [split; [reflexivity|exact Hnull]|].
  destruct (getURL_twice net net "example.org" true true s eq_refl Hnull)
    as (url & H1 & H2 & _).
  exact (eq_trans H2 (eq_sym H1)).
Defined.

(** X15: of the SRV records the first one decides, whatever follows it;
    its target is used without the dots at its two ends (the host in the
    URL neither starts nor ends with a dot), and an empty answer is an
    error like a failed lookup. *)
Theorem firstSRV_trims_target (target : string) (port : Z) (rest : list (string * Z)) :
  let host := GoStrings.Trim target "." in
  Resolver.firstSRV (Some ((target, port) :: rest))
  = Some (host +:+ ":" +:+ GoStrings.Itoa port)
  /\ (forall r, host <> String "." r)
  /\ (forall u, host <> u +:+ ".")
  /\ GoStrings.Trim host "." = host
  /\ Resolver.firstSRV (Some []) = Resolver.firstSRV None.
Proof.
  simpl. split; [done|].
  destruct (TrimFunc_ends (fun a => GoStrings.hasByte a ".") target) as [Hhead Hlast].
  split; [|split; [|split; [|done]]].
  - intros r Hr. by specialize (Hhead _ _ Hr).
  - intros u Hu. by specialize (Hlast _ _ Hu).
  - apply TrimFunc_idem.
Qed.

(* --------------------------------------------------------------------- *)
(** ** The crawler, continued                                             *)
(* --------------------------------------------------------------------- *)

Section MatrixMore.
Import Model Repository Matrix.
Context {D : Type} `{!DataRepository D}.
Implicit Types (m : Matrix.t D) (fed : Fed).

(** [discoverServer] on a name that is neither blocked nor stored with a
    URL. *)
Lemma discoverServer_fresh fed now name m :
  ByServer (block m) name = false ->
  (GetServer name (data m)).1 = "" ->
  discoverServer fed now name m
  = (setData
       (AddServer (MatrixServer.mk name "" (validateDiscoveredServer fed name m).1 false now
                     (default noContacts (contacts fed name))) (data m)).1
       (send (ReqGet (publicRoomsEndpoint fed m name "1" "")) (send (ReqContacts name) m)),
     (AddServer (MatrixServer.mk name "" (validateDiscoveredServer fed name m).1 false now
                   (default noContacts (contacts fed name))) (data m)).2).
Proof.
  intros Hb Hurl. unfold discoverServer. rewrite Hb.
  destruct (GetServer name (data m)) as [url err]; simpl in Hurl; subst url.
  rewrite decide_False by (intros Hne; by apply Hne).
  unfold getServerContacts.
  pose proof (validate_send fed name (ReqContacts name) m) as Hv.
  pose proof (validate_state fed name (send (ReqContacts name) m)) as Hs.
  destruct (validateDiscoveredServer fed name (send (ReqContacts name) m)) as [ok m'].
  simpl in Hv, Hs. subst m'. rewrite <- Hv.
  unfold MatrixServer.setOnline, MatrixServer.setContacts.
  destruct (contacts fed name) as [c|], ok; simpl;
    match goal with
    | |- context [AddServer ?s ?d] => by destruct (AddServer s d)
    end.
Qed.

Lemma foldl_eachRoomStep {H : Type} (bl : BlocklistService)
    (handler : string -> MatrixRoom.t -> H -> H)
    (toRemove : list string) (h : H) (l : list (string * MatrixRoom.t)) :
  foldl (eachRoomStep bl handler) (toRemove, h) l
  = (toRemove ++ (filter (fun kv => MatrixRoom.IsBlocked kv.2 bl = true) l).*1,
     foldl (fun h kv => handler kv.1 kv.2 h) h
       (filter (fun kv => MatrixRoom.IsBlocked kv.2 bl = false) l)).
Proof.
  revert toRemove h. induction l as [|kv l IH]; intros toRemove h; simpl.
  - by rewrite app_nil_r.
  - rewrite !filter_cons. destruct (MatrixRoom.IsBlocked kv.2 bl) eqn:Hb.
    + rewrite decide_True by done. rewrite decide_False by done.
      rewrite IH. simpl. by rewrite <- app_assoc.
    + rewrite decide_False by done. rewrite decide_True by done.
      by rewrite IH.
Qed.

Lemma addRoom_send parse (r : Request) m room :
  addRoom parse (send r m) room = send r (addRoom parse m room).
Proof.
  unfold addRoom. simpl.
  by destruct (bool_decide (MatrixRoom.ID room = "") || MatrixRoom.IsBlocked room (block m)).
Qed.

Lemma foldl_addRoom_send parse (r : Request) (rooms : list MatrixRoom.t) m :
  foldl (addRoom parse) (send r m) rooms = send r (foldl (addRoom parse) m rooms).
Proof.
  revert m. induction rooms as [|room rooms IH]; intros m; simpl; [done|].
  by rewrite addRoom_send, IH.
Qed.

Lemma foldl_send_addRoom parse (rs : list Request) (rooms : list MatrixRoom.t) m :
  foldl (fun m r => send r m) (foldl (addRoom parse) m rooms) rs
  = foldl (addRoom parse) (foldl (fun m r => send r m) m rs) rooms.
Proof.
  revert m. induction rs as [|r rs IH]; intros m; simpl; [done|].
  by rewrite <- foldl_addRoom_send, IH.
Qed.

Lemma proxyURL_foldl_addRoom parse (rooms : list MatrixRoom.t) m :
  proxyURL (foldl (addRoom parse) m rooms) = proxyURL m.
Proof. by rewrite foldl_addRoom. Qed.

(** A page depends on the state through the proxy URL alone, and the
    request for it is what the state gains. *)
Lemma getPublicRoomsPage_eq fed name limit since m m0 :
  proxyURL m0 = proxyURL m ->
  getPublicRoomsPage fed name limit since m0
  = ((getPublicRoomsPage fed name limit since m).1,
     send (ReqGet (publicRoomsEndpoint fed m name limit since)) m0).
Proof.
  intros Hp. unfold getPublicRoomsPage, publicRoomsEndpoint. rewrite Hp.
  destruct (call fed _) as [[status body]|]; [|done]. by case_decide.
Qed.

Lemma getPublicRoomsFrom_S fuel fed parse name since m :
  getPublicRoomsFrom (S fuel) fed parse name since m
  = match roomsRound fed parse name since m with
    | (m, Go.Panics) => Some (m, Go.Panics)
    | (m, Go.Returns None) => Some (m, Go.Returns tt)
    | (m, Go.Returns (Some next)) => getPublicRoomsFrom fuel fed parse name next m
    end.
Proof. done. Qed.

Lemma getPublicRoomsFrom_chain fed parse name m (pages : list matrixRoomsResp) :
  forall since m0,
  proxyURL m0 = proxyURL m ->
  MatrixAPI.pageChain (fun since => (getPublicRoomsPage fed name "10000" since m).1)
    since pages ->
  getPublicRoomsFrom (S (length pages)) fed parse name since m0
  = Some (foldl (addRoom parse)
            (foldl (fun m r => send r m) m0
               ((fun since => ReqGet (publicRoomsEndpoint fed m name "10000" since))
                  <$> since :: filter (fun s => s <> "") (NextBatch <$> pages)))
            (concat (Rooms <$> pages)),
          Go.Returns tt).
Proof.
  induction pages as [|resp pages IH]; intros since m0 Hp Hchain.
  - rewrite getPublicRoomsFrom_S. unfold roomsRound.
    rewrite (getPublicRoomsPage_eq _ _ _ _ m m0 Hp). simpl in Hchain |- *.
    destruct ((getPublicRoomsPage fed name "10000" since m).1) as [resp|]; [|done].
    by rewrite Hchain, decide_True.
  - rewrite getPublicRoomsFrom_S. unfold roomsRound.
    rewrite (getPublicRoomsPage_eq _ _ _ _ m m0 Hp).
    destruct Hchain as (Hpage & Hne & Hrooms & Hnext). rewrite Hpage.
    rewrite decide_False by (by destruct (Chunk resp)).
    rewrite (addRooms_is_Some _ _ _ Hrooms). fold (Rooms resp).
    destruct (decide (NextBatch resp = "")) as [He|He].
    + subst pages. simpl. rewrite He.
      rewrite app_nil_r. reflexivity.
    + rewrite IH; [|by rewrite proxyURL_foldl_addRoom|done].
      do 2 f_equal.
      rewrite (fmap_cons NextBatch resp pages), (fmap_cons Rooms resp pages).
      rewrite filter_cons, decide_True by done.
      rewrite concat_cons, foldl_app, foldl_send_addRoom. reflexivity.
Qed.

End MatrixMore.

(** X16: the status that [AddServer] reports.  208 exactly for a blocked
    name and for a name stored with a URL; then nothing is sent and
    nothing changes, a blocked server is not removed here.  In every other
    case the server record is stored as the discovery loop would store it,
    offline when the probe fails, and the status is 201 unless the store
    reports an error, 500 then: a server that cannot be reached is
    reported as created. *)
Theorem AddServer_status {D : Type} `{!Repository.DataRepository D}
    (fed : Matrix.Fed) (now : Model.Time) (name : string) (m : Matrix.t D) :
  let out := MatrixAPI.AddServer fed now name m in
  let server := Model.MatrixServer.mk name "" (Matrix.validateDiscoveredServer fed name m).1
                  false now (default Model.noContacts (Matrix.contacts fed name)) in
  (out.1 = 208 <->
   Model.ByServer (Matrix.block m) name = true
   \/ (Repository.GetServer name (Matrix.data m)).1 <> "")
  /\ (out.1 = 208 -> out.2 = m)
  /\ (out.1 <> 208 ->
      Matrix.data out.2 = (Repository.AddServer server (Matrix.data m)).1
      /\ out.1 = match (Repository.AddServer server (Matrix.data m)).2 with
                 | Some _ => 500
                 | None => 201
                 end).
Proof.
  simpl. unfold MatrixAPI.AddServer.
  destruct (Model.ByServer (Matrix.block m) name) eqn:Hb.
  { simpl. split; [split; [by left|done]|]. split; done. }
  destruct (Repository.GetServer name (Matrix.data m)) as [url err] eqn:Hg.
  destruct (decide (url <> "")) as [Hu|Hu].
  { simpl. split; [split; [by right|done]|]. split; done. }
  assert (url = "") as -> by (by destruct (decide (url = ""))).
  rewrite (discoverServer_fresh fed now name m Hb) by (by rewrite Hg).
  destruct (Repository.AddServer _ (Matrix.data m)) as [d [e|]]; simpl.
  - split; [split; [done|intros [?|?]; done]|]. split; done.
  - split; [split; [done|intros [?|?]; done]|]. split; done.
Qed.

(** The sweep of [EachRoom], as two filters of the stored rooms. *)
Lemma EachRoom_eq {D : Type} `{!Repository.DataRepository D} {St : Type}
    (handler : string -> Model.MatrixRoom.t -> St -> St) (m : Matrix.t D) (h : St) :
  Matrix.EachRoom handler m h
  = if Matrix.eachrooming m then (m, h)
    else
      (Matrix.setData
         (Repository.RemoveRooms
            (filter (fun kv => Model.MatrixRoom.IsBlocked kv.2 (Matrix.block m) = true)
                    (Repository.EachRoom (Matrix.data m))).*1
            (Matrix.data m)) m,
       foldl (fun h kv => handler kv.1 kv.2 h) h (Facade.observed m)).
Proof.
  unfold Matrix.EachRoom, Facade.observed.
  destruct (Matrix.eachrooming m) eqn:He; [done|].
  simpl. rewrite foldl_eachRoomStep. simpl.
  f_equal. destruct m; simpl in *. by subst.
Qed.

(** X17: [EachRoom] hands the stored rooms that are not blocked to the
    handler, in the order of the store, and then removes the blocked ones
    from the store; the latch is released at the end.  While a sweep is in
    progress the call does nothing. *)
Theorem EachRoom_sweep {D : Type} `{!Repository.DataRepository D} {St : Type}
    (handler : string -> Model.MatrixRoom.t -> St -> St) (m : Matrix.t D) (h : St) :
  Matrix.EachRoom handler m h
  = if Matrix.eachrooming m then (m, h)
    else
      (Matrix.setData
         (Repository.RemoveRooms
            (filter (fun kv => Model.MatrixRoom.IsBlocked kv.2 (Matrix.block m) = true)
                    (Repository.EachRoom (Matrix.data m))).*1
            (Matrix.data m)) m,
       foldl (fun h kv => handler kv.1 kv.2 h) h (Facade.observed m)).
Proof. apply EachRoom_eq. Qed.

(** X18: a whole run of [getPublicRooms].  When the server answers the
    first request with a page of rooms and every token it hands out with
    a further page of rooms, until a page has no token or the page asked
    for is absent or empty, the run ends: the rooms of all these pages are
    enqueued page after page (those without id or blocked apart), and one
    request is sent for the start and for each token handed out. *)
Theorem getPublicRooms_run {D : Type} `{!Repository.DataRepository D}
    (fed : Matrix.Fed) (parse : Model.MatrixRoom.t -> Model.MatrixRoom.t)
    (name : string) (m : Matrix.t D) (pages : list Model.matrixRoomsResp) :
  MatrixAPI.pageChain
    (fun since => (Matrix.getPublicRoomsPage fed name "10000" since m).1) "" pages ->
  forall fuel, (length pages < fuel)%nat ->
  exists m',
    Matrix.getPublicRooms fuel fed parse name m = Some (m', Go.Returns tt)
    /\ Matrix.data m'
       = foldl (fun d room => Repository.AddRoomBatch (parse room) d) (Matrix.data m)
           (filter (fun room => Model.MatrixRoom.ID room <> ""
                                /\ Model.MatrixRoom.IsBlocked room (Matrix.block m) = false)
              (concat (Model.Rooms <$> pages)))
    /\ Matrix.sent m'
       = Matrix.sent m
         ++ ((fun since => Matrix.ReqGet (Matrix.publicRoomsEndpoint fed m name "10000" since))
               <$> "" :: filter (fun s => s <> "") (Model.NextBatch <$> pages)).
Proof.
  intros Hchain fuel Hfuel.
  pose proof (getPublicRoomsFrom_chain fed parse name m pages "" m eq_refl Hchain) as Hrun.
  revert Hrun.
  generalize ((fun since => Matrix.ReqGet (Matrix.publicRoomsEndpoint fed m name "10000" since))
                <$> "" :: filter (fun s => s <> "") (Model.NextBatch <$> pages)).
  intros reqs Hrun.
  eexists. split.
  { unfold Matrix.getPublicRooms.
    apply (getPublicRoomsFrom_more_fuel _ _ _ _ _ _ _ _ Hrun). lia. }
  rewrite foldl_addRoom. simpl.
  assert (forall (rs : list Matrix.Request) (m0 : Matrix.t D),
            Matrix.data (foldl (fun m r => Matrix.send r m) m0 rs) = Matrix.data m0
            /\ Matrix.block (foldl (fun m r => Matrix.send r m) m0 rs) = Matrix.block m0
            /\ Matrix.sent (foldl (fun m r => Matrix.send r m) m0 rs) = Matrix.sent m0 ++ rs)
    as Hsend.
  { induction rs as [|r rs IH]; intros m0; simpl; [by rewrite app_nil_r|].
    destruct (IH (Matrix.send r m0)) as (-> & -> & ->). simpl.
    by rewrite <- app_assoc. }
  destruct (Hsend reqs m) as (-> & -> & ->). done.
Qed.

Lemma getPublicRooms_run_witness :
  let room := fun id : string =>
    Model.MatrixRoom.mk id "" "" "" "" "" "a.example" 1 "" in
  let page1 := {| Model.Chunk := [Some (room "!r1"); Some (room "!r2")];
                  Model.NextBatch := "t"; Model.Total := 3 |} in
  let page2 := {| Model.Chunk := [Some (room "!r3")];
                  Model.NextBatch := ""; Model.Total := 3 |} in
  let fed := {| Matrix.call := fun endpoint =>
                  if GoStrings.Contains endpoint "&since=t"
                  then Some (200, Some page2) else Some (200, Some page1);
                Matrix.contacts := fun _ => None;
                Matrix.QueryEscape := fun s => s |} in
  let block := {| Model.ByID := fun _ => false; Model.ByServer := fun _ => false |} in
  let m := Matrix.mk [] "https://proxy.example" "" false false false block (Data.New (fun _ => Some "{}")) [] in
  MatrixAPI.pageChain
    (fun since => (Matrix.getPublicRoomsPage fed "a.example" "10000" since m).1)
    "" [page1; page2]
  /\ exists m',
       Matrix.getPublicRooms 3 fed (fun r => r) "a.example" m = Some (m', Go.Returns tt)
       /\ Batch.data (Data.rb (Matrix.data m')) = [room "!r1"; room "!r2"; room "!r3"]
       /\ length (Matrix.sent m') = 2%nat.
Proof.
  intros room page1 page2 fed block m.
  assert (MatrixAPI.pageChain
            (fun since => (Matrix.getPublicRoomsPage fed "a.example" "10000" since m).1)
            "" [page1; page2]) as Hchain.
  { vm_compute.
    repeat match goal with |- _ /\ _ => split end;
      try discriminate; repeat econstructor. }
  split; [exact Hchain|].
  destruct (getPublicRooms_run fed (fun r => r) "a.example" m [page1; page2] Hchain 3%nat)
    as (m' & Hrun & Hdata & Hsent); [simpl; lia|].
  exists m'. split; [exact Hrun|]. split.
  - rewrite Hdata. reflexivity.
  - rewrite Hsent. reflexivity.
Defined.

(** X28: one round of the loop of [getPublicRooms], at any token.  A page
    that is absent or has an empty chunk ends the loop and changes
    nothing.  Of a page of rooms every room is parsed and enqueued with
    [AddRoomBatch], in the order of the page, except the rooms without id
    and the blocked ones; the loop then ends when [next_batch] is empty
    and goes on with [since] set to [next_batch] otherwise.  So the loop
    returns after this round exactly when the page is absent, its chunk is
    empty, or (the chunk holding rooms only) its [next_batch] is empty;
    and the round panics exactly when the chunk has a [null] element.
    [getPublicRooms] is this loop started at the empty token. *)
Theorem getPublicRooms_round {D : Type} `{!Repository.DataRepository D}
    (fed : Matrix.Fed) (parse : Model.MatrixRoom.t -> Model.MatrixRoom.t)
    (name since : string) (m : Matrix.t D) :
  let page := Matrix.getPublicRoomsPage fed name "10000" since m in
  let out := Matrix.roomsRound fed parse name since m in
  (forall fuel,
     Matrix.getPublicRooms fuel fed parse name m
     = Matrix.getPublicRoomsFrom fuel fed parse name "" m)
  /\ (forall fuel,
      Matrix.getPublicRoomsFrom (S fuel) fed parse name since m =
      match out.2 with
      | Go.Panics => Some (out.1, Go.Panics)
      | Go.Returns None => Some (out.1, Go.Returns tt)
      | Go.Returns (Some next) => Matrix.getPublicRoomsFrom fuel fed parse name next out.1
      end)
  /\ (page.1 = None \/ (exists resp, page.1 = Some resp /\ Model.Chunk resp = []) ->
      out = (page.2, Go.Returns None))
  /\ (forall resp, page.1 = Some resp -> Model.Chunk resp <> [] ->
      Forall is_Some (Model.Chunk resp) ->
      out.1 = Matrix.setData
        (foldl (fun d room => Repository.AddRoomBatch (parse room) d) (Matrix.data m)
           (filter (fun room => Model.MatrixRoom.ID room <> ""
                                /\ Model.MatrixRoom.IsBlocked room (Matrix.block m) = false)
              (Model.Rooms resp)))
        page.2
      /\ out.2 = Go.Returns (if decide (Model.NextBatch resp = "") then None
                             else Some (Model.NextBatch resp)))
  /\ (out.2 = Go.Returns None <->
      page.1 = None
      \/ exists resp, page.1 = Some resp /\ Forall is_Some (Model.Chunk resp)
                      /\ (Model.Chunk resp = [] \/ Model.NextBatch resp = ""))
  /\ (out.2 = Go.Panics <->
      exists resp, page.1 = Some resp /\ ~ Forall is_Some (Model.Chunk resp)).
Proof.
  intros page out.
  split; [done|].
  split.
  { intros fuel. simpl. subst out.
    by destruct (Matrix.roomsRound fed parse name since m) as [m' [[next|]|]]. }
  subst page out. unfold Matrix.roomsRound.
  assert (Matrix.data (Matrix.getPublicRoomsPage fed name "10000" since m).2 = Matrix.data m
          /\ Matrix.block (Matrix.getPublicRoomsPage fed name "10000" since m).2
             = Matrix.block m) as [Hd Hb].
  { by rewrite getPublicRoomsPage_state. }
  destruct (Matrix.getPublicRoomsPage fed name "10000" since m) as [resp m1].
  simpl in *.
  assert (forall r : Model.matrixRoomsResp,
            ~ Forall is_Some (Model.Chunk r) ->
            exists before rest, Model.Chunk r = (Some <$> before) ++ None :: rest) as Hnull.
  { intros r. generalize (Model.Chunk r). intros chunk.
    induction chunk as [|[room|] chunk IH]; intros Hnot.
    - by destruct Hnot.
    - destruct IH as (before & rest & ->).
      { intros Hall. apply Hnot. constructor; [by eexists|done]. }
      by exists (room :: before), rest.
    - by exists [], chunk. }
  split; [|split; [|split]].
  - intros [->|(r & -> & Hc)]; [done|].
    rewrite Hc. by rewrite decide_True.
  - intros r -> Hne Hall.
    rewrite decide_False by (destruct (Model.Chunk r); done).
    rewrite (addRooms_is_Some _ _ _ Hall). fold (Model.Rooms r).
    rewrite foldl_addRoom, Hd, Hb.
    by destruct (decide (Model.NextBatch r = "")).
  - destruct resp as [r|]; [|split; eauto].
    destruct (decide (length (Model.Chunk r) = 0%nat)) as [Hl|Hl]; simpl.
    { split; [|done]. intros _. right. exists r.
      destruct (Model.Chunk r); [|done]. split; [done|]. split; [constructor|by left]. }
    destruct (decide (Forall is_Some (Model.Chunk r))) as [Hall|Hnot].
    + rewrite (addRooms_is_Some _ _ _ Hall).
      destruct (decide (Model.NextBatch r = "")) as [Hn|Hn]; simpl.
      * split; [|done]. intros _. right. exists r. eauto.
      * split; [done|]. intros [Hx|(r' & Hr & _ & Hc)]; [done|].
        injection Hr as <-. destruct Hc as [Hc|Hc]; [by rewrite Hc in Hl|done].
    + destruct (Hnull r Hnot) as (before & rest & ->).
      rewrite addRooms_null. split; [done|].
      intros [Hx|(r' & Hr & Hall & _)]; [done|]. injection Hr as <-. done.
  - destruct resp as [r|]; [|split; [done|by intros (? & ? & _)]].
    destruct (decide (length (Model.Chunk r) = 0%nat)) as [Hl|Hl]; simpl.
    { split; [done|]. intros (r' & [= <-] & Hnot). destruct Hnot.
      destruct (Model.Chunk r); [constructor|done]. }
    destruct (decide (Forall is_Some (Model.Chunk r))) as [Hall|Hnot].
    + rewrite (addRooms_is_Some _ _ _ Hall).
      split; [by case_decide|]. by intros (r' & [= <-] & Hnot).
    + destruct (Hnull r Hnot) as (before & rest & Hc). rewrite Hc in *.
      rewrite addRooms_null. split; [|done]. intros _. exists r. by rewrite Hc.
Qed.

(* --------------------------------------------------------------------- *)
(** ** Ingestion, continued                                               *)
(* --------------------------------------------------------------------- *)

Section IngestMore.
Import Model.
Context {D : Type} `{!Repository.DataRepository D}.
Implicit Types (m : Matrix.t D) (i : Index.t) (entry : MatrixRoom.t -> Entry.t).

Lemma Ingest_fold entry m i :
  (Facade.Ingest entry m i).2
  = Index.IndexBatch
      (if Matrix.eachrooming m then i
       else foldl (fun i kv => Index.RoomsBatch kv.1 (entry kv.2) i) i (Facade.observed m)).
Proof.
  unfold Facade.Ingest. rewrite EachRoom_eq. by destruct (Matrix.eachrooming m).
Qed.

Lemma IndexBatch_empty i : Index.batch i = ∅ -> Index.IndexBatch i = i.
Proof.
  destruct i as [n ix b]; simpl. intros ->. unfold Index.IndexBatch; simpl.
  by rewrite (left_id_L ∅ (∪)).
Qed.

Lemma foldl_RoomsBatch_zero entry (l : list (string * MatrixRoom.t)) i :
  Index.rooms i <= 0 -> Index.batch i = ∅ ->
  foldl (fun i kv => Index.RoomsBatch kv.1 (entry kv.2) i) i l = i.
Proof.
  intros Hn Hb. induction l as [|kv l IH]; simpl; [done|].
  unfold Index.RoomsBatch at 2. rewrite decide_True.
  - by rewrite IndexBatch_empty.
  - rewrite Hb, map_size_empty. lia.
Qed.

Lemma foldl_RoomsBatch_below entry (l : list (string * MatrixRoom.t)) :
  forall i,
  Z.of_nat (size (Index.batch i) + length l) <= Index.rooms i ->
  Forall (fun kv => kv.1 <> "") l ->
  foldl (fun i kv => Index.RoomsBatch kv.1 (entry kv.2) i) i l
  = {| Index.rooms := Index.rooms i; Index.index := Index.index i;
       Index.batch := foldl (fun b kv => <[kv.1 := entry kv.2]> b) (Index.batch i) l |}.
Proof.
  induction l as [|kv l IH]; intros i Hsize Hids.
  - by destruct i.
  - cbn [length] in Hsize. apply Forall_cons in Hids as [Hid Hids].
    cbn [foldl]. unfold Index.RoomsBatch at 2.
    rewrite decide_False by lia. rewrite decide_False by done.
    rewrite IH; [done| |done]. cbn [Index.batch Index.rooms].
    pose proof (map_size_insert kv.1 (entry kv.2) (Index.batch i)) as Hs.
    destruct (Index.batch i !! kv.1); simpl in Hs; lia.
Qed.

Lemma foldl_insert_list_to_map {V : Type} (l : list (string * V)) (b : gmap string V) :
  foldl (fun b kv => <[kv.1 := kv.2]> b) b l = list_to_map (reverse l) ∪ b.
Proof.
  revert b. induction l as [|kv l IH]; intros b; simpl.
  - by rewrite (left_id_L ∅ (∪)).
  - rewrite IH, reverse_cons, list_to_map_app. simpl.
    rewrite <- (assoc_L (∪)). f_equal.
    rewrite insert_empty. by rewrite <- insert_union_singleton_l.
Qed.

Lemma foldl_insert_entry entry (l : list (string * MatrixRoom.t)) (b : gmap string Entry.t) :
  foldl (fun b kv => <[kv.1 := entry kv.2]> b) b l
  = foldl (fun b kv => <[kv.1 := kv.2]> b) b ((fun kv => (kv.1, entry kv.2)) <$> l).
Proof. revert b. induction l as [|kv l IH]; intros b; simpl; [done|]. apply IH. Qed.

(** Every document of the index and of the batch comes from where it was
    before, or from a room handed over. *)
Lemma foldl_RoomsBatch_origin entry (P : string -> Entry.t -> Prop)
    (l : list (string * MatrixRoom.t)) :
  forall i,
  (forall kv, kv ∈ l -> kv.1 <> "" -> P kv.1 (entry kv.2)) ->
  (forall id e, Index.index i !! id = Some e \/ Index.batch i !! id = Some e -> P id e) ->
  forall id e,
    Index.index (foldl (fun i kv => Index.RoomsBatch kv.1 (entry kv.2) i) i l) !! id = Some e
    \/ Index.batch (foldl (fun i kv => Index.RoomsBatch kv.1 (entry kv.2) i) i l) !! id = Some e ->
    P id e.
Proof.
  induction l as [|kv l IH]; intros i Hl Hi; simpl; [done|].
  apply IH.
  - intros kv' Hin. apply Hl. by apply list_elem_of_further.
  - intros id e. unfold Index.RoomsBatch.
    destruct (decide (Z.of_nat (size (Index.batch i)) >= Index.rooms i)); simpl.
    + rewrite lookup_union_Some_raw, lookup_empty.
      intros [[?|[_ ?]]|?]; [apply Hi; by right|apply Hi; by left|done].
    + destruct (decide (kv.1 = "")) as [He|He]; simpl; [apply Hi|].
      rewrite lookup_insert_Some.
      intros [?|[[<- <-]|[_ ?]]]; [apply Hi; by left| |apply Hi; by right].
      apply Hl; [apply list_elem_of_here|done].
Qed.

End IngestMore.

(** X19: with a batch size of zero or less, as when [batch.rooms] is not
    configured, [Ingest] indexes nothing: every call of [RoomsBatch]
    finds the empty batch full, flushes it and drops its room. *)
Theorem Ingest_batch_rooms_zero {D : Type} `{!Repository.DataRepository D}
    (entry : Model.MatrixRoom.t -> Model.Entry.t) (m : Matrix.t D) (i : Index.t) :
  Index.rooms i <= 0 -> Index.batch i = ∅ ->
  (Facade.Ingest entry m i).2 = i.
Proof.
  intros Hn Hb. rewrite Ingest_fold.
  destruct (Matrix.eachrooming m).
  - by apply IndexBatch_empty.
  - rewrite foldl_RoomsBatch_zero by done. by apply IndexBatch_empty.
Qed.

Lemma Ingest_batch_rooms_zero_witness :
  let room := fun id : string =>
    Model.MatrixRoom.mk id "" "" "" "" "" "a.example" 1 "" in
  let entry := fun r : Model.MatrixRoom.t =>
    Model.Entry.mk (Model.MatrixRoom.ID r) "room" "" "" "" "" "" "a.example" 1 "" in
  let block := {| Model.ByID := fun _ => false; Model.ByServer := fun _ => false |} in
  let store := {| Data.serversBucket := ∅; Data.serversInfoBucket := ∅;
                  Data.roomsBucket := Data.putRooms (fun _ => Some "{}") [room "!r1"; room "!r2"] ∅;
                  Data.rb := Data.rb (Data.New (fun _ => Some "{}")) |} in
  let m := Matrix.mk [] "" "" false false false block store [] in
  let i := Index.NewIndex 0 ∅ in
  length (Facade.observed m) = 2%nat
  /\ Index.Len (Facade.Ingest entry m i).2 = 0%nat.
Proof.
  intros room entry block store m i. split; [vm_compute; reflexivity|].
  assert (Index.rooms i <= 0) as Hn by (vm_compute; intros Hc; discriminate Hc).
  apply eq_trans with (Index.Len i); [|vm_compute; reflexivity].
  exact (f_equal Index.Len (Ingest_batch_rooms_zero entry m i Hn eq_refl)).
Defined.

(** X20: when the rooms to index are no more than the batch size, none of
    them has an empty id and the batch is empty at the start, [Ingest]
    adds them all to the index in one batch at the end; where two have
    the same id the later one stays, and a document of the index with the
    id of a room is replaced. *)
Theorem Ingest_within_one_batch {D : Type} `{!Repository.DataRepository D}
    (entry : Model.MatrixRoom.t -> Model.Entry.t) (m : Matrix.t D) (i : Index.t) :
  Matrix.eachrooming m = false ->
  Index.batch i = ∅ ->
  Z.of_nat (length (Facade.observed m)) <= Index.rooms i ->
  Forall (fun kv => kv.1 <> "") (Facade.observed m) ->
  Index.index (Facade.Ingest entry m i).2
  = list_to_map (reverse ((fun kv => (kv.1, entry kv.2)) <$> Facade.observed m))
    ∪ Index.index i
  /\ Index.batch (Facade.Ingest entry m i).2 = ∅.
Proof.
  intros He Hb Hlen Hids. rewrite Ingest_fold, He.
  rewrite foldl_RoomsBatch_below; [|rewrite Hb, map_size_empty; simpl; lia|done].
  unfold Index.IndexBatch; simpl. split; [|done].
  rewrite Hb, foldl_insert_entry, foldl_insert_list_to_map.
  by rewrite (right_id_L ∅ (∪)).
Qed.

Lemma Ingest_within_one_batch_witness :
  let room := fun id : string =>
    Model.MatrixRoom.mk id "" "" "" "" "" "a.example" 1 "" in
  let entry := fun r : Model.MatrixRoom.t =>
    Model.Entry.mk (Model.MatrixRoom.ID r) "room" "" "" "" "" "" "a.example" 1 "" in
  let block := {| Model.ByID := fun _ => false; Model.ByServer := fun _ => false |} in
  let store := {| Data.serversBucket := ∅; Data.serversInfoBucket := ∅;
                  Data.roomsBucket := Data.putRooms (fun _ => Some "{}") [room "!r1"; room "!r2"] ∅;
                  Data.rb := Data.rb (Data.New (fun _ => Some "{}")) |} in
  let m := Matrix.mk [] "" "" false false false block store [] in
  let i := Index.NewIndex 2 ∅ in
  (Z.of_nat (length (Facade.observed m)) <= Index.rooms i
   /\ Forall (fun kv => kv.1 <> "") (Facade.observed m))
  /\ Index.Len (Facade.Ingest entry m i).2 = 2%nat.
Proof.
  intros room entry block store m i.
  assert (Z.of_nat (length (Facade.observed m)) <= Index.rooms i) as Hlen
    by (vm_compute; intros Hc; discriminate Hc).
  assert (Forall (fun kv => kv.1 <> "") (Facade.observed m)) as Hids
    by (vm_compute; repeat constructor; intros Hc; discriminate Hc).
  split; [exact (conj Hlen Hids)|].
  unfold Index.Len.
  apply eq_trans with
    (size (list_to_map (reverse ((fun kv => (kv.1, entry kv.2)) <$> Facade.observed m))
           ∪ Index.index i)); [|vm_compute; reflexivity].
  exact (f_equal size (proj1 (Ingest_within_one_batch entry m i eq_refl eq_refl Hlen Hids))).
Defined.

(** X21: what [Ingest] leaves in the index was in the index or in the
    batch before, or it is the entry of a stored room that is not blocked,
    under the id of that room, which is not empty: no blocked room is
    indexed. *)
Theorem Ingest_indexes_stored_unblocked {D : Type} `{!Repository.DataRepository D}
    (entry : Model.MatrixRoom.t -> Model.Entry.t) (m : Matrix.t D) (i : Index.t)
    (id : string) (e : Model.Entry.t) :
  Index.index (Facade.Ingest entry m i).2 !! id = Some e ->
  Index.index i !! id = Some e
  \/ Index.batch i !! id = Some e
  \/ exists room, (id, room) ∈ Repository.EachRoom (Matrix.data m)
                  /\ Model.MatrixRoom.IsBlocked room (Matrix.block m) = false
                  /\ id <> "" /\ e = entry room.
Proof.
  rewrite Ingest_fold. unfold Index.IndexBatch. simpl.
  rewrite lookup_union_Some_raw. intros Hlk.
  set (P := fun (id : string) (e : Model.Entry.t) =>
         Index.index i !! id = Some e
         \/ Index.batch i !! id = Some e
         \/ exists room, (id, room) ∈ Repository.EachRoom (Matrix.data m)
                         /\ Model.MatrixRoom.IsBlocked room (Matrix.block m) = false
                         /\ id <> "" /\ e = entry room).
  change (P id e).
  destruct (Matrix.eachrooming m).
  { destruct Hlk as [?|[_ ?]]; [right; by left|by left]. }
  apply (foldl_RoomsBatch_origin entry P (Facade.observed m) i).
  - intros [id' room] Hin Hne. right. right. exists room.
    apply list_elem_of_filter in Hin as [Hb Hin]. done.
  - intros id' e' [?|?]; [by left|right; by left].
  - destruct Hlk as [?|[_ ?]]; [by right|by left].
Qed.

Lemma Ingest_indexes_stored_unblocked_witness :
  let room := fun id : string =>
    Model.MatrixRoom.mk id "" "" "" "" "" "a.example" 1 "" in
  let entry := fun r : Model.MatrixRoom.t =>
    Model.Entry.mk (Model.MatrixRoom.ID r) "room" "" "" "" "" "" "a.example" 1 "" in
  let block := {| Model.ByID := fun id => bool_decide (id = "!r2");
                  Model.ByServer := fun _ => false |} in
  let store := {| Data.serversBucket := ∅; Data.serversInfoBucket := ∅;
                  Data.roomsBucket := Data.putRooms (fun _ => Some "{}") [room "!r1"; room "!r2"] ∅;
                  Data.rb := Data.rb (Data.New (fun _ => Some "{}")) |} in
  let m := Matrix.mk [] "" "" false false false block store [] in
  let i := Index.NewIndex 5 ∅ in
  Index.index (Facade.Ingest entry m i).2 !! "!r1" = Some (entry (room "!r1"))
  /\ exists r, Model.MatrixRoom.IsBlocked r block = false /\ entry (room "!r1") = entry r.
Proof.
  intros room entry block store m i.
  assert (Index.index (Facade.Ingest entry m i).2 !! "!r1" = Some (entry (room "!r1")))
    as Hlk by (vm_compute; reflexivity).
  split; [exact Hlk|].
  destruct (Ingest_indexes_stored_unblocked entry m i "!r1" _ Hlk)
    as [Hi|[Hb|(r & _ & Hr & _ & He)]];
    [vm_compute in Hi; discriminate Hi|vm_compute in Hb; discriminate Hb|].
  exists r. exact (conj Hr He).
Defined.

(* --------------------------------------------------------------------- *)
(** ** Query pre-processing, continued                                    *)
(* --------------------------------------------------------------------- *)

Section SearchMore.
Import GoStrings Search.

(** Splitting adds no byte. *)
Lemma Split_absent (d c : ascii) (s : string) :
  hasByte d s = false -> Forall (fun p => hasByte d p = false) (Split s c).
Proof.
  induction s as [|a s IH]; simpl; [by repeat constructor|].
  case_decide as Hda; [done|]. intros Hs. specialize (IH Hs).
  case_decide as Hac; [by constructor|].
  destruct (Split s c) as [|w ws].
  - repeat constructor. simpl. by rewrite decide_False.
  - inversion_clear IH. constructor; [|done]. simpl. by rewrite decide_False.
Qed.

Lemma Forall_nth_absent (d : ascii) (l : list string) (n : nat) :
  Forall (fun p => hasByte d p = false) l -> hasByte d (nth n l "") = false.
Proof.
  intros Hl. revert n. induction Hl as [|p l Hp Hl IH]; intros [|n]; simpl; done.
Qed.

Lemma foldl_insert_fieldOf (ts : list string) (fields : gmap string string)
    (key value : string) :
  foldl (fun fs t => <[(fieldOf t).1 := (fieldOf t).2]> fs) fields ts !! key = Some value ->
  fields !! key = Some value \/ exists t, t ∈ ts /\ fieldOf t = (key, value).
Proof.
  revert fields. induction ts as [|t ts IH]; intros fields; simpl; [by left|].
  intros Hlk. apply IH in Hlk as [Hlk|(t' & Hin & Ht)].
  - apply lookup_insert_Some in Hlk as [[Hk Hv]|[_ Hlk]]; [|by left].
    right. exists t. split; [apply list_elem_of_here|].
    unfold fieldOf. by rewrite Hk, Hv.
  - right. exists t'. split; [by apply list_elem_of_further|done].
Qed.

End SearchMore.

(** X22: every field that [matchFields] extracts comes from a token of the
    query that has a colon: its name and its value are the first two
    colon-separated segments of that token; neither of them contains a
    colon or a space, and both are trimmed. *)
Theorem matchFields_field_is_clean (query key value : string) :
  (Search.matchFields query).2 !! key = Some value ->
  (exists token, token ∈ GoStrings.Split query " "
                 /\ GoStrings.Contains token ":" = true
                 /\ Search.fieldOf token = (key, value))
  /\ GoStrings.hasByte ":" key = false /\ GoStrings.hasByte ":" value = false
  /\ GoStrings.hasByte " " key = false /\ GoStrings.hasByte " " value = false
  /\ GoStrings.TrimSpace key = key /\ GoStrings.TrimSpace value = value.
Proof.
  destruct (GoStrings.Contains query ":") eqn:Hc.
  2: { unfold Search.matchFields. rewrite Hc. simpl. by rewrite lookup_empty. }
  rewrite matchFields_colon by done. simpl. intros Hlk.
  apply foldl_insert_fieldOf in Hlk as [Hlk|(t & Hin & Ht)]; [by rewrite lookup_empty in Hlk|].
  apply list_elem_of_filter in Hin as [Htc Hin].
  split; [by exists t|].
  assert (GoStrings.hasByte " " t = false) as Hsp.
  { pose proof (Split_fields query " ") as Hf.
    rewrite Forall_forall in Hf. by apply Hf. }
  unfold Search.fieldOf in Ht. injection Ht as <- <-.
  pose proof (Split_fields (GoStrings.TrimSpace t) ":") as Hcol.
  pose proof (Split_absent " " ":" (GoStrings.TrimSpace t)
                (hasByte_TrimSpace_absent _ _ Hsp)) as Hspc.
  repeat split;
    try (apply hasByte_TrimSpace_absent; by apply Forall_nth_absent);
    apply TrimSpace_idem.
Qed.

Lemma matchFields_field_is_clean_witness :
  (Search.matchFields "matrix language:en:GB").2 !! "language" = Some "en"
  /\ GoStrings.hasByte ":" "en" = false.
Proof.
  assert ((Search.matchFields "matrix language:en:GB").2 !! "language" = Some "en") as Hlk
    by (vm_compute; reflexivity).
  split; [exact Hlk|].
  exact (proj1 (proj2 (proj2 (matchFields_field_is_clean _ _ _ Hlk)))).
Defined.

(* --------------------------------------------------------------------- *)
(** ** The cache service, continued                                       *)
(* --------------------------------------------------------------------- *)

(** X23: the two revisions of the cache middleware.  They agree on every
    request that is not a GET of a non-cacheable path.  On a GET of a
    non-cacheable path neither answers 304; the earlier revision marks
    the response as publicly cacheable for [MaxAge] and tags it for the
    CDN, the later one marks it [no-cache] and sets nothing else. *)
Theorem Middleware_revisions (format : Model.Time -> string) (cache : Cache.t)
    (req : Cache.Request) (resp : gmap string string) :
  (Cache.Method req <> "GET" \/ Cache.Path req ∉ Cache.noncacheablePaths ->
   CacheV1.Middleware format cache req resp = Cache.Middleware format cache req resp)
  /\ (Cache.Method req = "GET" -> Cache.Path req ∈ Cache.noncacheablePaths ->
      CacheV1.Middleware format cache req resp
      = (<["CDN-Tag" := "mutable"]>
           (<["Cache-Control" := "max-age=" +:+ GoStrings.Itoa (Cache.MaxAge cache)
                                 +:+ ", public"]> resp), Cache.Next)
      /\ Cache.Middleware format cache req resp
         = (<["Cache-Control" := "no-cache"]> resp, Cache.Next)).
Proof.
  unfold CacheV1.Middleware, Cache.Middleware. split.
  - intros [Hm|Hp].
    + by rewrite !decide_True.
    + destruct (decide (Cache.Method req <> "GET")); [done|].
      rewrite decide_False by done.
      rewrite (bool_decide_eq_false_2 (Cache.Path req ∈ Cache.noncacheablePaths)) by done.
      simpl.
      rewrite andb_true_r.
      destruct (decide (format (Cache.FinishedAt cache)
                        = Cache.HeaderGet (Cache.Header req) "If-Modified-Since")).
      * by rewrite bool_decide_eq_true_2.
      * by rewrite bool_decide_eq_false_2.
  - intros Hm Hp. rewrite !decide_False by (intros Hne; by apply Hne).
    rewrite decide_True by done.
    rewrite (bool_decide_eq_true_2 (Cache.Path req ∈ Cache.noncacheablePaths)) by done.
    simpl. by rewrite andb_false_r.
Qed.

Lemma Middleware_revisions_witness :
  let cache := {| Cache.MaxAge := 600; Cache.FinishedAt := 0 |} in
  let req := {| Cache.Method := "GET"; Cache.Path := "/search"; Cache.Header := ∅ |} in
  (Cache.Method req = "GET" /\ Cache.Path req ∈ Cache.noncacheablePaths)
  /\ (CacheV1.Middleware (fun _ => "date") cache req ∅).1 !! "Cache-Control"
     = Some "max-age=600, public"
  /\ (Cache.Middleware (fun _ => "date") cache req ∅).1 !! "Cache-Control"
     = Some "no-cache".
Proof.
  intros cache req.
  assert (Cache.Path req ∈ Cache.noncacheablePaths) as Hp
    by (apply noncacheable_paths; by left).
  split; [exact (conj eq_refl Hp)|].
  destruct (proj2 (Middleware_revisions (fun _ => "date") cache req ∅) eq_refl Hp)
    as [-> ->].
  split; vm_compute; reflexivity.
Defined.

(** X24: an IP counts as a BunnyCDN IP exactly when the CDN key is
    configured and one of the two address lists was answered with status
    200 and a body that decodes to a list holding the IP; a list that
    could not be pulled takes nothing from the other. *)
Theorem IsBunny_iff (key : string) (net : Bunny.Net) (ip : string) :
  Bunny.IsBunny (Bunny.NewCache key net) ip = true <->
  key <> ""
  /\ exists uri ips, (uri = Bunny.bunnyIPv4List \/ uri = Bunny.bunnyIPv6List)
                     /\ net uri = Some (200, Some ips) /\ ip ∈ ips.
Proof.
  assert (forall (l : list string) (acc : gset string),
            ip ∈ foldl (fun ips ip => {[ ip ]} ∪ ips) acc l <-> ip ∈ acc \/ ip ∈ l) as Hfold.
  { induction l as [|x l IH]; intros acc; simpl.
    - split; [by left|]. intros [?|Hin]; [done|by apply elem_of_nil in Hin].
    - rewrite IH, elem_of_union, elem_of_singleton, elem_of_cons. tauto. }
  assert (forall uri, ip ∈ Bunny.pullBunnyIPs net uri <->
                      exists ips, net uri = Some (200, Some ips) /\ ip ∈ ips) as Hpull.
  { intros uri. unfold Bunny.pullBunnyIPs, Bunny.StatusOK.
    destruct (net uri) as [[status body]|].
    - destruct (decide (status <> 200)) as [Hs|Hs].
      + split; [by intros Hin%elem_of_nil|]. intros (ips & [= -> _] & _). done.
      + assert (status = 200) as -> by (by destruct (decide (status = 200))).
        destruct body as [ips|].
        * split; [by exists ips|]. by intros (ips' & [= ->] & Hin).
        * split; [by intros Hin%elem_of_nil|]. by intros (ips & [=] & _).
    - split; [by intros Hin%elem_of_nil|]. by intros (ips & [=] & _). }
  unfold Bunny.IsBunny, Bunny.NewCache, Bunny.initBunnyIPs.
  rewrite bool_decide_eq_true.
  destruct (decide (key = "")) as [->|Hk].
  - split; [by intros Hin%elem_of_empty|]. by intros [Hne _].
  - rewrite Hfold, elem_of_app, !Hpull. split.
    + intros [Hin%elem_of_empty|[(ips & Hn & Hin)|(ips & Hn & Hin)]]; [done| |].
      * split; [done|]. exists Bunny.bunnyIPv4List, ips. auto.
      * split; [done|]. exists Bunny.bunnyIPv6List, ips. auto.
    + intros (_ & uri & ips & [->| ->] & Hn & Hin); right; [left|right]; by exists ips.
Qed.

(* --------------------------------------------------------------------- *)
(** ** Parsing the rooms of all servers                                   *)
(* --------------------------------------------------------------------- *)

Section ParseMore.
Import Model Repository Matrix.
Context {D : Type} `{!DataRepository D}.
Implicit Types (m : Matrix.t D) (fed : Fed).

Lemma foldl_send_fields (rs : list Request) m :
  proxyURL (foldl (fun m r => send r m) m rs) = proxyURL m
  /\ block (foldl (fun m r => send r m) m rs) = block m
  /\ parsing (foldl (fun m r => send r m) m rs) = parsing m.
Proof.
  revert m. induction rs as [|r rs IH]; intros m; simpl; [done|].
  by destruct (IH (send r m)) as (-> & -> & ->).
Qed.

(** The loop of [ParseRooms] comes to its end when the pages of every
    server that is not blocked do. *)
Lemma parseEach_runs fuel fed parse m (servers : list string) :
  (forall name, name ∈ servers -> ByServer (block m) name = false ->
     exists pages,
       MatrixAPI.pageChain (fun since => (getPublicRoomsPage fed name "10000" since m).1)
         "" pages
       /\ (length pages < fuel)%nat) ->
  forall m0, proxyURL m0 = proxyURL m -> block m0 = block m ->
  exists m1, foldl (parseEach fuel fed parse) (Some (m0, Go.Returns tt)) servers
             = Some (m1, Go.Returns tt)
             /\ block m1 = block m /\ parsing m1 = parsing m0.
Proof.
  induction servers as [|name servers IH]; intros Hall m0 Hp Hb; [by exists m0|].
  assert (forall name, name ∈ servers -> ByServer (block m) name = false ->
            exists pages,
              MatrixAPI.pageChain
                (fun since => (getPublicRoomsPage fed name "10000" since m).1) "" pages
              /\ (length pages < fuel)%nat) as Hall'.
  { intros n Hin. apply Hall. by apply list_elem_of_further. }
  cbn [foldl]. unfold parseEach at 2.
  destruct (ByServer (block m0) name) eqn:Hbl.
  - destruct (RemoveServer name (data m0)) as [d err].
    destruct (IH Hall' (setData d m0) Hp Hb) as (m1 & Hrun & Hb1 & Hp1).
    by exists m1.
  - rewrite Hb in Hbl.
    destruct (Hall name (list_elem_of_here _ _) Hbl) as (pages & Hchain & Hlen).
    pose proof (getPublicRoomsFrom_chain fed parse name m pages "" m0 Hp Hchain) as Hrun.
    apply (getPublicRoomsFrom_more_fuel _ _ _ _ fuel) in Hrun; [|lia].
    unfold getPublicRooms. rewrite Hrun.
    revert Hrun. generalize ((fun since => ReqGet (publicRoomsEndpoint fed m name "10000" since))
                <$> "" :: filter (fun s => s <> "") (NextBatch <$> pages)).
    intros reqs _.
    destruct (foldl_send_fields reqs m0) as (Hp2 & Hb2 & Hpar2).
    destruct (IH Hall' (foldl (addRoom parse) (foldl (fun m r => send r m) m0 reqs)
                          (concat (Rooms <$> pages))))
      as (m1 & Hrun1 & Hb1 & Hp1).
    + rewrite proxyURL_foldl_addRoom. by rewrite Hp2.
    + rewrite foldl_addRoom. simpl. by rewrite Hb2.
    + exists m1. split; [done|]. split; [done|].
      rewrite Hp1, foldl_addRoom. simpl. done.
Qed.

End ParseMore.

(** X25: [ParseRooms] comes to its end when, for every online server that
    is not blocked, the pages of its public rooms do (the server hands
    out tokens for pages with rooms until a page has no token or the page
    asked for is absent or empty); the blocklist is as before and the
    latch is as it was found: released after a run, untouched by a call
    made while a run is in progress. *)
Theorem ParseRooms_terminates {D : Type} `{!Repository.DataRepository D}
    (fuel : nat) (fed : Matrix.Fed) (parse : Model.MatrixRoom.t -> Model.MatrixRoom.t)
    (workers : Z) (m : Matrix.t D) :
  (forall name,
     name ∈ Matrix.MapKeys (Repository.AllOnlineServers (Matrix.data m)) ->
     Model.ByServer (Matrix.block m) name = false ->
     exists pages,
       MatrixAPI.pageChain
         (fun since => (Matrix.getPublicRoomsPage fed name "10000" since m).1) "" pages
       /\ (length pages < fuel)%nat) ->
  exists m', Matrix.ParseRooms fuel fed parse workers m = Some (m', Go.Returns tt)
             /\ Matrix.block m' = Matrix.block m
             /\ Matrix.parsing m' = Matrix.parsing m.
Proof.
  intros Hall. unfold Matrix.ParseRooms.
  destruct (Matrix.parsing m) eqn:Hpar; [by exists m|].
  destruct (parseEach_runs fuel fed parse m _ Hall (Matrix.setParsing true m) eq_refl eq_refl)
    as (m1 & Hrun & Hb & _).
  cbn [Matrix.data Matrix.setParsing]. rewrite Hrun.
  eexists. split; [done|]. simpl. done.
Qed.

Lemma ParseRooms_terminates_witness :
  let room := fun id : string =>
    Model.MatrixRoom.mk id "" "" "" "" "" "a.example" 1 "" in
  let page1 := {| Model.Chunk := [Some (room "!r1"); Some (room "!r2")];
                  Model.NextBatch := "t"; Model.Total := 3 |} in
  let page2 := {| Model.Chunk := [Some (room "!r3")];
                  Model.NextBatch := ""; Model.Total := 3 |} in
  let fed := {| Matrix.call := fun endpoint =>
                  if GoStrings.Contains endpoint "&since=t"
                  then Some (200, Some page2) else Some (200, Some page1);
                Matrix.contacts := fun _ => None;
                Matrix.QueryEscape := fun s => s |} in
  let server := Model.MatrixServer.mk "a.example" "https://a.example:8448" true true 0
                  Model.noContacts in
  let store := (Data.AddServer server (Data.New (fun _ => Some "{}"))).1 in
  let block := {| Model.ByID := fun _ => false; Model.ByServer := fun _ => false |} in
  let m := Matrix.mk [] "https://proxy.example" "" false false false block store [] in
  Matrix.MapKeys (Repository.AllOnlineServers (Matrix.data m)) = ["a.example"]
  /\ MatrixAPI.pageChain
       (fun since => (Matrix.getPublicRoomsPage fed "a.example" "10000" since m).1)
       "" [page1; page2]
  /\ exists m', Matrix.ParseRooms 3 fed (fun r => r) 1 m = Some (m', Go.Returns tt).
Proof.
  intros room page1 page2 fed server store block m.
  assert (MatrixAPI.pageChain
            (fun since => (Matrix.getPublicRoomsPage fed "a.example" "10000" since m).1)
            "" [page1; page2]) as Hchain.
  { vm_compute.
    repeat match goal with |- _ /\ _ => split end;
      try discriminate; repeat econstructor. }
  assert (Matrix.MapKeys (Repository.AllOnlineServers (Matrix.data m)) = ["a.example"])
    as Hservers by (vm_compute; reflexivity).
  split; [exact Hservers|]. split; [exact Hchain|].
  destruct (ParseRooms_terminates 3 fed (fun r => r) 1 m) as (m' & Hrun & _).
  - intros name Hin _. rewrite Hservers in Hin.
    inversion_clear Hin as [|? ? ? Hnil]; [|inversion Hnil].
    exists [page1; page2]. split; [exact Hchain|simpl; lia].
  - exists m'. exact Hrun.
Defined.
